(** * Video-Conventor: the Mediabunny conversion service

  A shallow embedding of [src/app/mediabunny-conversion.service.ts]
  (the multi-format revision of [MediabunnyConversionService]) and the
  properties its specification states of it.

  - [JsString], [JsRegExp]: the fragment of JavaScript strings and regular
    expressions that [sanitizeBaseName] uses.
  - [Naming]: [buildOutputName] / [sanitizeBaseName]; [NamingSpec]: the
    naming rule in words.
  - [Taxonomy]: [describeInvalidConversion] / [humanizeReason];
    [TaxonomySpec]: the table of reason phrases.
  - [JsMath]: [Math.min] / [Math.max] on binary64 numbers.
  - [Registry]: [isFormatSupported] / [checkCodecSupport] and the
    [supportChecks] memo table.
  - [Service]: [convert] and [cancelConversion], as the sequence of
    synchronous segments between two [await]s that the event loop runs;
    [ServiceSpec]: the invariant of its runs.
  - [NamingLaws], [JsMathSpec], [ServiceLaws], [RegistryLaws]: further
    notions of the code: the shape of an output name, the unit interval,
    the order in which the engine is driven, runs without overlapping
    calls, the probes of the registry.
  - [Listing]: [AUDIO_OUTPUT_OPTIONS] and [getFormatOptionsWithSupport].
  - [Component]: [VideoToAudioConverterComponent], the caller of the
    service, together with the service it calls; [ComponentLaws]: what
    its runs maintain.

  The definitions come first; the facts about them follow, module by
  module, each property of the specification under its identifier (C1,
  C2, ...), and after them further properties of the code (X1, X2, ...). *)

From Stdlib Require Import String Ascii Strings.Byte List Bool Arith NArith Lia Floats.
From Stdlib Require Import ZArith.
From stdpp Require Import base option list gmap strings.
Import ListNotations.

Set Warnings "-inexact-float".
Local Open Scope bool_scope.
Local Open Scope list_scope.

(* ===================================================================== *)
(** ** JavaScript strings *)
(* ===================================================================== *)

Module JsString.

(** A string is its sequence of code units; regular expressions without the
    [u] flag, [slice] and [toLowerCase] all work unit by unit. *)
Definition chars (s : string) : list ascii := list_ascii_of_string s.
Definition str (l : list ascii) : string := string_of_list_ascii l.

Definition code (c : ascii) : nat := nat_of_ascii c.

Definition between (lo hi c : ascii) : bool :=
  (code lo <=? code c) && (code c <=? code hi).

(** [String.prototype.toLowerCase] on one code unit: the upper-case
    letters of Basic Latin and of Latin-1 (U+00D7, the multiplication
    sign, has no lower case). *)
Definition lower_unit (c : ascii) : ascii :=
  if between "A" "Z" c then ascii_of_nat (code c + 32)
  else if between "192" "222" c && negb (code c =? 215)
       then ascii_of_nat (code c + 32)
       else c.

Definition toLowerCase (l : list ascii) : list ascii := map lower_unit l.

(** [s.slice(0, n)]. *)
Definition slice0 (n : nat) (l : list ascii) : list ascii := take n l.

(** Length of the longest prefix whose units all satisfy [p]. *)
Fixpoint run_length (p : ascii -> bool) (l : list ascii) : nat :=
  match l with
  | c :: l' => if p c then S (run_length p l') else 0
  | [] => 0
  end.

End JsString.

(* ===================================================================== *)
(** ** JavaScript regular expressions (the fragment the service uses) *)
(* ===================================================================== *)

Module JsRegExp.
Import JsString.

(** A character class [[...]] or [[^...]]: ranges, possibly negated. A
    single character [x] is the range [x-x]. *)
Record char_class := CharClass {
  negated : bool;
  ranges : list (ascii * ascii)
}.

Definition in_class (k : char_class) (c : ascii) : bool :=
  xorb (negated k) (existsb (fun r => between (fst r) (snd r) c) (ranges k)).

(** Terms of a pattern: the assertions [^] and [$] (no [m] flag), one
    character of a class, and the greedy quantifiers [+] and [{n,}] on a
    class, both written [AtLeast n]. *)
Inductive term :=
| Bol
| Eol
| One (k : char_class)
| AtLeast (n : nat) (k : char_class).

(** A pattern is a disjunction of alternatives, each a sequence of terms. *)
Definition pattern := list (list term).

(** Greedy quantifier with backtracking: try to continue after [k]
    repetitions, then after [k-1], ... down to [n]. The result is the
    length of the whole match. *)
Fixpoint give_back (cont : nat -> option nat) (n k : nat) : option nat :=
  if k <? n then None
  else match cont k with
       | Some len => Some (k + len)
       | None => match k with
                 | 0 => None
                 | S k' => give_back cont n k'
                 end
       end.

(** Match a sequence of terms at index [pos] of the subject, [l] being the
    subject from [pos] on; the length of the match if there is one. *)
Fixpoint match_seq (ts : list term) (pos : nat) (l : list ascii) : option nat :=
  match ts with
  | [] => Some 0
  | Bol :: ts' => if pos =? 0 then match_seq ts' pos l else None
  | Eol :: ts' => match l with
                  | [] => match_seq ts' pos l
                  | _ :: _ => None
                  end
  | One k :: ts' =>
      match l with
      | c :: l' => if in_class k c
                   then match match_seq ts' (S pos) l' with
                        | Some len => Some (S len)
                        | None => None
                        end
                   else None
      | [] => None
      end
  | AtLeast n k :: ts' =>
      give_back (fun i => match_seq ts' (pos + i) (drop i l))
                n (run_length (in_class k) l)
  end.

(** Alternatives are tried left to right; the first that matches wins. *)
Fixpoint match_at (p : pattern) (pos : nat) (l : list ascii) : option nat :=
  match p with
  | [] => None
  | ts :: p' => match match_seq ts pos l with
                | Some len => Some len
                | None => match_at p' pos l
                end
  end.

(** [s.replace(/p/, by)]: the leftmost match is replaced, once. *)
Fixpoint replace_from (p : pattern) (by_ : list ascii) (pos : nat)
         (l : list ascii) : list ascii :=
  match match_at p pos l with
  | Some len => by_ ++ drop len l
  | None => match l with
            | [] => []
            | c :: l' => c :: replace_from p by_ (S pos) l'
            end
  end.

Definition replace (p : pattern) (by_ : list ascii) (l : list ascii) :=
  replace_from p by_ 0 l.

(** [s.replace(/p/g, by)]: every match, left to right; after a match of
    length [len] the search resumes [len] units further ([skip] counts the
    units of the current match still to pass); after an empty match it
    resumes one unit further and that unit is kept. *)
Fixpoint replaceAll_from (p : pattern) (by_ : list ascii) (pos skip : nat)
         (l : list ascii) : list ascii :=
  match skip with
  | S skip' =>
      match l with
      | [] => []
      | _ :: l' => replaceAll_from p by_ (S pos) skip' l'
      end
  | 0 =>
      match match_at p pos l with
      | Some len =>
          by_ ++ match l with
                 | [] => []
                 | c :: l' =>
                     match len with
                     | 0 => c :: replaceAll_from p by_ (S pos) 0 l'
                     | S len' => replaceAll_from p by_ (S pos) len' l'
                     end
                 end
      | None =>
          match l with
          | [] => []
          | c :: l' => c :: replaceAll_from p by_ (S pos) 0 l'
          end
      end
  end.

Definition replaceAll (p : pattern) (by_ : list ascii) (l : list ascii) :=
  replaceAll_from p by_ 0 0 l.

End JsRegExp.

(* ===================================================================== *)
(** ** Output file names *)
(* ===================================================================== *)

Module Naming.
Import JsString JsRegExp.

Definition single (c : ascii) : ascii * ascii := (c, c).

(** [/\.[^/.]+$/] *)
Definition re_extension : pattern :=
  [[ One (CharClass false [single "."]);
     AtLeast 1 (CharClass true [single "/"; single "."]);
     Eol ]].

(** [[^a-zA-Z0-9-_]] *)
Definition outside_word : char_class :=
  CharClass true [("a", "z"); ("A", "Z"); ("0", "9"); single "-"; single "_"]%char.

(** [/[^a-zA-Z0-9-_]+/g] *)
Definition re_unsafe : pattern := [[ AtLeast 1 outside_word ]].

Definition underscore : char_class := CharClass false [single "_"].

(** [/_{2,}/g] *)
Definition re_underscores : pattern := [[ AtLeast 2 underscore ]].

(** [/^_+|_+$/g] *)
Definition re_edges : pattern :=
  [ [Bol; AtLeast 1 underscore]; [AtLeast 1 underscore; Eol] ].

Definition sanitizeBaseName_units (name : list ascii) : list ascii :=
  slice0 64
    (toLowerCase
      (replaceAll re_edges []
        (replaceAll re_underscores ["_"%char]
          (replaceAll re_unsafe ["_"%char]
            (replace re_extension [] name))))).

Definition sanitizeBaseName (name : string) : string :=
  str (sanitizeBaseName_units (chars name)).

(** [a || b] on strings: the empty string is falsy. *)
Definition or_else (a b : string) : string :=
  match a with
  | EmptyString => b
  | _ => a
  end.

Definition buildOutputName (originalName extension : string) : string :=
  let safeBase := or_else (sanitizeBaseName originalName) "audio" in
  (safeBase ++ extension)%string.

End Naming.

(** The naming rule in words: each stage written directly on the list of
  code units, without regular expressions. *)

Module NamingSpec.
Import JsString.

Definition is_char (x c : ascii) : bool := Ascii.eqb c x.

Definition is_alnum (c : ascii) : bool :=
  between "a" "z" c || between "A" "Z" c || between "0" "9" c.

(** Alphanumeric, dash or underscore. *)
Definition is_safe (c : ascii) : bool :=
  is_alnum c || is_char "-" c || is_char "_" c.

Definition is_unsafe (c : ascii) : bool := negb (is_safe c).

(** An extension: a non-empty tail without dot or slash. *)
Definition is_extension (l : list ascii) : bool :=
  match l with
  | [] => false
  | _ :: _ => forallb (fun c => negb (is_char "/" c) && negb (is_char "." c)) l
  end.

(** Stripping the extension: the name is cut at the dot that starts it. *)
Fixpoint strip_extension (l : list ascii) : list ascii :=
  match l with
  | [] => []
  | c :: l' => if is_char "." c && is_extension l' then []
               else c :: strip_extension l'
  end.

(** Every run of units satisfying [p] becomes one underscore: the first
    unit of a run is replaced, the following ones ([in_run]) are dropped. *)
Fixpoint squeeze (p : ascii -> bool) (in_run : bool) (l : list ascii) : list ascii :=
  match l with
  | [] => []
  | c :: l' =>
      if p c then (if in_run then squeeze p true l'
                   else "_"%char :: squeeze p true l')
      else c :: squeeze p false l'
  end.

Definition replace_runs (p : ascii -> bool) (l : list ascii) : list ascii :=
  squeeze p false l.

Definition drop_leading (p : ascii -> bool) (l : list ascii) : list ascii :=
  drop (run_length p l) l.

Definition drop_trailing (p : ascii -> bool) (l : list ascii) : list ascii :=
  rev (drop_leading p (rev l)).

Definition trim_underscores (l : list ascii) : list ascii :=
  drop_trailing (is_char "_") (drop_leading (is_char "_") l).

Definition default_to (d : string) (s : string) : string :=
  if String.eqb s "" then d else s.

(** The rule as the specification words it: strip the extension, replace
    runs of unsafe units by an underscore, trim underscores, lower-case,
    truncate to 64, default to "audio", append the extension. *)
Definition output_name_as_specified (name extension : string) : string :=
  let base :=
    take 64 (map lower_unit
      (trim_underscores
        (replace_runs is_unsafe
          (strip_extension (chars name))))) in
  (default_to "audio" (str base) ++ extension)%string.

(** The same rule with the stage the code has besides: after the unsafe
    runs are replaced, every run of underscores is collapsed to one. *)
Definition output_name_collapsing (name extension : string) : string :=
  let base :=
    take 64 (map lower_unit
      (trim_underscores
        (replace_runs (is_char "_")
          (replace_runs is_unsafe
            (strip_extension (chars name)))))) in
  (default_to "audio" (str base) ++ extension)%string.

(** A name without any alphanumeric unit or dash. *)
Definition all_symbols (name : string) : bool :=
  forallb (fun c => negb (is_alnum c || is_char "-" c)) (chars name).

End NamingSpec.


(* ===================================================================== *)
(** ** Describing an invalid conversion *)
(* ===================================================================== *)

Module Taxonomy.

(** A discarded track as the engine reports it: [track.type] and [reason]. *)
Record DiscardedTrack := {
  track_type : string;
  reason : string
}.

(** The own properties of the [mapping] object literal of [humanizeReason]. *)
Definition mapping : list (string * string) :=
  [ ("discarded_by_user", "discarded by configuration");
    ("max_track_count_reached", "output format limit reached");
    ("max_track_count_of_type_reached",
       "too many tracks of this type for the output format");
    ("unknown_source_codec", "unknown source codec");
    ("undecodable_source_codec", "source codec not decodable in this browser");
    ("no_encodable_target_codec", "no compatible encoder available") ]%string.

(** What every object literal inherits from [Object.prototype]: looking one
    of these names up in [mapping] yields a function (an object for
    [__proto__]), which is neither [null] nor [undefined]. *)
Definition object_prototype_members : list string :=
  [ "constructor"; "hasOwnProperty"; "isPrototypeOf"; "propertyIsEnumerable";
    "toLocaleString"; "toString"; "valueOf"; "__proto__";
    "__defineGetter__"; "__defineSetter__";
    "__lookupGetter__"; "__lookupSetter__" ]%string.

Fixpoint own_property (key : string) (o : list (string * string)) : option string :=
  match o with
  | [] => None
  | (k, v) :: o' => if String.eqb k key then Some v else own_property key o'
  end.

Definition inherited (key : string) : bool :=
  existsb (String.eqb key) object_prototype_members.

Section Rendering.

(** The text a template literal gives an inherited member (the source text
    of a built-in function); it is left to the JavaScript engine. *)
Variable member_text : string -> string.

(** [mapping[reason] ?? 'unsupported track'] *)
Definition humanizeReason (reason : string) : string :=
  match own_property reason mapping with
  | Some phrase => phrase
  | None => if inherited reason then member_text reason
            else "unsupported track"%string
  end.

Definition clause (t : DiscardedTrack) : string :=
  (track_type t ++ " track discarded (" ++ humanizeReason (reason t) ++ ")")%string.

Definition describeInvalidConversion (discardedTracks : list DiscardedTrack) : string :=
  match discardedTracks with
  | [] => "Unable to convert this file with Mediabunny."%string
  | _ :: _ =>
      let details := String.concat "; " (map clause discardedTracks) in
      ("Unable to convert this file: " ++ details ++ ".")%string
  end.

End Rendering.

End Taxonomy.

(** The reason phrases as the specification lists them. *)

Module TaxonomySpec.

Inductive reason_code :=
| UserDiscarded
| TrackCountLimit
| PerTypeTrackCountLimit
| UnknownSourceCodec
| UndecodableSourceCodec
| NoEncodableTargetCodec
| Unrecognized (code : string).

(** The engine's spelling of a reason code. *)
Definition engine_code (r : reason_code) : string :=
  match r with
  | UserDiscarded => "discarded_by_user"
  | TrackCountLimit => "max_track_count_reached"
  | PerTypeTrackCountLimit => "max_track_count_of_type_reached"
  | UnknownSourceCodec => "unknown_source_codec"
  | UndecodableSourceCodec => "undecodable_source_codec"
  | NoEncodableTargetCodec => "no_encodable_target_codec"
  | Unrecognized code => code
  end%string.

Definition known_codes : list string :=
  map engine_code
    [UserDiscarded; TrackCountLimit; PerTypeTrackCountLimit;
     UnknownSourceCodec; UndecodableSourceCodec; NoEncodableTargetCodec].

(** An [Unrecognized] code is one the table does not know, and one that is
    no member name of [Object.prototype]. *)
Definition well_formed (r : reason_code) : bool :=
  match r with
  | Unrecognized code =>
      negb (existsb (String.eqb code) known_codes) && negb (Taxonomy.inherited code)
  | _ => true
  end.

Definition phrase_as_specified (r : reason_code) : string :=
  match r with
  | UserDiscarded => "discarded by configuration"
  | TrackCountLimit => "output format limit reached"
  | PerTypeTrackCountLimit => "too many tracks of this type for the output format"
  | UnknownSourceCodec => "unknown source codec"
  | UndecodableSourceCodec => "source codec not decodable in this runtime"
  | NoEncodableTargetCodec => "no compatible encoder available"
  | Unrecognized _ => "unsupported track"
  end%string.

(** The same table with the phrase the code has for an undecodable codec. *)
Definition phrase_in_browser (r : reason_code) : string :=
  match r with
  | UndecodableSourceCodec => "source codec not decodable in this browser"%string
  | _ => phrase_as_specified r
  end.

Definition clause_of (phrase : reason_code -> string)
           (t : string * reason_code) : string :=
  (fst t ++ " track discarded (" ++ phrase (snd t) ++ ")")%string.

Definition as_reported (t : string * reason_code) : Taxonomy.DiscardedTrack :=
  {| Taxonomy.track_type := fst t; Taxonomy.reason := engine_code (snd t) |}.

End TaxonomySpec.

(* ===================================================================== *)
(** ** [Math.min] and [Math.max] *)
(* ===================================================================== *)

Module JsMath.

Definition is_negative_zero (x : float) : bool :=
  PrimFloat.eqb x 0 && get_sign x.

(** [Math.max(a, b)]: NaN if either is NaN; +0 is larger than -0. *)
Definition max (a b : float) : float :=
  if is_nan a || is_nan b then nan
  else if PrimFloat.ltb a b then b
  else if PrimFloat.ltb b a then a
  else if is_negative_zero a then b else a.

(** [Math.min(a, b)]: NaN if either is NaN; -0 is smaller than +0. *)
Definition min (a b : float) : float :=
  if is_nan a || is_nan b then nan
  else if PrimFloat.ltb a b then a
  else if PrimFloat.ltb b a then b
  else if is_negative_zero a then a else b.

(** [Math.min(Math.max(progress, 0), 1)] *)
Definition clamp (progress : float) : float := min (max progress 0) 1.

End JsMath.

(* ===================================================================== *)
(** ** The format catalog and the support registry *)
(* ===================================================================== *)

Module Registry.

Record ConversionAudioOptions := {
  opt_codec : string;
  bitrate : option N;
  sampleRate : option N;
  numberOfChannels : option N
}.

Record AudioFormatSpec := {
  label : string;
  description : string;
  extension : string;
  mimeType : string;
  codec : string;
  alwaysAvailable : bool;              (* absent is falsy *)
  unsupportedMessage : option string;
  audioOptions : ConversionAudioOptions
}.

(** [AUDIO_FORMAT_SPECS], in declaration order. *)
Definition AUDIO_FORMAT_SPECS : list (string * AudioFormatSpec) :=
  [ ("mp3", {| label := "MP3";
               description := "Best compatibility and small file size.";
               extension := ".mp3"; mimeType := "audio/mpeg"; codec := "mp3";
               alwaysAvailable := true; unsupportedMessage := None;
               audioOptions := {| opt_codec := "mp3"; bitrate := Some 192000%N;
                                  sampleRate := None; numberOfChannels := None |} |});
    ("wav", {| label := "WAV";
               description := "Uncompressed PCM for editing.";
               extension := ".wav"; mimeType := "audio/wav"; codec := "pcm-s16";
               alwaysAvailable := true; unsupportedMessage := None;
               audioOptions := {| opt_codec := "pcm-s16"; bitrate := None;
                                  sampleRate := Some 48000%N;
                                  numberOfChannels := Some 2%N |} |});
    ("ogg", {| label := "OGG (Opus)";
               description := "High quality streaming friendly files.";
               extension := ".ogg"; mimeType := "application/ogg"; codec := "opus";
               alwaysAvailable := false;
               unsupportedMessage := Some
                 "This browser cannot encode Opus audio yet. Try Chrome 116+, Firefox 130+, or use MP3/WAV.";
               audioOptions := {| opt_codec := "opus"; bitrate := Some 128000%N;
                                  sampleRate := Some 48000%N;
                                  numberOfChannels := None |} |});
    ("aac", {| label := "AAC";
               description := "Great for iOS and Safari playback.";
               extension := ".aac"; mimeType := "audio/aac"; codec := "aac";
               alwaysAvailable := false;
               unsupportedMessage := Some
                 "AAC encoding needs native WebCodecs support (Safari 17+, Chrome 120+ with flags).";
               audioOptions := {| opt_codec := "aac"; bitrate := Some 192000%N;
                                  sampleRate := None; numberOfChannels := None |} |});
    ("flac", {| label := "FLAC";
                description := "Lossless compression with smaller size than WAV.";
                extension := ".flac"; mimeType := "audio/flac"; codec := "flac";
                alwaysAvailable := false;
                unsupportedMessage := Some
                  "FLAC encoding is still experimental in WebCodecs. Use WAV for lossless audio in this browser.";
                audioOptions := {| opt_codec := "flac"; bitrate := None;
                                   sampleRate := None; numberOfChannels := None |} |})
  ]%string.

(** The own properties of the [AUDIO_FORMAT_SPECS] object literal: its
    entry for an id of type [AudioOutputFormatId]. *)
Fixpoint spec_of_in (formatId : string) (specs : list (string * AudioFormatSpec))
  : option AudioFormatSpec :=
  match specs with
  | [] => None
  | (id, spec) :: specs' =>
      if String.eqb id formatId then Some spec else spec_of_in formatId specs'
  end.

Definition spec_of (formatId : string) : option AudioFormatSpec :=
  spec_of_in formatId AUDIO_FORMAT_SPECS.

(** What [AUDIO_FORMAT_SPECS[formatId]] yields for any string: an entry of
    the catalog; a member the object literal inherits from
    [Object.prototype] (a function, an object for [__proto__]), which is
    truthy and has none of the properties of a spec; or [undefined]. *)
Inductive member :=
| Entry (spec : AudioFormatSpec)
| Inherited
| Undefined.

Definition lookup (formatId : string) : member :=
  match spec_of formatId with
  | Some spec => Entry spec
  | None => if Taxonomy.inherited formatId then Inherited else Undefined
  end.

(** [spec.alwaysAvailable], [spec.codec] and [spec.unsupportedMessage] of a
    truthy [spec]; a property an inherited member lacks is [undefined]. *)
Definition always (spec : member) : bool :=
  match spec with
  | Entry spec => alwaysAvailable spec
  | _ => false
  end.

Definition codec_of (spec : member) : option string :=
  match spec with
  | Entry spec => Some (codec spec)
  | _ => None
  end.

Definition unsupportedMessage_of (spec : member) : option string :=
  match spec with
  | Entry spec => unsupportedMessage spec
  | _ => None
  end.

(** [spec.label] inside a template literal. *)
Definition label_text (spec : member) : string :=
  match spec with
  | Entry spec => label spec
  | _ => "undefined"
  end.

(** How a call of the engine's [canEncodeAudio] ends. *)
Inductive probe_outcome :=
| ProbeAnswered (supported : bool)
| ProbeThrew.

(** A [Promise<boolean>] of the registry: resolved from the start, or
    following the [n]-th probe issued. *)
Inductive promise :=
| Resolved (value : bool)
| Probing (n : nat).

(** The registry: the [supportChecks] map, and the probes issued so far, each
    with the codec asked about ([None] is [undefined]) and its outcome once
    it is known. *)
Record t := mk {
  supportChecks : gmap string promise;
  probes : list (option string * option probe_outcome)
}.

Definition empty : t := {| supportChecks := ∅; probes := [] |}.

(** [checkCodecSupport(codec)]: the PCM codec needs no probe; otherwise
    [canEncodeAudio(codec)] is called, and a probe that throws counts as
    [false] (see [value]). *)
Definition is_pcm (codec : option string) : bool :=
  match codec with
  | Some codec => String.eqb codec "pcm-s16"
  | None => false
  end.

Definition checkCodecSupport (r : t) (codec : option string) : promise * t :=
  if is_pcm codec then (Resolved true, r)
  else (Probing (length (probes r)),
        {| supportChecks := supportChecks r;
           probes := probes r ++ [(codec, None)] |}).

Definition isFormatSupported (r : t) (formatId : string) : promise * t :=
  match lookup formatId with
  | Undefined => (Resolved false, r)
  | spec =>
      if always spec then (Resolved true, r)
      else match supportChecks r !! formatId with
           | Some p => (p, r)
           | None =>
               let '(p, r') := checkCodecSupport r (codec_of spec) in
               (p, {| supportChecks := <[formatId := p]> (supportChecks r');
                      probes := probes r' |})
           end
  end.

(** The engine answers the [n]-th probe (a probe is answered once). *)
Definition settle_probe (n : nat) (o : probe_outcome) (r : t) : t :=
  match probes r !! n with
  | Some (codec, None) =>
      {| supportChecks := supportChecks r;
         probes := <[n := (codec, Some o)]> (probes r) |}
  | _ => r
  end.

(** The value a promise has settled with, if it has: [try { return await
    canEncodeAudio(codec) } catch { return false }]. *)
Definition value (r : t) (p : promise) : option bool :=
  match p with
  | Resolved b => Some b
  | Probing n =>
      match probes r !! n with
      | Some (_, Some (ProbeAnswered b)) => Some b
      | Some (_, Some ProbeThrew) => Some false
      | _ => None
      end
  end.

(** What can happen to a registry. *)
Inductive op :=
| Ask (formatId : string)
| Answer (n : nat) (o : probe_outcome).

Definition apply (o : op) (r : t) : t :=
  match o with
  | Ask formatId => snd (isFormatSupported r formatId)
  | Answer n out => settle_probe n out r
  end.

Definition run (ops : list op) (r : t) : t := fold_left (fun r o => apply o r) ops r.

End Registry.

(* ===================================================================== *)
(** ** The conversion service *)
(* ===================================================================== *)

Module Service.

(** What a call of [convert] can throw. *)
Inductive exn :=
| Error (message : string)
| DOMException (message name : string)
| TypeError (message : string)      (* thrown by the runtime; an [Error] *)
| Foreign (what : string).          (* thrown by the file or by the engine *)

Definition AbortError : exn := DOMException "Conversion cancelled." "AbortError".

(** What calling [spec.createFormat()] throws when [spec] has no such
    property; the wording of the message is the runtime's. *)
Definition not_a_function : exn := TypeError "spec.createFormat is not a function".

Record Blob := {
  blob_bytes : list byte;
  blob_type : string
}.

Record ConversionResult := {
  fileName : string;
  blob : Blob;
  remoteUrl : option string;
  mimeType : string
}.

Inductive outcome :=
| Returned (result : ConversionResult)
| Threw (e : exn).

(** A settled promise of a collaborator. *)
Inductive settlement (A : Type) :=
| Fulfilled (a : A)
| Rejected (e : exn).
Arguments Fulfilled {A} a.
Arguments Rejected {A} e.

(** Where a call of [convert] stands: the [await] it is suspended at, or
    how it ended. *)
Inductive stage :=
| AwaitSupport (p : Registry.promise)     (* await this.isFormatSupported(formatId) *)
| AwaitArrayBuffer                        (* await file.arrayBuffer() *)
| AwaitGetFormat                          (* await input.getFormat() *)
| AwaitInit                               (* await Conversion.init({...}) *)
| AwaitRace                               (* await Promise.race([execute(), cancelPromise]) *)
| Done (o : outcome).

Record File := { name : string }.

(** Which callbacks the caller passed. *)
Record ProgressCallbacks := {
  onProgress : bool;
  onLog : bool
}.

Record DetectedFormat := {
  format_name : option string;
  constructor_name : option string
}.

(** The engine's [Conversion], as far as the service reads it. *)
Record Conversion := {
  isValid : bool;
  discardedTracks : list Taxonomy.DiscardedTrack
}.

(** Which promise settled [Promise.race([conversion.execute(), cancelPromise])]
    first; [execute] fulfils with [target.buffer] set, or left [null]. *)
Inductive race_winner :=
| ExecuteWon (r : settlement (option (list byte)))
| CancelWon.

(** The parameters and local variables of one call of [convert]. *)
Record Call := mkCall {
  file : File;
  formatId : string;
  callbacks : ProgressCallbacks;
  at_stage : stage;
  inMemoryCopy : list byte;
  conversion : option Conversion;       (* null until Conversion.init returns *)
  cancelRequested : bool;
  cancelReject : bool;                  (* is cancelReject still defined *)
  cancelPromise_rejected : bool;
  progress_handler : bool;              (* conversion.onProgress is assigned *)
  race : option race_winner
}.

(** What the service does to its collaborators. *)
Inductive effect :=
| OnLog (id : nat) (message : string)
| OnProgress (id : nat) (ratio : float)
| FileArrayBuffer (id : nat)
| InputGetFormat (id : nat)
| ConversionInit (id : nat)
| ConversionExecute (id : nat)
| ConversionCancel (id : nat)
| InputDispose (id : nat).

(** The service: [activeCancel] holds the [cancel] closure of a call, named
    by the call's index; [calls] are all the calls of [convert] so far. *)
Record State := mkState {
  activeCancel : option nat;
  registry : Registry.t;
  calls : list Call;
  effects : list effect
}.

Definition init : State :=
  {| activeCancel := None; registry := Registry.empty; calls := []; effects := [] |}.

(** *** Record updates *)

Definition set_stage (st : stage) (c : Call) : Call :=
  mkCall (file c) (formatId c) (callbacks c) st (inMemoryCopy c) (conversion c)
         (cancelRequested c) (cancelReject c) (cancelPromise_rejected c)
         (progress_handler c) (race c).

Definition set_conversion (v : option Conversion) (c : Call) : Call :=
  mkCall (file c) (formatId c) (callbacks c) (at_stage c) (inMemoryCopy c) v
         (cancelRequested c) (cancelReject c) (cancelPromise_rejected c)
         (progress_handler c) (race c).

Definition set_progress_handler (c : Call) : Call :=
  mkCall (file c) (formatId c) (callbacks c) (at_stage c) (inMemoryCopy c)
         (conversion c) (cancelRequested c) (cancelReject c)
         (cancelPromise_rejected c) true (race c).

Definition set_race (w : option race_winner) (c : Call) : Call :=
  mkCall (file c) (formatId c) (callbacks c) (at_stage c) (inMemoryCopy c)
         (conversion c) (cancelRequested c) (cancelReject c)
         (cancelPromise_rejected c) (progress_handler c) w.

Definition emit (e : effect) (s : State) : State :=
  mkState (activeCancel s) (registry s) (calls s) (effects s ++ [e]).

Definition set_call (id : nat) (c : Call) (s : State) : State :=
  mkState (activeCancel s) (registry s) (<[id := c]> (calls s)) (effects s).

Definition set_activeCancel (v : option nat) (s : State) : State :=
  mkState v (registry s) (calls s) (effects s).

(** [callbacks?.onLog?.(message)] and [callbacks?.onProgress?.(ratio)] *)
Definition log (id : nat) (c : Call) (message : string) (s : State) : State :=
  if onLog (callbacks c) then emit (OnLog id message) s else s.

Definition progress (id : nat) (c : Call) (ratio : float) (s : State) : State :=
  if onProgress (callbacks c) then emit (OnProgress id ratio) s else s.

(** *** Text helpers *)

Definition dquote : string := String (ascii_of_nat 34) EmptyString.

Definition hex_digit (n : nat) : ascii :=
  if n <? 10 then ascii_of_nat (48 + n) else ascii_of_nat (87 + n).

(** [byte.toString(16).padStart(2, '0')] *)
Definition hex_byte (b : byte) : string :=
  let n := nat_of_ascii (ascii_of_byte b) in
  String (hex_digit (n / 16)) (String (hex_digit (n mod 16)) EmptyString).

(** The first 32 bytes, in hexadecimal, separated by spaces. *)
Definition headerBytes (copy : list byte) : string :=
  String.concat " " (map hex_byte (take 32 copy)).

(** [a ?? b] *)
Definition nullish {A} (a : option A) (b : A) : A :=
  match a with
  | Some x => x
  | None => b
  end.

(** *** The [cancel] closure of call [id] *)

Definition cancel (id : nat) (s : State) : State :=
  match calls s !! id with
  | None => s
  | Some c =>
      if cancelRequested c then s
      else
        let s1 := log id c "Cancel requested. Stopping conversion..." s in
        let s2 := match conversion c with
                  | Some _ => emit (ConversionCancel id) s1
                  | None => s1
                  end in
        let rejecting := cancelReject c in
        let c' :=
          mkCall (file c) (formatId c) (callbacks c) (at_stage c)
                 (inMemoryCopy c) (conversion c)
                 true
                 false
                 (cancelPromise_rejected c || rejecting)
                 (progress_handler c)
                 (match at_stage c, race c with
                  | AwaitRace, None => if rejecting then Some CancelWon else None
                  | _, w => w
                  end) in
        set_call id c' s2
  end.

(** [cancelConversion()]: [this.activeCancel?.()] *)
Definition cancelConversion (s : State) : State :=
  match activeCancel s with
  | Some id => cancel id s
  | None => s
  end.

(** *** [convert], segment by segment *)

(** The [finally] block, and the promise of call [id] settling with [o]. *)
Definition finish (id : nat) (c : Call) (o : outcome) (s : State) : State :=
  emit (InputDispose id)
    (set_activeCancel None (set_call id (set_stage (Done o) c) s)).

(** From the call to the first [await]. *)
Definition convert (f : File) (fmt : string) (cb : ProgressCallbacks)
           (s : State) : State :=
  let call st :=
    mkCall f fmt cb st [] None false false false false None in
  match activeCancel s with
  | Some _ =>
      mkState (activeCancel s) (registry s)
              (calls s ++ [call (Done (Threw (Error "Another conversion is already in progress.")))])
              (effects s)
  | None =>
      match Registry.lookup fmt with
      | Registry.Undefined =>
          mkState (activeCancel s) (registry s)
                  (calls s ++ [call (Done (Threw (Error ("Unsupported output format: " ++ fmt))))])
                  (effects s)
      | _ =>
          let '(p, reg) := Registry.isFormatSupported (registry s) fmt in
          mkState (activeCancel s) reg (calls s ++ [call (AwaitSupport p)]) (effects s)
      end
  end.

(** After [await this.isFormatSupported(formatId)], once that promise has a
    value, up to [await file.arrayBuffer()]; [spec] is truthy here, the
    call having passed [if (!spec)]. *)
Definition resume_support (id : nat) (s : State) : State :=
  match calls s !! id with
  | Some c =>
      match at_stage c with
      | AwaitSupport p =>
          match Registry.value (registry s) p with
          | Some true =>
              let s1 := log id c "Loading file into memory for Mediabunny analysis..." s in
              set_call id (set_stage AwaitArrayBuffer c) (emit (FileArrayBuffer id) s1)
          | Some false =>
              let spec := Registry.lookup (formatId c) in
              let message :=
                nullish (Registry.unsupportedMessage_of spec)
                        (Registry.label_text spec ++
                         " encoding is not supported in this browser yet. Try MP3, WAV, or OGG instead.")%string in
              set_call id (set_stage (Done (Threw (Error message))) c) s
          | None => s
          end
      | _ => s
      end
  | None => s
  end.

(** After [await file.arrayBuffer()], up to [await input.getFormat()]: the
    locals are set up, [this.activeCancel = cancel], and the [try] begins.
    [spec.createFormat()] comes first of these, and throws unless [spec] is
    an entry of the catalog. *)
Definition resume_arrayBuffer (id : nat) (r : settlement (list byte))
           (s : State) : State :=
  match calls s !! id with
  | Some c =>
      match at_stage c with
      | AwaitArrayBuffer =>
          match r with
          | Rejected e => set_call id (set_stage (Done (Threw e)) c) s
          | Fulfilled copy =>
              match Registry.lookup (formatId c) with
              | Registry.Entry _ =>
                  let c' :=
                    mkCall (file c) (formatId c) (callbacks c) AwaitGetFormat copy
                           None false true false false None in
                  let s1 := set_activeCancel (Some id) (set_call id c' s) in
                  let s2 := progress id c' 0%float s1 in
                  let s3 := log id c' ("Loading " ++ dquote ++ name (file c') ++ dquote
                                       ++ " with Mediabunny...")%string s2 in
                  emit (InputGetFormat id) s3
              | _ => set_call id (set_stage (Done (Threw not_a_function)) c) s
              end
          end
      | _ => s
      end
  | None => s
  end.

(** After [await input.getFormat()], up to [await Conversion.init(...)]. *)
Definition resume_getFormat (id : nat) (r : settlement (option DetectedFormat))
           (s : State) : State :=
  match calls s !! id with
  | Some c =>
      match at_stage c with
      | AwaitGetFormat =>
          match r with
          | Rejected formatError =>
              let s1 := log id c
                ("Unable to detect the container format from the file header. First 32 bytes: "
                 ++ headerBytes (inMemoryCopy c))%string s in
              finish id c (Threw formatError) s1
          | Fulfilled detectedFormat =>
              let detectedFormatName :=
                nullish (detectedFormat ≫= format_name)
                  (nullish (detectedFormat ≫= constructor_name) "unknown"%string) in
              let s1 := log id c ("Detected container: " ++ detectedFormatName ++ ".")%string s in
              set_call id (set_stage AwaitInit c) (emit (ConversionInit id) s1)
          end
      | _ => s
      end
  | None => s
  end.

Section Rendering.

Variable member_text : string -> string.

(** After [await Conversion.init(...)], up to [await Promise.race(...)]. *)
Definition resume_init (id : nat) (r : settlement Conversion) (s : State) : State :=
  match calls s !! id with
  | Some c =>
      match at_stage c with
      | AwaitInit =>
          match r with
          | Rejected e => finish id c (Threw e) s
          | Fulfilled conv =>
              let c1 := set_conversion (Some conv) c in
              if negb (isValid conv) then
                match discardedTracks conv with
                | [] =>
                    finish id c1 (Threw (Error
                      "Mediabunny rejected the file: unrecognized or unsupported audio/video tracks.")) s
                | _ :: _ =>
                    finish id c1 (Threw (Error
                      (Taxonomy.describeInvalidConversion member_text (discardedTracks conv)))) s
                end
              else
                let s1 := set_call id c1 s in
                let s2 := if cancelRequested c1 then cancel id s1 else s1 in
                let c2 := set_progress_handler (nullish (calls s2 !! id) c1) in
                let s3 := log id c2 "Transcoding audio to MP3 with Mediabunny..." s2 in
                let s4 := emit (ConversionExecute id) s3 in
                let c3 :=
                  set_race (if cancelPromise_rejected c2 then Some CancelWon else None)
                           (set_stage AwaitRace c2) in
                set_call id c3 s4
          end
      | _ => s
      end
  | None => s
  end.

(** [conversion.onProgress], when the engine calls it. *)
Definition engine_progress (id : nat) (v : float) (s : State) : State :=
  match calls s !! id with
  | Some c =>
      if progress_handler c then
        if cancelRequested c then s
        else progress id c (JsMath.clamp v) s
      else s
  | None => s
  end.

(** The promise of [conversion.execute()] settles. *)
Definition execute_settled (id : nat) (r : settlement (option (list byte)))
           (s : State) : State :=
  match calls s !! id with
  | Some c =>
      match at_stage c, race c with
      | AwaitRace, None => set_call id (set_race (Some (ExecuteWon r)) c) s
      | _, _ => s
      end
  | None => s
  end.

(** After [await Promise.race(...)], once it has settled, to the end; a
    call that has come this far is past [spec.createFormat()], so its [spec]
    is an entry of the catalog. *)
Definition resume_race (id : nat) (s : State) : State :=
  match calls s !! id with
  | Some c =>
      match at_stage c, race c, Registry.lookup (formatId c) with
      | AwaitRace, Some CancelWon, _ => finish id c (Threw AbortError) s
      | AwaitRace, Some (ExecuteWon (Rejected e)), _ => finish id c (Threw e) s
      | AwaitRace, Some (ExecuteWon (Fulfilled buffer)), Registry.Entry spec =>
          if cancelRequested c then finish id c (Threw AbortError) s
          else
            match buffer with
            | None =>
                finish id c (Threw (Error "Mediabunny did not return any audio bytes.")) s
            | Some buf =>
                let blob := {| blob_bytes := buf; blob_type := Registry.mimeType spec |} in
                let s1 := progress id c 1%float s in
                let s2 := log id c "Conversion finished." s1 in
                finish id c
                  (Returned {| fileName := Naming.buildOutputName (name (file c))
                                             (Registry.extension spec);
                               blob := blob;
                               remoteUrl := None;
                               mimeType := Registry.mimeType spec |})
                  s2
            end
      | _, _, _ => s
      end
  | None => s
  end.

(** *** The event loop *)

(** What the event loop can run next: a call of the public interface, or a
    settled promise resuming the call that awaits it. *)
Inductive event :=
| CallConvert (f : File) (fmt : string) (cb : ProgressCallbacks)
| CallCancelConversion
| ProbeSettled (n : nat) (o : Registry.probe_outcome)
| SupportResumed (id : nat)
| ArrayBufferSettled (id : nat) (r : settlement (list byte))
| GetFormatSettled (id : nat) (r : settlement (option DetectedFormat))
| InitSettled (id : nat) (r : settlement Conversion)
| EngineProgress (id : nat) (v : float)
| ExecuteSettled (id : nat) (r : settlement (option (list byte)))
| RaceResumed (id : nat).

Definition step (e : event) (s : State) : State :=
  match e with
  | CallConvert f fmt cb => convert f fmt cb s
  | CallCancelConversion => cancelConversion s
  | ProbeSettled n o =>
      mkState (activeCancel s) (Registry.settle_probe n o (registry s))
              (calls s) (effects s)
  | SupportResumed id => resume_support id s
  | ArrayBufferSettled id r => resume_arrayBuffer id r s
  | GetFormatSettled id r => resume_getFormat id r s
  | InitSettled id r => resume_init id r s
  | EngineProgress id v => engine_progress id v s
  | ExecuteSettled id r => execute_settled id r s
  | RaceResumed id => resume_race id s
  end.

Definition run (es : list event) (s : State) : State :=
  fold_left (fun s e => step e s) es s.

End Rendering.

(** *** Reading a state *)

Definition stage_of (id : nat) (s : State) : option stage :=
  at_stage <$> calls s !! id.

Definition terminal (st : stage) : bool :=
  match st with
  | Done _ => true
  | _ => false
  end.

(** The calls past the entry check that have not ended. *)
Definition in_flight (s : State) : list nat :=
  List.filter (fun id => match stage_of id s with
                         | Some st => negb (terminal st)
                         | None => false
                         end)
              (seq 0 (length (calls s))).

(** The ratios passed to the progress callback of call [id], in order. *)
Definition relayed (id : nat) (s : State) : list float :=
  omap (fun e => match e with
                 | OnProgress i ratio => if i =? id then Some ratio else None
                 | _ => None
                 end) (effects s).

Definition cancel_requested (id : nat) (s : State) : Prop :=
  exists c, calls s !! id = Some c /\ cancelRequested c = true.

End Service.

(** Notions used to state what holds of the service along every run. *)

Module ServiceSpec.
Import Service.

(** The stages in which [this.activeCancel] can hold the call's closure:
    from [this.activeCancel = cancel] to the [finally] block. *)
Definition armed (st : stage) : bool :=
  match st with
  | AwaitGetFormat | AwaitInit | AwaitRace => true
  | _ => false
  end.

(** The stages after the locals of [convert] were set up. *)
Definition past_entry (st : stage) : bool :=
  match st with
  | AwaitSupport _ | AwaitArrayBuffer => false
  | _ => true
  end.

(** The result call [c] returns from the buffer the engine left. *)
Definition result_of (c : Call) (r : ConversionResult) : Prop :=
  exists spec buf,
    Registry.spec_of (formatId c) = Some spec /\
    race c = Some (ExecuteWon (Fulfilled (Some buf))) /\
    r = {| fileName := Naming.buildOutputName (name (file c)) (Registry.extension spec);
           blob := {| blob_bytes := buf; blob_type := Registry.mimeType spec |};
           remoteUrl := None;
           mimeType := Registry.mimeType spec |}.

Definition call_inv (c : Call) : Prop :=
  (cancelRequested c = true -> past_entry (at_stage c) = true) /\
  (forall r, at_stage c = Done (Returned r) -> result_of c r).

(** What every run of the service maintains. *)
Definition Inv (s : State) : Prop :=
  (forall id, activeCancel s = Some id ->
     exists c, calls s !! id = Some c /\ armed (at_stage c) = true) /\
  Forall call_inv (calls s).

(** What a step may do to one call: cancellation, once requested, stays
    requested; an outcome is final. *)
Definition call_trans (c c' : Call) : Prop :=
  (cancelRequested c = true -> past_entry (at_stage c) = true ->
   cancelRequested c' = true) /\
  (forall o, at_stage c = Done o -> at_stage c' = Done o).





(** How often the engine's [execute] was started, and its [cancel] called,
    for call [id]. *)
Definition executes (id : nat) (s : State) : nat :=
  length (List.filter (fun e => match e with
                                | ConversionExecute i => i =? id
                                | _ => false
                                end) (effects s)).

Definition aborts (id : nat) (s : State) : nat :=
  length (List.filter (fun e => match e with
                                | ConversionCancel i => i =? id
                                | _ => false
                                end) (effects s)).

(** The failure kinds of the specification, as the code throws them. *)
Definition Busy : exn := Error "Another conversion is already in progress.".
Definition EmptyOutput : exn := Error "Mediabunny did not return any audio bytes.".
Definition Cancelled : exn := AbortError.

(** The callers and collaborators of the examples. *)
Definition both_callbacks : ProgressCallbacks := {| onProgress := true; onLog := true |}.
Definition clip : File := {| name := "My Clip (Final)!!.mov" |}.
Definition other_clip : File := {| name := "other.webm" |}.
Definition mp4 : option DetectedFormat :=
  Some {| format_name := Some "MP4"%string; constructor_name := None |}.
Definition valid_plan : Conversion := {| isValid := true; discardedTracks := [] |}.
Definition plain_text : string -> string := fun key => key.

(** A call of [convert] for MP3 brought to the [await] of the race. *)
Definition up_to_execute : list event :=
  [ CallConvert clip "mp3" both_callbacks;
    SupportResumed 0;
    ArrayBufferSettled 0 (Fulfilled [x00; x00; x00; x18]%byte);
    GetFormatSettled 0 (Fulfilled mp4);
    InitSettled 0 (Fulfilled valid_plan) ].

End ServiceSpec.

(* ===================================================================== *)
(** ** Further notions: ranges, the engine protocol, guarded runs *)
(* ===================================================================== *)

Module NamingLaws.
Import JsString NamingSpec.

(** A unit of an output name: a lower-case letter, a digit, a dash or an
    underscore. *)
Definition is_output_unit (c : ascii) : bool :=
  between "a" "z" c || between "0" "9" c || is_char "-" c || is_char "_" c.

Definition starts_with (p : ascii -> bool) (l : list ascii) : bool :=
  match l with
  | c :: _ => p c
  | [] => false
  end.

(** No two units in a row satisfy [p]. *)
Fixpoint no_double (p : ascii -> bool) (l : list ascii) : bool :=
  match l with
  | a :: l' => negb (p a && starts_with p l') && no_double p l'
  | [] => true
  end.

(** [base + "." + extension] *)
Definition with_extension (base extension : string) : string :=
  (base ++ "." ++ extension)%string.

End NamingLaws.

Module JsMathSpec.

(** [0 <= x && x <= 1], both false on NaN. *)
Definition in_unit_interval (x : float) : bool :=
  PrimFloat.leb 0 x && PrimFloat.leb x 1.

End JsMathSpec.

Module ServiceLaws.
Import Service ServiceSpec.

(** How far the engine objects of one call have been driven: its [Input]
    (format detection, disposal) and its [Conversion] (planning, execution,
    abort). *)
Inductive phase :=
| NotOpened
| Detecting
| Planning
| Executing
| Aborting
| Released.

(** The order in which the engine may be driven for call [id]; [None] is a
    step out of order (twice, too early, or after the disposal). *)
Definition advance (id : nat) (e : effect) (ph : phase) : option phase :=
  match e with
  | InputGetFormat i =>
      if i =? id then match ph with NotOpened => Some Detecting | _ => None end
      else Some ph
  | ConversionInit i =>
      if i =? id then match ph with Detecting => Some Planning | _ => None end
      else Some ph
  | ConversionExecute i =>
      if i =? id then match ph with Planning => Some Executing | _ => None end
      else Some ph
  | ConversionCancel i =>
      if i =? id then match ph with Executing => Some Aborting | _ => None end
      else Some ph
  | InputDispose i =>
      if i =? id then
        match ph with
        | Detecting | Planning | Executing | Aborting => Some Released
        | _ => None
        end
      else Some ph
  | _ => Some ph
  end.

(** The call an effect belongs to. *)
Definition about (e : effect) : nat :=
  match e with
  | OnLog i _ | OnProgress i _ | FileArrayBuffer i | InputGetFormat i
  | ConversionInit i | ConversionExecute i | ConversionCancel i
  | InputDispose i => i
  end.

Definition follow (id : nat) (l : list effect) (ph : option phase) : option phase :=
  fold_left (fun ph e => ph ≫= advance id e) l ph.

(** The phase the effects so far have brought call [id] to. *)
Definition engine_phase (id : nat) (s : State) : option phase :=
  follow id (effects s) (Some NotOpened).

(** Phases only move forward. *)
Definition rank (ph : phase) : nat :=
  match ph with
  | NotOpened => 0
  | Detecting => 1
  | Planning => 2
  | Executing => 3
  | Aborting => 4
  | Released => 5
  end.

Definition count (p : effect -> bool) (l : list effect) : nat :=
  length (List.filter p l).

Definition is_execute (id : nat) (e : effect) : bool :=
  match e with
  | ConversionExecute i => i =? id
  | _ => false
  end.

Definition is_abort (id : nat) (e : effect) : bool :=
  match e with
  | ConversionCancel i => i =? id
  | _ => false
  end.

Definition is_dispose (id : nat) (e : effect) : bool :=
  match e with
  | InputDispose i => i =? id
  | _ => false
  end.

(** How often [input.dispose()] was called for call [id]. *)
Definition disposes (id : nat) (s : State) : nat :=
  count (is_dispose id) (effects s).

(** The phase a call's own state stands for. *)
Definition fits (ph : phase) (c : Call) : Prop :=
  match ph with
  | NotOpened => armed (at_stage c) = false
  | Detecting => at_stage c = AwaitGetFormat /\ conversion c = None
  | Planning => at_stage c = AwaitInit /\ conversion c = None
  | Executing => at_stage c = AwaitRace /\ conversion c <> None
  | Aborting => at_stage c = AwaitRace /\ cancelRequested c = true
  | Released => terminal (at_stage c) = true
  end.

(** Every call is where its engine objects are. *)
Definition in_step (s : State) : Prop :=
  forall id,
    match calls s !! id with
    | Some c => exists ph, engine_phase id s = Some ph /\ fits ph c
    | None => engine_phase id s = Some NotOpened
    end.

(** The values [convert] passes to the progress callback: the 0 at the
    start, the 1 at the end, and clamped engine values. *)
Definition progress_value (v : float) : Prop :=
  v = 0%float \/ v = 1%float \/ exists x, v = JsMath.clamp x.

(** A call is entering between its entry check and
    [this.activeCancel = cancel]. *)
Definition entering (st : stage) : bool :=
  match st with
  | AwaitSupport _ | AwaitArrayBuffer => true
  | _ => false
  end.

Definition nobody_entering (s : State) : bool :=
  forallb (fun c => negb (entering (at_stage c))) (calls s).

(** A run in which [convert] is only called while no earlier call is
    entering. *)
Fixpoint guarded (member_text : string -> string) (es : list event) (s : State) : bool :=
  match es with
  | [] => true
  | e :: es' =>
      match e with
      | CallConvert _ _ _ => nobody_entering s
      | _ => true
      end && guarded member_text es' (step member_text e s)
  end.

(** At most one call has not ended, and it holds the marker once armed. *)
Definition single_flight (s : State) : Prop :=
  forall id c,
    calls s !! id = Some c -> terminal (at_stage c) = false ->
    (forall id' c', calls s !! id' = Some c' -> terminal (at_stage c') = false -> id' = id) /\
    (armed (at_stage c) = true -> activeCancel s = Some id).

(** What the locals of a call keep between them, as far as cancellation
    goes: a result is only returned when no cancellation was requested;
    [cancelReject] is defined until [cancel] has run; a cancellation before
    the race has rejected [cancelPromise], and one during the race has
    settled it. *)
Definition cancel_inv (c : Call) : Prop :=
  (forall r, at_stage c = Done (Returned r) -> cancelRequested c = false) /\
  (armed (at_stage c) = true -> Registry.spec_of (formatId c) <> None) /\
  (armed (at_stage c) = true -> cancelRequested c = false -> cancelReject c = true) /\
  (armed (at_stage c) = true -> cancelRequested c = true ->
   at_stage c <> AwaitRace -> cancelPromise_rejected c = true) /\
  (at_stage c = AwaitRace -> cancelRequested c = true -> race c <> None).

(** What a step other than a call of [convert] does to the calls and the
    marker: nothing, or it moves one call that had not ended. *)
Definition acts (s s' : State) : Prop :=
  (calls s' = calls s /\ activeCancel s' = activeCancel s) \/
  exists j c c',
    calls s !! j = Some c /\ terminal (at_stage c) = false /\
    calls s' = <[j := c']> (calls s) /\
    (armed (at_stage c') = true ->
     activeCancel s' = Some j \/
     (armed (at_stage c) = true /\ activeCancel s' = activeCancel s)).

(** What the caller's progress callback has been given for each call: 0
    first, from the moment the file is loaded, and 1 before a result is
    returned. *)
Definition progress_inv (s : State) : Prop :=
  forall id,
    (relayed id s = [] \/ head (relayed id s) = Some 0%float) /\
    (forall c, calls s !! id = Some c -> onProgress (callbacks c) = true ->
       ((armed (at_stage c) = true \/ progress_handler c = true) -> relayed id s <> []) /\
       (forall r, at_stage c = Done (Returned r) -> In 1%float (relayed id s))).

(** A request to cancel while the engine executes, and one after [execute]
    has fulfilled but before the call resumes. *)
Definition cancelled_while_executing : list event :=
  up_to_execute ++ [CallCancelConversion].


(** A conversion while its file is loaded, from there to the execution,
    and from there to its end. *)
Definition loading_the_file : list event :=
  [ CallConvert clip "mp3" both_callbacks; SupportResumed 0 ].

Definition on_to_execute : list event :=
  [ ArrayBufferSettled 0 (Fulfilled [x00; x00; x00; x18]%byte);
    GetFormatSettled 0 (Fulfilled mp4);
    InitSettled 0 (Fulfilled valid_plan) ].

Definition on_to_the_end : list event :=
  [ ExecuteSettled 0 (Fulfilled (Some [x49]%byte)); RaceResumed 0 ].

(** Two conversions one after the other, with a call in between that is
    turned away. *)
Definition one_after_the_other : list event :=
  up_to_execute
  ++ [ CallConvert other_clip "wav" both_callbacks;
       ExecuteSettled 0 (Fulfilled (Some [x49]%byte));
       RaceResumed 0;
       CallConvert other_clip "wav" both_callbacks ].

End ServiceLaws.

(* ===================================================================== *)
(** ** The list of formats with their support *)
(* ===================================================================== *)

Module Listing.

Record AudioOutputOption := {
  id : string;
  label : string;
  description : string;
  extension : string;
  supported : option bool;       (* optional *)
  reason : option string         (* optional *)
}.

(** [Object.entries(AUDIO_FORMAT_SPECS).map(([id, spec]) => ({...}))] *)
Definition AUDIO_OUTPUT_OPTIONS : list AudioOutputOption :=
  map (fun '(id, spec) =>
         {| id := id;
            label := Registry.label spec;
            description := Registry.description spec;
            extension := Registry.extension spec;
            supported := None;
            reason := None |})
      Registry.AUDIO_FORMAT_SPECS.

(** [{ ...option, supported, reason }] *)
Definition with_support (item : AudioOutputOption) (sup : bool)
           (why : option string) : AudioOutputOption :=
  {| id := id item;
     label := label item;
     description := description item;
     extension := extension item;
     supported := Some sup;
     reason := why |}.

(** A call of [getFormatOptionsWithSupport] suspended at
    [await this.isFormatSupported(option.id)]: the options from the current
    one on, the promise awaited, and [options] as filled so far. *)
Record Suspended := {
  remaining : list AudioOutputOption;
  awaited : Registry.promise;
  options : list AudioOutputOption
}.

Inductive progress :=
| Awaiting (l : Suspended)
| Returned (options : list AudioOutputOption)
| Threw.                 (* a property read from an undefined [spec] *)

(** The loop from the top of a turn up to its [await], or to [return]. *)
Definition iterate (rest options : list AudioOutputOption) (r : Registry.t)
  : progress * Registry.t :=
  match rest with
  | [] => (Returned options, r)
  | item :: _ =>
      let '(p, r') := Registry.isFormatSupported r (id item) in
      (Awaiting {| remaining := rest; awaited := p; options := options |}, r')
  end.

Definition getFormatOptionsWithSupport (r : Registry.t) : progress * Registry.t :=
  iterate AUDIO_OUTPUT_OPTIONS [] r.

(** After the [await], once the promise has a value: [options.push(...)],
    and the next turn. *)
Definition resume (l : Suspended) (r : Registry.t) : progress * Registry.t :=
  match remaining l, Registry.value r (awaited l) with
  | item :: rest, Some sup =>
      match sup, Registry.lookup (id item) with
      | true, _ => iterate rest (options l ++ [with_support item true None]) r
      | false, Registry.Undefined => (Threw, r)
      | false, spec =>
          iterate rest
            (options l ++
             [with_support item false
                (Some (Service.nullish (Registry.unsupportedMessage_of spec)
                                       "Not supported by this browser yet."%string))])
            r
      end
  | _, _ => (Awaiting l, r)
  end.

(** What can run next: the suspended call, or something else that uses the
    registry (a call of [isFormatSupported], an answer of the engine). *)
Inductive event :=
| Resume
| Elsewhere (o : Registry.op).

Definition step (e : event) (st : progress * Registry.t) : progress * Registry.t :=
  match e with
  | Resume =>
      match fst st with
      | Awaiting l => resume l (snd st)
      | _ => st
      end
  | Elsewhere o => (fst st, Registry.apply o (snd st))
  end.

Definition run (es : list event) (st : progress * Registry.t) : progress * Registry.t :=
  fold_left (fun st e => step e st) es st.

End Listing.

Module RegistryLaws.
Import Registry.

(** The argument of each call of [canEncodeAudio], in order ([None] is
    [undefined]), and the codecs among them. *)
Definition probed (r : t) : list (option string) := (probes r).*1.

Definition codecs_probed (r : t) : list string := omap (fun codec => codec) (probed r).

(** The ids [isFormatSupported] can memoize a probe for: the formats of the
    catalog that are not always available, and the names every object
    inherits. *)
Definition probing_ids : list string :=
  ["ogg"; "aac"; "flac"]%string ++ Taxonomy.object_prototype_members.

(** What a call of [isFormatSupported(formatId)] made now resolves to, if it
    does already. *)
Definition answer (r : t) (formatId : string) : option bool :=
  value r (fst (isFormatSupported r formatId)).

(** The registry and its probes fit together. *)
Definition reg_inv (r : t) : Prop :=
  NoDup (codecs_probed r) /\
  (forall c, c ∈ codecs_probed r -> c ∈ ["opus"; "aac"; "flac"]%string) /\
  (forall f spec, spec_of f = Some spec -> alwaysAvailable spec = false ->
     supportChecks r !! f = None -> codec spec ∉ codecs_probed r) /\
  (forall f p, supportChecks r !! f = Some p ->
     exists n, p = Probing n /\ lookup f <> Undefined /\ always (lookup f) = false /\
               probed r !! n = Some (codec_of (lookup f))) /\
  (forall n, n < length (probes r) ->
     exists f, supportChecks r !! f = Some (Probing n)) /\
  length (probes r) = size (supportChecks r).

(** An option of the list against its entry of the catalog. *)
Definition listed (r : t) (o : Listing.AudioOutputOption)
           (entry : string * AudioFormatSpec) : Prop :=
  Listing.id o = entry.1 /\
  Listing.label o = label entry.2 /\
  Listing.description o = description entry.2 /\
  Listing.extension o = extension entry.2 /\
  exists b, Listing.supported o = Some b /\
            answer r entry.1 = Some b /\
            (alwaysAvailable entry.2 = true -> b = true) /\
            Listing.reason o = (if b then None else unsupportedMessage entry.2) /\
            (b = false -> is_Some (Listing.reason o)).

Definition awaited_for (r : t) (p : promise) (entry : string * AudioFormatSpec) : Prop :=
  (alwaysAvailable entry.2 = true /\ p = Resolved true) \/
  (alwaysAvailable entry.2 = false /\ supportChecks r !! entry.1 = Some p).

Definition to_option (entry : string * AudioFormatSpec) : Listing.AudioOutputOption :=
  {| Listing.id := entry.1;
     Listing.label := label entry.2;
     Listing.description := description entry.2;
     Listing.extension := extension entry.2;
     Listing.supported := None;
     Listing.reason := None |}.

Definition listing_inv (st : Listing.progress * t) : Prop :=
  reg_inv st.2 /\
  match st.1 with
  | Listing.Threw => False
  | Listing.Returned opts => Forall2 (listed st.2) opts AUDIO_FORMAT_SPECS
  | Listing.Awaiting l =>
      exists before entry after,
        AUDIO_FORMAT_SPECS = before ++ entry :: after /\
        Listing.remaining l = map to_option (entry :: after) /\
        Forall2 (listed st.2) (Listing.options l) before /\
        awaited_for st.2 (Listing.awaited l) entry
  end.

(** The events in which the engine answers as [answers] says, and the
    suspended call resumes. *)
Definition engine_only (answers : nat -> probe_outcome) (e : Listing.event) : Prop :=
  e = Listing.Resume \/ exists n, e = Listing.Elsewhere (Answer n (answers n)).

End RegistryLaws.

(* ===================================================================== *)
(** ** The converter component, the caller of the service
       ([VideoToAudioConverterComponent]) *)
(* ===================================================================== *)

Module Component.
Import JsString JsRegExp.

(** A [File] as the component reads it: its name and its type. *)
Record PickedFile := {
  file : Service.File;
  type : string
}.

(** A [SafeUrl]: the result's remote URL, or a blob URL marked as trusted.
    Blob URLs are numbered in the order [URL.createObjectURL] makes them. *)
Inductive SafeUrl :=
| RemoteUrl (url : string)
| TrustedBlobUrl (blobUrl : nat).

(** The signals and the private field of the component. *)
Record t := mk {
  formatOptions : list Listing.AudioOutputOption;
  selectedFormatId : string;
  optionsLoaded : bool;
  selectedFile : option PickedFile;
  isConverting : bool;
  progress : float;
  status : string;
  errorMessage : option string;
  downloadUrl : option SafeUrl;
  outputFileName : option string;
  logs : list string;
  isDragOver : bool;
  objectUrl : option nat
}.

Definition initial : t :=
  {| formatOptions := [];
     selectedFormatId := "mp3";
     optionsLoaded := false;
     selectedFile := None;
     isConverting := false;
     progress := 0%float;
     status := "Drop a video to start converting locally.";
     errorMessage := None;
     downloadUrl := None;
     outputFileName := None;
     logs := [];
     isDragOver := false;
     objectUrl := None |}.

(** *** Signal updates *)

Definition set_formatOptions v (c : t) : t :=
  mk v (selectedFormatId c) (optionsLoaded c) (selectedFile c) (isConverting c)
     (progress c) (status c) (errorMessage c) (downloadUrl c) (outputFileName c)
     (logs c) (isDragOver c) (objectUrl c).
Definition set_selectedFormatId v (c : t) : t :=
  mk (formatOptions c) v (optionsLoaded c) (selectedFile c) (isConverting c)
     (progress c) (status c) (errorMessage c) (downloadUrl c) (outputFileName c)
     (logs c) (isDragOver c) (objectUrl c).
Definition set_optionsLoaded v (c : t) : t :=
  mk (formatOptions c) (selectedFormatId c) v (selectedFile c) (isConverting c)
     (progress c) (status c) (errorMessage c) (downloadUrl c) (outputFileName c)
     (logs c) (isDragOver c) (objectUrl c).
Definition set_selectedFile v (c : t) : t :=
  mk (formatOptions c) (selectedFormatId c) (optionsLoaded c) v (isConverting c)
     (progress c) (status c) (errorMessage c) (downloadUrl c) (outputFileName c)
     (logs c) (isDragOver c) (objectUrl c).
Definition set_isConverting v (c : t) : t :=
  mk (formatOptions c) (selectedFormatId c) (optionsLoaded c) (selectedFile c) v
     (progress c) (status c) (errorMessage c) (downloadUrl c) (outputFileName c)
     (logs c) (isDragOver c) (objectUrl c).
Definition set_progress v (c : t) : t :=
  mk (formatOptions c) (selectedFormatId c) (optionsLoaded c) (selectedFile c)
     (isConverting c) v (status c) (errorMessage c) (downloadUrl c)
     (outputFileName c) (logs c) (isDragOver c) (objectUrl c).
Definition set_status v (c : t) : t :=
  mk (formatOptions c) (selectedFormatId c) (optionsLoaded c) (selectedFile c)
     (isConverting c) (progress c) v (errorMessage c) (downloadUrl c)
     (outputFileName c) (logs c) (isDragOver c) (objectUrl c).
Definition set_errorMessage v (c : t) : t :=
  mk (formatOptions c) (selectedFormatId c) (optionsLoaded c) (selectedFile c)
     (isConverting c) (progress c) (status c) v (downloadUrl c)
     (outputFileName c) (logs c) (isDragOver c) (objectUrl c).
Definition set_downloadUrl v (c : t) : t :=
  mk (formatOptions c) (selectedFormatId c) (optionsLoaded c) (selectedFile c)
     (isConverting c) (progress c) (status c) (errorMessage c) v
     (outputFileName c) (logs c) (isDragOver c) (objectUrl c).
Definition set_outputFileName v (c : t) : t :=
  mk (formatOptions c) (selectedFormatId c) (optionsLoaded c) (selectedFile c)
     (isConverting c) (progress c) (status c) (errorMessage c) (downloadUrl c)
     v (logs c) (isDragOver c) (objectUrl c).
Definition set_logs v (c : t) : t :=
  mk (formatOptions c) (selectedFormatId c) (optionsLoaded c) (selectedFile c)
     (isConverting c) (progress c) (status c) (errorMessage c) (downloadUrl c)
     (outputFileName c) v (isDragOver c) (objectUrl c).
Definition set_isDragOver v (c : t) : t :=
  mk (formatOptions c) (selectedFormatId c) (optionsLoaded c) (selectedFile c)
     (isConverting c) (progress c) (status c) (errorMessage c) (downloadUrl c)
     (outputFileName c) (logs c) v (objectUrl c).
Definition set_objectUrl v (c : t) : t :=
  mk (formatOptions c) (selectedFormatId c) (optionsLoaded c) (selectedFile c)
     (isConverting c) (progress c) (status c) (errorMessage c) (downloadUrl c)
     (outputFileName c) (logs c) (isDragOver c) v.

(** *** Computed signals *)

(** [formatOptions().find((option) => option.id === selectedFormatId())
    ?? formatOptions()[0]] *)
Definition currentFormat (c : t) : option Listing.AudioOutputOption :=
  match List.find (fun o => String.eqb (Listing.id o) (selectedFormatId c))
                  (formatOptions c) with
  | Some o => Some o
  | None => head (formatOptions c)
  end.

(** A value of an optional boolean property is truthy when it is [true]. *)
Definition truthy (b : option bool) : bool :=
  match b with
  | Some true => true
  | _ => false
  end.

(** [supported === false] *)
Definition is_false (b : option bool) : bool :=
  match b with
  | Some false => true
  | _ => false
  end.

Definition unsupportedNotice (c : t) : option string :=
  match currentFormat c with
  | None => None
  | Some format =>
      if truthy (Listing.supported format) then None
      else Some (Service.nullish (Listing.reason format)
                   "This format is not supported in your browser yet."%string)
  end.

(** [this.currentFormat()?.label ?? 'audio'] *)
Definition formatLabel (c : t) : string :=
  Service.nullish (Listing.label <$> currentFormat c) "audio"%string.

(** *** [isSupportedFile] *)

Definition upper_unit (c : ascii) : ascii :=
  if between "a" "z" c then ascii_of_nat (code c - 32) else c.

(** One unit of the pattern under the [i] flag: the unit in either case. *)
Definition either_case (c : ascii) : term :=
  One (CharClass false [Naming.single c; Naming.single (upper_unit c)]).

Definition extensions : list string :=
  [ "mp4"; "m4v"; "mkv"; "mov"; "webm"; "avi"; "flv"; "wmv"; "mp3"; "wav";
    "m4a"; "aac"; "flac"; "ogg" ]%string.

(** [/\.(mp4|m4v|mkv|mov|webm|avi|flv|wmv|mp3|wav|m4a|aac|flac|ogg)$/i],
    with the group written out: one alternative per extension. *)
Definition re_media : pattern :=
  map (fun e => One (CharClass false [Naming.single "."%char])
                :: map either_case (chars e) ++ [Eol])
      extensions.

(** [re.test(s)] for a pattern without the [g] flag: is there a match at
    some index. *)
Fixpoint test_from (p : pattern) (pos : nat) (l : list ascii) : bool :=
  match match_at p pos l with
  | Some _ => true
  | None => match l with
            | [] => false
            | _ :: l' => test_from p (S pos) l'
            end
  end.

Definition test (p : pattern) (s : string) : bool := test_from p 0 (chars s).

Definition startsWith (s prefix : string) : bool := String.prefix prefix s.

Definition isSupportedFile (f : PickedFile) : bool :=
  let type := str (toLowerCase (chars (type f))) in
  startsWith type "video/" || startsWith type "audio/"
  || test re_media (Service.name (file f)).

(** [s.includes(t)] *)
Fixpoint includes_from (t l : list ascii) : bool :=
  String.prefix (str t) (str l)
  || match l with
     | [] => false
     | _ :: l' => includes_from t l'
     end.

Definition includes (s t : string) : bool := includes_from (chars t) (chars s).

(** *** The component with the service it calls *)

(** [URL.createObjectURL] and [URL.revokeObjectURL] *)
Inductive url_call :=
| CreateObjectURL (blob : Service.Blob) (blobUrl : nat)
| RevokeObjectURL (blobUrl : nat).

Definition created (l : list url_call) : nat :=
  length (List.filter (fun u => match u with CreateObjectURL _ _ => true | _ => false end) l).

(** A call of [convertSelected] suspended at [await
    this.conversionService.convert(...)]: the call of [convert] it awaits
    and its [formatLabel], which the callbacks have captured too. *)
Record Invocation := {
  call : nat;
  label : string
}.

Record World := mkWorld {
  ui : t;
  service : Service.State;
  refreshing : option Listing.progress;   (* refreshFormatOptions at its await *)
  invocations : list Invocation;          (* every convertSelected that called convert *)
  suspended : list nat;                   (* those still at their await *)
  urls : list url_call
}.

Definition start : World :=
  {| ui := initial; service := Service.init; refreshing := None;
     invocations := []; suspended := []; urls := [] |}.

Definition set_ui (f : t -> t) (w : World) : World :=
  mkWorld (f (ui w)) (service w) (refreshing w) (invocations w) (suspended w) (urls w).

Definition set_registry (r : Registry.t) (s : Service.State) : Service.State :=
  Service.mkState (Service.activeCancel s) r (Service.calls s) (Service.effects s).

(** *** Private methods *)

Definition revokeObjectUrl (w : World) : World :=
  match objectUrl (ui w) with
  | Some u =>
      mkWorld (set_objectUrl None (ui w)) (service w) (refreshing w)
              (invocations w) (suspended w) (urls w ++ [RevokeObjectURL u])
  | None => w
  end.

Definition resetConversionState (w : World) : World :=
  set_ui (fun c => set_errorMessage None
                     (set_outputFileName None
                       (set_downloadUrl None
                         (set_logs [] (set_progress 0%float c)))))
         (revokeObjectUrl w).

(** [if (result.remoteUrl)]: a string is truthy unless it is empty. *)
Definition setDownloadResult (result : Service.ConversionResult) (w : World) : World :=
  let w1 := set_ui (set_outputFileName (Some (Service.fileName result)))
                   (revokeObjectUrl w) in
  match Service.remoteUrl result with
  | Some (String c u) => set_ui (set_downloadUrl (Some (RemoteUrl (String c u)))) w1
  | _ =>
      let blobUrl := created (urls w1) in
      mkWorld (set_downloadUrl (Some (TrustedBlobUrl blobUrl))
                 (set_objectUrl (Some blobUrl) (ui w1)))
              (service w1) (refreshing w1) (invocations w1) (suspended w1)
              (urls w1 ++ [CreateObjectURL (Service.blob result) blobUrl])
  end.

(** [[...current, message].slice(-40)] *)
Definition push_log (current : list string) (message : string) : list string :=
  let next := current ++ [message] in
  drop (length next - 40) next.

Section Runtime.

(** Left to the JavaScript engine: the text of an inherited member (see
    [Taxonomy]), [Math.round], the text of a number in a template, and, of
    what the file or the engine throws, whether it is a [DOMException] named
    [AbortError] and its message if it is an [Error]. *)
Variable member_text : string -> string.
Variable round : float -> float.
Variable number_text : float -> string.
Variable foreign_abort : string -> bool.
Variable foreign_message : string -> option string.

(** The callbacks [convertSelected] passes to [convert]. *)
Definition onProgress (formatLabel : string) (ratio : float) (c : t) : t :=
  let percent := round (PrimFloat.mul (JsMath.clamp ratio) 100) in
  let c1 := set_progress percent c in
  if PrimFloat.leb 100 percent
  then set_status "Finalizing the audio file..." c1
  else set_status ("Converting to " ++ formatLabel ++ " — "
                   ++ number_text percent ++ "%")%string c1.

Definition onLog (message : string) (c : t) : t :=
  set_logs (push_log (logs c) message) c.

Definition label_of (id : nat) (w : World) : string :=
  match List.find (fun i => call i =? id) (invocations w) with
  | Some i => label i
  | None => EmptyString
  end.

(** What the service did to its callbacks reaches the component. *)
Definition callback (w : World) (e : Service.effect) (c : t) : t :=
  match e with
  | Service.OnProgress id ratio => onProgress (label_of id w) ratio c
  | Service.OnLog _ message => onLog message c
  | _ => c
  end.

(** The service runs a segment; the callbacks it calls meanwhile run too. *)
Definition drive (e : Service.event) (w : World) : World :=
  let s' := Service.step member_text e (service w) in
  let called := drop (length (Service.effects (service w))) (Service.effects s') in
  mkWorld (fold_left (fun c x => callback w x c) called (ui w))
          s' (refreshing w) (invocations w) (suspended w) (urls w).

(** *** Public methods and event handlers *)

Definition cancelConversion (w : World) : World :=
  if negb (isConverting (ui w)) then w
  else set_ui (set_status "Cancelling conversion...")
              (drive Service.CallCancelConversion w).

Definition handleIncomingFile (f : PickedFile) (w : World) : World :=
  if negb (isSupportedFile f)
  then set_ui (set_errorMessage (Some "Please choose a video or audio file."%string)) w
  else
    let w1 := if isConverting (ui w) then cancelConversion w else w in
    let w2 := resetConversionState w1 in
    let w3 := set_ui (set_selectedFile (Some f)) w2 in
    set_ui (fun c => set_errorMessage None
              (set_status ("Ready to convert " ++ Service.dquote
                           ++ Service.name (file f) ++ Service.dquote
                           ++ " to " ++ formatLabel c ++ ".")%string c))
           w3.

Definition onFileSelected (f : option PickedFile) (w : World) : World :=
  match f with
  | Some f => handleIncomingFile f w
  | None => w
  end.

Definition onDrop (f : option PickedFile) (w : World) : World :=
  let w1 := set_ui (set_isDragOver false) w in
  match f with
  | Some f => handleIncomingFile f w1
  | None => w1
  end.

Definition clearSelection (w : World) : World :=
  if isConverting (ui w) then w
  else resetConversionState
         (set_ui (fun c => set_status "Drop a new file to start another conversion."
                             (set_selectedFile None c)) w).

(** [onFormatChange]: [select] is [event.target], [value] its value. Reading
    [this.currentFormat().label] throws when there is no current format. *)
Definition onFormatChange (select : option string) (w : World) : World :=
  match select with
  | None => w
  | Some value =>
      if String.eqb (selectedFormatId (ui w)) value then w
      else
        let w1 := resetConversionState (set_ui (set_selectedFormatId value) w) in
        let w2 :=
          match selectedFile (ui w1) with
          | Some f =>
              match currentFormat (ui w1) with
              | Some format =>
                  Some (set_ui (set_status
                          ("Ready to convert " ++ Service.dquote
                           ++ Service.name (file f) ++ Service.dquote
                           ++ " to " ++ Listing.label format ++ ".")%string) w1)
              | None => None
              end
          | None => Some w1
          end in
        match w2 with
        | None => w1
        | Some w2 =>
            match currentFormat (ui w2) with
            | Some format =>
                if is_false (Listing.supported format)
                then set_ui (set_errorMessage
                               (Some (Service.nullish (Listing.reason format)
                                  "Selected format is not available in this browser."%string)))
                            w2
                else w2
            | None => w2
            end
        end
  end.

(** [ngOnInit], up to the [await] in [refreshFormatOptions]. Angular calls it
    once; of two calls only the later one's list would be followed here. *)
Definition ngOnInit (w : World) : World :=
  let '(p, r) := Listing.getFormatOptionsWithSupport (Service.registry (service w)) in
  mkWorld (ui w) (set_registry r (service w)) (Some p)
          (invocations w) (suspended w) (urls w).

(** The suspended call of [getFormatOptionsWithSupport] resumes. *)
Definition listing_resumes (w : World) : World :=
  match refreshing w with
  | Some (Listing.Awaiting l) =>
      let '(p, r) := Listing.resume l (Service.registry (service w)) in
      mkWorld (ui w) (set_registry r (service w)) (Some p)
              (invocations w) (suspended w) (urls w)
  | _ => w
  end.

(** [refreshFormatOptions] after its [await]. *)
Definition refreshFormatOptions_resumes (w : World) : World :=
  match refreshing w with
  | Some (Listing.Returned options) =>
      let w0 := mkWorld (ui w) (service w) None (invocations w) (suspended w) (urls w) in
      let w1 := set_ui (fun c => set_optionsLoaded true (set_formatOptions options c)) w0 in
      let hasSupportedSelection :=
        existsb (fun o => String.eqb (Listing.id o) (selectedFormatId (ui w1))
                          && truthy (Listing.supported o)) options in
      if hasSupportedSelection then w1
      else
        match List.find (fun o => truthy (Listing.supported o)) options with
        | Some fallback =>
            let w2 := set_ui (set_selectedFormatId (Listing.id fallback)) w1 in
            match selectedFile (ui w2) with
            | Some f =>
                set_ui (set_status
                          ("Ready to convert " ++ Service.dquote
                           ++ Service.name (file f) ++ Service.dquote
                           ++ " to " ++ Listing.label fallback ++ ".")%string) w2
            | None => w2
            end
        | None =>
            set_ui (fun c =>
                      set_status "Try a different browser—no local audio encoders available."
                        (set_errorMessage
                           (Some "No compatible audio encoders were detected in this browser."%string)
                           c))
                   w1
        end
  | Some Listing.Threw =>
      mkWorld (ui w) (service w) None (invocations w) (suspended w) (urls w)
  | _ => w
  end.

(** [convertSelected], up to its [await]. *)
Definition convertSelected (w : World) : World :=
  if isConverting (ui w) then w
  else if negb (optionsLoaded (ui w))
  then set_ui (set_errorMessage
                 (Some "Preparing available output formats. Try again in a second."%string)) w
  else
    match selectedFile (ui w) with
    | None =>
        set_ui (set_errorMessage
                  (Some "Please choose a video file before starting the conversion."%string)) w
    | Some f =>
        match currentFormat (ui w) with
        | Some selectedFormat =>
            if is_false (Listing.supported selectedFormat)
            then set_ui (set_errorMessage
                           (Some (Service.nullish (Listing.reason selectedFormat)
                                    "This format is not available in this browser."%string))) w
            else
              let formatId := selectedFormatId (ui w) in
              let formatLabel := Listing.label selectedFormat in
              let w1 :=
                set_ui (fun c =>
                          set_logs []
                            (set_status ("Preparing to convert to " ++ formatLabel ++ "...")%string
                              (set_progress 0%float
                                (set_errorMessage None (set_isConverting true c))))) w in
              let id := length (Service.calls (service w1)) in
              let w2 :=
                mkWorld (ui w1) (service w1) (refreshing w1)
                        (invocations w1 ++ [{| call := id; label := formatLabel |}])
                        (suspended w1 ++ [id]) (urls w1) in
              drive (Service.CallConvert (file f) formatId
                       {| Service.onProgress := true; Service.onLog := true |}) w2
        | None =>
            set_ui (set_errorMessage
                      (Some "This format is not available in this browser."%string)) w
        end
    end.

(** The [catch] block, for what [convert] threw. *)
Definition is_abort (e : Service.exn) : bool :=
  match e with
  | Service.DOMException _ name => String.eqb name "AbortError"
  | Service.Foreign what => foreign_abort what
  | Service.Error _ | Service.TypeError _ => false
  end.

Definition message_of (e : Service.exn) : string :=
  match e with
  | Service.Error message | Service.TypeError message => message
  | Service.DOMException message _ => message
  | Service.Foreign what =>
      Service.nullish (foreign_message what) "Unexpected error during conversion."%string
  end.

Definition shown_message (e : Service.exn) : string :=
  let message := message_of e in
  if includes (str (toLowerCase (chars message))) "unsupported or unrecognizable format"
  then "We could not detect any supported audio/video streams in this file. Make sure you selected the actual media file and that the container is MP4, MOV, WebM, MKV, WAV, OGG, FLAC, MP3, or ADTS."%string
  else message.

(** [convertSelected] after its [await], once call [id] has ended. *)
Definition convertSelected_resumes (id : nat) (w : World) : World :=
  if negb (existsb (Nat.eqb id) (suspended w)) then w
  else
    match Service.stage_of id (service w) with
    | Some (Service.Done o) =>
        let w0 := mkWorld (ui w) (service w) (refreshing w) (invocations w)
                          (List.filter (fun i => negb (i =? id)) (suspended w)) (urls w) in
        let w1 :=
          match o with
          | Service.Returned result =>
              setDownloadResult result
                (set_ui (fun c => set_progress 100%float
                           (set_status (label_of id w ++ " ready. Time to download!")%string c))
                        w0)
          | Service.Threw error =>
              if is_abort error
              then set_ui (set_status "Conversion cancelled.") w0
              else set_ui (fun c => set_status "Conversion failed."
                                      (set_errorMessage (Some (shown_message error)) c)) w0
          end in
        set_ui (set_isConverting false) w1
    | _ => w
    end.

Definition ngOnDestroy (w : World) : World := revokeObjectUrl w.

(** *** What can happen *)

(** What happens behind the service: the engine and the file answer, and
    suspended calls of [convert] resume. *)
Inductive behind :=
| ProbeSettled (n : nat) (o : Registry.probe_outcome)
| SupportResumed (id : nat)
| ArrayBufferSettled (id : nat) (r : Service.settlement (list byte))
| GetFormatSettled (id : nat) (r : Service.settlement (option Service.DetectedFormat))
| InitSettled (id : nat) (r : Service.settlement Service.Conversion)
| EngineProgress (id : nat) (v : float)
| ExecuteSettled (id : nat) (r : Service.settlement (option (list byte)))
| RaceResumed (id : nat).

Definition service_event (b : behind) : Service.event :=
  match b with
  | ProbeSettled n o => Service.ProbeSettled n o
  | SupportResumed id => Service.SupportResumed id
  | ArrayBufferSettled id r => Service.ArrayBufferSettled id r
  | GetFormatSettled id r => Service.GetFormatSettled id r
  | InitSettled id r => Service.InitSettled id r
  | EngineProgress id v => Service.EngineProgress id v
  | ExecuteSettled id r => Service.ExecuteSettled id r
  | RaceResumed id => Service.RaceResumed id
  end.

Inductive event :=
| NgOnInit
| NgOnDestroy
| OnFormatChange (select : option string)
| OnFileSelected (f : option PickedFile)
| OnDrop (f : option PickedFile)
| OnDragOver
| OnDragLeave
| ClearSelection
| ConvertSelected
| CancelConversion
| ListingResumes
| RefreshFormatOptionsResumes
| ConvertSelectedResumes (id : nat)
| Behind (b : behind).

Definition step (e : event) (w : World) : World :=
  match e with
  | NgOnInit => ngOnInit w
  | NgOnDestroy => ngOnDestroy w
  | OnFormatChange select => onFormatChange select w
  | OnFileSelected f => onFileSelected f w
  | OnDrop f => onDrop f w
  | OnDragOver => set_ui (set_isDragOver true) w
  | OnDragLeave => set_ui (set_isDragOver false) w
  | ClearSelection => clearSelection w
  | ConvertSelected => convertSelected w
  | CancelConversion => cancelConversion w
  | ListingResumes => listing_resumes w
  | RefreshFormatOptionsResumes => refreshFormatOptions_resumes w
  | ConvertSelectedResumes id => convertSelected_resumes id w
  | Behind b => drive (service_event b) w
  end.

Definition run (es : list event) (w : World) : World :=
  fold_left (fun w e => step e w) es w.

End Runtime.

End Component.

Module ComponentLaws.
Import Component.

(** Which files the component takes, without a regular expression: the
    type, in lower case, begins with "video/" or "audio/", or the name, in
    lower case, ends with a dot and one of the extensions. *)
Definition ends_with (l suffix : list ascii) : bool :=
  bool_decide (drop (length l - length suffix) l = suffix).

Definition media_type (type : string) : bool :=
  let type := JsString.str (JsString.toLowerCase (JsString.chars type)) in
  startsWith type "video/" || startsWith type "audio/".

Definition media_name (name : string) : bool :=
  existsb (fun e => ends_with (JsString.toLowerCase (JsString.chars name))
                              ("."%char :: JsString.chars e))
          extensions.

Definition matches_extension (l : list ascii) (e : string) : bool :=
  bool_decide (map JsString.lower_unit l = "."%char :: JsString.chars e).

(** Every code unit. *)
Definition all_units : list ascii := map ascii_of_nat (seq 0 256).

(** The class of a unit of the pattern, under the [i] flag. *)
Definition unit_class (c : ascii) : JsRegExp.char_class :=
  JsRegExp.CharClass false [Naming.single c; Naming.single (upper_unit c)].

(** The units whose class holds exactly the units that are [c] in lower
    case. *)
Definition plain_unit (c : ascii) : bool :=
  forallb (fun x => Bool.eqb (JsRegExp.in_class (unit_class c) x)
                             (Ascii.eqb (JsString.lower_unit x) c))
          all_units.

(** The blob URLs made and not yet revoked. *)
Definition live (l : list url_call) : list nat :=
  fold_left (fun acc u =>
               match u with
               | CreateObjectURL _ n => acc ++ [n]
               | RevokeObjectURL n => List.filter (fun m => negb (m =? n)) acc
               end) l [].

Definition held (c : t) : list nat :=
  match objectUrl c with
  | Some u => [u]
  | None => []
  end.

Definition url_inv (w : World) : Prop :=
  live (urls w) = held (ui w) /\
  Forall (fun u => u < created (urls w)) (live (urls w)).

(** While [isConverting] is set one call of [convertSelected] is suspended,
    and every other call of [convert] has ended; otherwise all have. *)
Definition flight_inv (w : World) : Prop :=
  ServiceSpec.Inv (service w) /\
  ServiceLaws.single_flight (service w) /\
  (isConverting (ui w) = false ->
   suspended w = [] /\
   forall j c, Service.calls (service w) !! j = Some c ->
               Service.terminal (Service.at_stage c) = true) /\
  (isConverting (ui w) = true ->
   exists id, suspended w = [id] /\ id < length (Service.calls (service w)) /\
     forall j c, Service.calls (service w) !! j = Some c -> j <> id ->
                 Service.terminal (Service.at_stage c) = true).

(** The list of formats the component holds is the catalog's, with the
    support the registry answers; a call of [convert] that awaits the
    support of a format of the catalog awaits a promise that has the value
    [true]. *)
Definition support_inv (w : World) : Prop :=
  RegistryLaws.reg_inv (Service.registry (service w)) /\
  match refreshing w with
  | Some p => RegistryLaws.listing_inv (p, Service.registry (service w))
  | None => True
  end /\
  (optionsLoaded (ui w) = true ->
   Forall2 (RegistryLaws.listed (Service.registry (service w)))
           (formatOptions (ui w)) Registry.AUDIO_FORMAT_SPECS) /\
  (forall id c p spec, Service.calls (service w) !! id = Some c ->
     Service.at_stage c = Service.AwaitSupport p ->
     Registry.spec_of (Service.formatId c) = Some spec ->
     Registry.value (Service.registry (service w)) p = Some true).

(** From [w] to [w'] the registry was only asked and answered, no call was
    brought to await the support of its format, and the list of formats is
    the same. *)
Definition support_later (w w' : World) : Prop :=
  (exists ops, Service.registry (service w')
               = Registry.run ops (Service.registry (service w))) /\
  refreshing w' = refreshing w /\
  optionsLoaded (ui w') = optionsLoaded (ui w) /\
  formatOptions (ui w') = formatOptions (ui w) /\
  (forall id c p, Service.calls (service w') !! id = Some c ->
     Service.at_stage c = Service.AwaitSupport p ->
     Service.calls (service w) !! id = Some c).

(** The fields the callbacks of [convert] leave alone, and the bound they
    keep on [logs]. *)
Definition same_but_display (c c' : t) : Prop :=
  formatOptions c' = formatOptions c /\
  selectedFormatId c' = selectedFormatId c /\
  optionsLoaded c' = optionsLoaded c /\
  selectedFile c' = selectedFile c /\
  isConverting c' = isConverting c /\
  objectUrl c' = objectUrl c /\
  (length (logs c) <= 40 -> length (logs c') <= 40).

(** Nothing changed that [flight_inv] reads. *)
Definition same_flight (w w' : World) : Prop :=
  Service.calls (service w') = Service.calls (service w) /\
  Service.activeCancel (service w') = Service.activeCancel (service w) /\
  suspended w' = suspended w /\
  isConverting (ui w') = isConverting (ui w).

(** The log is bounded and the blob URLs are accounted for. *)
Definition tidy (w : World) : Prop :=
  length (logs (ui w)) <= 40 /\ url_inv w.

(** A session: the formats are listed, a file is dropped and converted. *)
Definition movie : PickedFile :=
  {| file := ServiceSpec.clip; type := "video/quicktime" |}.

Definition loading : list event :=
  [ NgOnInit; ListingResumes; ListingResumes;
    Behind (ProbeSettled 0 (Registry.ProbeAnswered true));
    ListingResumes;
    Behind (ProbeSettled 1 (Registry.ProbeAnswered false));
    ListingResumes;
    Behind (ProbeSettled 2 Registry.ProbeThrew);
    ListingResumes ].

Definition opening : list event :=
  loading ++ [ RefreshFormatOptionsResumes; OnDrop (Some movie); ConvertSelected ].

(** The same, with the select element set to a name that is no format's. *)
Definition opening_by_name : list event :=
  loading ++ [ RefreshFormatOptionsResumes; OnDrop (Some movie);
               OnFormatChange (Some "toString"%string); ConvertSelected ].

Definition converting : list event :=
  opening ++
  [ Behind (SupportResumed 0);
    Behind (ArrayBufferSettled 0 (Service.Fulfilled [x00; x00; x00; x18]%byte));
    Behind (GetFormatSettled 0 (Service.Fulfilled ServiceSpec.mp4));
    Behind (InitSettled 0 (Service.Fulfilled ServiceSpec.valid_plan));
    Behind (EngineProgress 0 0.5%float);
    Behind (ExecuteSettled 0 (Service.Fulfilled (Some [x49; x44; x33]%byte)));
    Behind (RaceResumed 0) ].

Definition session : list event := converting ++ [ ConvertSelectedResumes 0 ].

End ComponentLaws.


(* ===================================================================== *)
(** ** Facts about the regular-expression fragment *)
(* ===================================================================== *)

Section RegExpFacts.
Import JsString JsRegExp.

Lemma run_length_le p l : run_length p l <= length l.
Proof. induction l as [|c l IH]; simpl; [lia|]. destruct (p c); simpl; lia. Qed.

Lemma run_length_all p l : forallb p l = true -> run_length p l = length l.
Proof.
  induction l as [|c l IH]; simpl; [done|].
  intros [-> Hl]%andb_prop. by rewrite IH.
Qed.

Lemma run_length_short p l : forallb p l = false -> run_length p l < length l.
Proof.
  induction l as [|c l IH]; simpl; [done|].
  destruct (p c); simpl; [|lia]. intros H. apply IH in H. lia.
Qed.

Lemma give_back_below cont n k : k < n -> give_back cont n k = None.
Proof. intros H. destruct k; simpl; by rewrite (proj2 (Nat.ltb_lt _ _) H). Qed.

Lemma give_back_none cont n k :
  (forall i, i <= k -> cont i = None) -> give_back cont n k = None.
Proof.
  induction k as [|k IH]; intros H; simpl.
  - destruct (0 <? n); [done|]. by rewrite H.
  - destruct (S k <? n); [done|]. rewrite H by lia. apply IH. intros; apply H; lia.
Qed.

Lemma give_back_first cont n k len :
  n <= k -> cont k = Some len -> give_back cont n k = Some (k + len).
Proof.
  intros Hn Hk.
  assert ((k <? n) = false) as Hlt by (apply Nat.ltb_ge; lia).
  destruct k; simpl; rewrite Hlt; rewrite Hk; done.
Qed.

(** [/k{n,}/] alone matches the whole run, when it is long enough. *)
Lemma match_at_least n k pos l :
  match_seq [AtLeast n k] pos l =
    if n <=? run_length (in_class k) l then Some (run_length (in_class k) l) else None.
Proof.
  simpl. destruct (n <=? _) eqn:E.
  - apply Nat.leb_le in E. rewrite (give_back_first _ _ _ 0) by done. f_equal; lia.
  - apply Nat.leb_gt in E. by apply give_back_below.
Qed.

(** [/k{n,}$/] matches when everything up to the end is in the class. *)
Lemma match_at_least_eol n k pos l :
  match_seq [AtLeast n k; Eol] pos l =
    if (n <=? length l) && forallb (in_class k) l then Some (length l) else None.
Proof.
  simpl. destruct (forallb (in_class k) l) eqn:A.
  - rewrite (run_length_all _ _ A). destruct (n <=? length l) eqn:E; simpl.
    + apply Nat.leb_le in E. rewrite (give_back_first _ _ _ 0); [f_equal; lia|done|].
      by rewrite drop_all.
    + apply Nat.leb_gt in E. by apply give_back_below.
  - rewrite andb_false_r. apply run_length_short in A. apply give_back_none.
    intros i Hi. destruct (drop i l) eqn:D; [|done].
    apply (f_equal length) in D. rewrite length_drop in D. simpl in D. lia.
Qed.

(** While skipping, the subject is passed over without looking at it. *)
Lemma replaceAll_from_skip p by_ skip : forall pos l,
  skip <= length l ->
  replaceAll_from p by_ pos skip l = replaceAll_from p by_ (pos + skip) 0 (drop skip l).
Proof.
  induction skip as [|k IH]; intros pos l H.
  - by rewrite Nat.add_0_r.
  - destruct l as [|c l]; simpl in H; [lia|].
    simpl. rewrite IH by lia. f_equal; lia.
Qed.

End RegExpFacts.

(* ===================================================================== *)
(** ** The stages of [sanitizeBaseName], one by one *)
(* ===================================================================== *)

Section NamingStages.
Import JsString JsRegExp Naming NamingSpec.

Lemma code_inj c d : code c = code d -> c = d.
Proof.
  unfold code. intros H.
  rewrite <- (ascii_nat_embedding c), <- (ascii_nat_embedding d). by rewrite H.
Qed.

(** A range [x-x] holds the single unit [x]. *)
Lemma between_single x c : between x x c = is_char x c.
Proof.
  unfold between, is_char. destruct (Ascii.eqb_spec c x) as [->|Hne].
  - by rewrite Nat.leb_refl.
  - destruct (code x <=? code c) eqn:A; [|done].
    destruct (code c <=? code x) eqn:B; [|done].
    apply Nat.leb_le in A, B. destruct Hne. apply code_inj. lia.
Qed.

Lemma in_class_underscore c : in_class underscore c = is_char "_" c.
Proof.
  unfold in_class, underscore, single. simpl.
  rewrite between_single. by rewrite orb_false_r.
Qed.

Lemma in_class_outside_word c : in_class outside_word c = is_unsafe c.
Proof.
  unfold in_class, outside_word, single, is_unsafe, is_safe, is_alnum. simpl.
  rewrite !between_single, orb_false_r. f_equal.
  by rewrite !orb_assoc.
Qed.

Lemma is_char_eq x c : is_char x c = true -> c = x.
Proof. unfold is_char. by intros ?%Ascii.eqb_eq. Qed.

Lemma run_length_ext p q l :
  (forall c, p c = q c) -> run_length p l = run_length q l.
Proof. intros H. induction l as [|c l IH]; simpl; [done|]. by rewrite H, IH. Qed.

Lemma forallb_ext_eq (p q : ascii -> bool) l :
  (forall c, p c = q c) -> forallb p l = forallb q l.
Proof. intros H. induction l as [|c l IH]; simpl; [done|]. by rewrite H, IH. Qed.

(** *** [replace(/\.[^/.]+$/, '')] strips the extension *)

Lemma match_extension pos l :
  match_at re_extension pos l =
    match l with
    | c :: l' => if is_char "." c && is_extension l' then Some (length l) else None
    | [] => None
    end.
Proof.
  unfold re_extension, match_at.
  destruct l as [|c l']; [done|].
  change (match_seq (One ?k :: ?ts) pos (c :: l')) with
    (if in_class k c
     then match match_seq ts (S pos) l' with Some len => Some (S len) | None => None end
     else None).
  rewrite match_at_least_eol.
  replace (in_class {| negated := false; ranges := [single "."%char] |} c)
    with (is_char "." c)
    by (unfold in_class, single; simpl; by rewrite between_single, orb_false_r).
  destruct (is_char "." c); [|done]. simpl.
  assert (forallb (in_class {| negated := true; ranges := [single "/"%char; single "."%char] |}) l'
          = forallb (fun c => negb (is_char "/" c) && negb (is_char "." c)) l') as ->.
  { apply forallb_ext_eq. intros d. unfold in_class, single; simpl.
    rewrite !between_single, orb_false_r.
    by destruct (is_char "/" d), (is_char "." d). }
  destruct l' as [|d l'']; [done|]. simpl.
  by destruct (_ && _).
Qed.

Lemma replace_extension l :
  replace re_extension [] l = strip_extension l.
Proof.
  unfold replace. generalize 0 as pos.
  induction l as [|c l IH]; intros pos.
  - done.
  - cbn [replace_from strip_extension]. rewrite match_extension.
    destruct (is_char "." c && is_extension l).
    + by rewrite drop_all.
    + by rewrite IH.
Qed.

(** *** [replace(/k+/g, '_')] and [replace(/_{2,}/g, '_')] squeeze runs *)

Lemma replaceAll_plus k l :
  replaceAll [[AtLeast 1 k]] ["_"%char] l = replace_runs (in_class k) l.
Proof.
  unfold replaceAll, replace_runs.
  set (p := in_class k).
  enough (forall pos,
    replaceAll_from [[AtLeast 1 k]] ["_"%char] pos 0 l = squeeze p false l /\
    replaceAll_from [[AtLeast 1 k]] ["_"%char] pos (run_length p l) l = squeeze p true l)
    as H by apply (H 0).
  induction l as [|c l IH]; intros pos; [done|].
  destruct (IH (S pos)) as [IH0 IH1].
  cbn [replaceAll_from match_at squeeze run_length].
  rewrite match_at_least. cbn [run_length]. fold p.
  destruct (p c) eqn:Hc; cbn [Nat.leb app]; rewrite ?IH0, ?IH1; done.
Qed.

Lemma replaceAll_underscores l :
  replaceAll re_underscores ["_"%char] l = replace_runs (is_char "_") l.
Proof.
  unfold replaceAll, replace_runs, re_underscores.
  set (p := in_class underscore).
  assert (forall c, is_char "_" c = p c) as Hp
    by (intros; symmetry; apply in_class_underscore).
  enough (forall pos,
    replaceAll_from [[AtLeast 2 underscore]] ["_"%char] pos 0 l = squeeze (is_char "_") false l /\
    replaceAll_from [[AtLeast 2 underscore]] ["_"%char] pos (run_length p l) l
      = squeeze (is_char "_") true l)
    as H by apply (H 0).
  induction l as [|c l IH]; intros pos; [done|].
  destruct (IH (S pos)) as [IH0 IH1].
  cbn [replaceAll_from match_at squeeze run_length].
  rewrite match_at_least. cbn [run_length]. fold p. rewrite Hp.
  destruct (p c) eqn:Hc.
  - split; [|by rewrite IH1].
    rewrite <- Hp in Hc. apply is_char_eq in Hc as ->.
    destruct (run_length p l) as [|r] eqn:Hr; cbn [Nat.leb app].
    + by rewrite <- IH1.
    + by rewrite IH1.
  - cbn [Nat.leb]. by rewrite IH0.
Qed.

(** *** [replace(/^_+|_+$/g, '')] trims underscores at both ends *)

Lemma drop_leading_app p a b :
  drop_leading p (a ++ b) =
    if forallb p a then drop_leading p b else drop_leading p a ++ b.
Proof.
  unfold drop_leading. induction a as [|c a IH]; simpl; [done|].
  destruct (p c); simpl; [apply IH|done].
Qed.

Lemma forallb_rev_eq (p : ascii -> bool) l : forallb p (rev l) = forallb p l.
Proof.
  induction l as [|c l IH]; simpl; [done|].
  rewrite forallb_app, IH. simpl. rewrite andb_true_r. apply andb_comm.
Qed.

Lemma drop_leading_all p l : forallb p l = true -> drop_leading p l = [].
Proof.
  intros H. unfold drop_leading. rewrite (run_length_all _ _ H). apply drop_all.
Qed.

Lemma drop_trailing_all p l : forallb p l = true -> drop_trailing p l = [].
Proof.
  intros H. unfold drop_trailing.
  rewrite drop_leading_all; [done|]. by rewrite forallb_rev_eq.
Qed.

Lemma drop_trailing_cons p c l :
  forallb p (c :: l) = false -> drop_trailing p (c :: l) = c :: drop_trailing p l.
Proof.
  intros H. unfold drop_trailing. simpl rev.
  rewrite drop_leading_app, forallb_rev_eq.
  destruct (forallb p l) eqn:A.
  - simpl in H. rewrite A, andb_true_r in H.
    rewrite (drop_leading_all p (rev l)) by (by rewrite forallb_rev_eq).
    unfold drop_leading. simpl. by rewrite H.
  - by rewrite rev_app_distr.
Qed.

Lemma match_edges pos l :
  match_at re_edges pos l =
    if pos =? 0
    then (if 1 <=? run_length (is_char "_") l
          then Some (run_length (is_char "_") l) else None)
    else (if (1 <=? length l) && forallb (is_char "_") l
          then Some (length l) else None).
Proof.
  unfold re_edges, match_at.
  change (match_seq (Bol :: ?ts) pos l) with
    (if pos =? 0 then match_seq ts pos l else None).
  rewrite match_at_least, match_at_least_eol.
  rewrite (run_length_ext _ _ l in_class_underscore).
  rewrite (forallb_ext_eq _ _ l in_class_underscore).
  destruct (pos =? 0); [|by destruct (_ && _)].
  destruct (1 <=? run_length _ l) eqn:E; [done|].
  apply Nat.leb_gt in E.
  destruct l as [|c l]; [done|]. simpl in *.
  destruct (is_char "_" c); [lia|done].
Qed.

Lemma replaceAll_edges_inner pos l :
  replaceAll_from re_edges [] (S pos) 0 l = drop_trailing (is_char "_") l.
Proof.
  revert pos. induction l as [|c l IH]; intros pos; [done|].
  cbn [replaceAll_from]. rewrite match_edges.
  change (S pos =? 0) with false. cbv iota.
  change (1 <=? length (c :: l)) with true. rewrite andb_true_l.
  destruct (forallb (is_char "_") (c :: l)) eqn:A.
  - rewrite drop_trailing_all by done. cbn [length app].
    rewrite replaceAll_from_skip by done.
    rewrite drop_all. cbn [replaceAll_from]. by rewrite match_edges.
  - rewrite drop_trailing_cons by done. by rewrite IH.
Qed.

Lemma replaceAll_edges l :
  replaceAll re_edges [] l = trim_underscores l.
Proof.
  unfold replaceAll, trim_underscores.
  destruct l as [|c l]; [done|].
  cbn [replaceAll_from]. rewrite match_edges.
  change (0 =? 0) with true. cbv iota.
  unfold drop_leading. cbn [run_length].
  destruct (is_char "_" c) eqn:Hc.
  - cbn [Nat.leb app drop].
    rewrite replaceAll_from_skip by apply run_length_le.
    apply replaceAll_edges_inner.
  - cbn [Nat.leb drop].
    rewrite drop_trailing_cons by (simpl; by rewrite Hc).
    by rewrite replaceAll_edges_inner.
Qed.

(** *** The whole of [sanitizeBaseName] *)

Lemma squeeze_ext p q (H : forall c, p c = q c) b l :
  squeeze p b l = squeeze q b l.
Proof.
  revert b. induction l as [|c l IH]; intros b; simpl; [done|].
  by rewrite H, !IH.
Qed.

Lemma sanitizeBaseName_units_stages l :
  sanitizeBaseName_units l =
    take 64 (map lower_unit
      (trim_underscores
        (replace_runs (is_char "_")
          (replace_runs is_unsafe (strip_extension l))))).
Proof.
  unfold sanitizeBaseName_units, slice0, toLowerCase, re_unsafe.
  rewrite replace_extension, replaceAll_plus, replaceAll_underscores, replaceAll_edges.
  unfold replace_runs.
  by rewrite (squeeze_ext _ _ in_class_outside_word).
Qed.

Lemma or_else_default a d : or_else a d = default_to d a.
Proof. by destruct a. Qed.

(** *** Names made of symbols only *)

Lemma forallb_weaken (p q : ascii -> bool) l :
  (forall c, p c = true -> q c = true) ->
  forallb p l = true -> forallb q l = true.
Proof.
  intros H. induction l as [|c l IH]; simpl; [done|].
  intros [Hc Hl]%andb_prop. by rewrite (H _ Hc), IH.
Qed.

Lemma strip_extension_forallb (q : ascii -> bool) l :
  forallb q l = true -> forallb q (strip_extension l) = true.
Proof.
  induction l as [|c l IH]; simpl; [done|].
  intros [Hc Hl]%andb_prop.
  destruct (_ && _); simpl; [done|]. by rewrite Hc, IH.
Qed.

Lemma squeeze_underscores p b l :
  forallb (fun c => p c || is_char "_" c) l = true ->
  forallb (is_char "_") (squeeze p b l) = true.
Proof.
  revert b. induction l as [|c l IH]; intros b; simpl; [done|].
  intros [Hc Hl]%andb_prop.
  destruct (p c) eqn:Hp.
  - destruct b; simpl; by rewrite ?IH.
  - simpl in Hc. simpl. by rewrite Hc, IH.
Qed.

Lemma all_symbols_base name :
  all_symbols name = true ->
  trim_underscores
    (replace_runs (is_char "_")
      (replace_runs is_unsafe (strip_extension (chars name)))) = [].
Proof.
  unfold all_symbols. intros H.
  apply strip_extension_forallb in H.
  unfold trim_underscores. rewrite drop_leading_all; [done|].
  unfold replace_runs. apply squeeze_underscores.
  erewrite forallb_ext_eq; [|intros c; apply orb_diag].
  apply squeeze_underscores.
  revert H. apply forallb_weaken.
  intros c. unfold is_unsafe, is_safe.
  destruct (is_alnum c), (is_char "-" c), (is_char "_" c); done.
Qed.

End NamingStages.

(** C4 (as worded): the worded rule and the code disagree on a name that
    holds two underscores in a row. *)
Lemma buildOutputName_differs_from_worded_rule :
  Naming.buildOutputName "a__b.mov" ".mp3" = "a_b.mp3"%string /\
  NamingSpec.output_name_as_specified "a__b.mov" ".mp3" = "a__b.mp3"%string /\
  ~ (forall name extension,
       Naming.buildOutputName name extension
       = NamingSpec.output_name_as_specified name extension).
Proof.
  split; [reflexivity|]. split; [reflexivity|].
  intros H. specialize (H "a__b.mov"%string ".mp3"%string).
  vm_compute in H. discriminate H.
Qed.

(** C4 (amended): for every source name and extension the output name is
    the source name with its extension stripped, every run of units outside
    alphanumeric/dash/underscore replaced by one underscore, every run of
    underscores then collapsed to one, underscores trimmed at both ends,
    lower-cased, cut to 64 units, "audio" if nothing is left, and the
    extension appended. "My Clip (Final)!!.mov" gives "my_clip_final.mp3",
    and a name without alphanumerics or dashes gives "audio" and the
    extension. *)
Theorem buildOutputName_rule :
  (forall name extension,
     Naming.buildOutputName name extension
     = NamingSpec.output_name_collapsing name extension) /\
  Naming.buildOutputName "My Clip (Final)!!.mov" ".mp3" = "my_clip_final.mp3"%string /\
  (forall name extension,
     NamingSpec.all_symbols name = true ->
     Naming.buildOutputName name extension = ("audio" ++ extension)%string).
Proof.
  assert (forall name extension,
     Naming.buildOutputName name extension
     = NamingSpec.output_name_collapsing name extension) as Hrule.
  { intros name extension.
    unfold Naming.buildOutputName, Naming.sanitizeBaseName,
      NamingSpec.output_name_collapsing.
    by rewrite or_else_default, sanitizeBaseName_units_stages. }
  split; [exact Hrule|]. split; [reflexivity|].
  intros name extension H. rewrite Hrule. unfold NamingSpec.output_name_collapsing.
  by rewrite (all_symbols_base name H).
Qed.

(* ===================================================================== *)
(** ** Facts about the failure description *)
(* ===================================================================== *)

Section TaxonomyFacts.
Import Taxonomy TaxonomySpec.

Variable member_text : string -> string.

Lemma own_property_unknown code :
  existsb (String.eqb code) known_codes = false ->
  own_property code mapping = None.
Proof.
  unfold known_codes, mapping. cbn [map engine_code existsb own_property].
  rewrite !orb_false_iff. intros (H1 & H2 & H3 & H4 & H5 & H6 & _).
  rewrite !(String.eqb_sym _ code), H1, H2, H3, H4, H5, H6. done.
Qed.

Lemma humanizeReason_phrase r :
  well_formed r = true ->
  humanizeReason member_text (engine_code r) = phrase_in_browser r.
Proof.
  destruct r; try reflexivity.
  cbn [well_formed engine_code phrase_in_browser phrase_as_specified].
  intros [Hk Hi]%andb_prop.
  apply negb_true_iff in Hk, Hi.
  unfold humanizeReason. by rewrite (own_property_unknown _ Hk), Hi.
Qed.

Lemma clause_phrase t :
  well_formed (snd t) = true ->
  clause member_text (as_reported t) = clause_of phrase_in_browser t.
Proof.
  intros H. unfold clause, clause_of, as_reported. cbn [track_type reason].
  by rewrite humanizeReason_phrase.
Qed.

Lemma clauses_phrase tracks :
  forallb (fun t => well_formed (snd t)) tracks = true ->
  map (clause member_text) (map as_reported tracks)
  = map (clause_of phrase_in_browser) tracks.
Proof.
  induction tracks as [|t tracks IH]; [done|].
  cbn [forallb map]. intros [Ht Hr]%andb_prop.
  by rewrite clause_phrase, IH.
Qed.

End TaxonomyFacts.

(** C8 (as worded): for an undecodable source codec the code says "in this
    browser", where the listed phrase ends "in this runtime". *)
Lemma humanizeReason_undecodable_differs :
  Taxonomy.humanizeReason (fun key => key) "undecodable_source_codec"
    = "source codec not decodable in this browser"%string /\
  Taxonomy.humanizeReason (fun key => key)
      (TaxonomySpec.engine_code TaxonomySpec.UndecodableSourceCodec)
    <> TaxonomySpec.phrase_as_specified TaxonomySpec.UndecodableSourceCodec.
Proof. split; [reflexivity|]. intros H. vm_compute in H. discriminate H. Qed.

(** C8 (amended): for a non-empty list of discarded tracks the description
    is "Unable to convert this file: ", one clause "<kind> track discarded
    (<phrase>)" per track joined with "; ", and a full stop; the phrases are
    those listed, except that an undecodable source codec reads "source
    codec not decodable in this browser"; a code the table does not know,
    and that names no inherited object member, reads "unsupported track". *)
Theorem describeInvalidConversion_clauses
    (member_text : string -> string)
    (tracks : list (string * TaxonomySpec.reason_code)) :
  tracks <> [] ->
  forallb (fun t => TaxonomySpec.well_formed (snd t)) tracks = true ->
  Taxonomy.describeInvalidConversion member_text (map TaxonomySpec.as_reported tracks)
  = ("Unable to convert this file: "
     ++ String.concat "; " (map (TaxonomySpec.clause_of TaxonomySpec.phrase_in_browser) tracks)
     ++ ".")%string.
Proof.
  intros Hne Hwf. unfold Taxonomy.describeInvalidConversion.
  destruct tracks as [|t tracks]; [done|].
  rewrite <- (clauses_phrase member_text (t :: tracks) Hwf). reflexivity.
Qed.

Lemma describeInvalidConversion_clauses_witness :
  let tracks :=
    [ ("video", TaxonomySpec.UserDiscarded);
      ("audio", TaxonomySpec.UndecodableSourceCodec);
      ("audio", TaxonomySpec.Unrecognized "codec_from_the_future") ]%string in
  tracks <> [] /\
  forallb (fun t => TaxonomySpec.well_formed (snd t)) tracks = true /\
  Taxonomy.describeInvalidConversion (fun key => key) (map TaxonomySpec.as_reported tracks)
  = "Unable to convert this file: video track discarded (discarded by configuration); audio track discarded (source codec not decodable in this browser); audio track discarded (unsupported track)."%string.
Proof.
  cbv zeta. split; [discriminate|]. split; [reflexivity|].
  exact (describeInvalidConversion_clauses (fun key => key)
           [ ("video", TaxonomySpec.UserDiscarded);
             ("audio", TaxonomySpec.UndecodableSourceCodec);
             ("audio", TaxonomySpec.Unrecognized "codec_from_the_future") ]%string
           ltac:(discriminate) eq_refl).
Defined.

(* ===================================================================== *)
(** ** Facts about the support registry *)
(* ===================================================================== *)

Section RegistryFacts.
Import Registry.

Lemma lookup_entry formatId spec :
  spec_of formatId = Some spec -> lookup formatId = Entry spec.
Proof. intros H. unfold lookup. by rewrite H. Qed.

Lemma lookup_entry_inv formatId spec :
  lookup formatId = Entry spec -> spec_of formatId = Some spec.
Proof. unfold lookup. repeat case_match; congruence. Qed.

Lemma lookup_undefined formatId :
  lookup formatId = Undefined -> spec_of formatId = None.
Proof. unfold lookup. by repeat case_match. Qed.

Lemma lookup_inherited formatId :
  lookup formatId = Inherited ->
  spec_of formatId = None /\ Taxonomy.inherited formatId = true.
Proof. unfold lookup. by repeat case_match. Qed.

Lemma spec_of_in_elem f spec specs :
  spec_of_in f specs = Some spec -> (f, spec) ∈ specs.
Proof.
  induction specs as [|[id sp] specs IH]; [done|]. cbn [spec_of_in].
  destruct (String.eqb_spec id f) as [->|Hne].
  - intros [= ->]. by left.
  - intros H. right. by apply IH.
Qed.

Lemma elem_spec_of_in f spec specs :
  NoDup specs.*1 -> (f, spec) ∈ specs -> spec_of_in f specs = Some spec.
Proof.
  induction specs as [|[id sp] specs IH]; [by intros _ ?%elem_of_nil|].
  intros [Hnin Hnd]%NoDup_cons [[= -> ->]|Hin]%elem_of_cons; cbn [spec_of_in].
  - by rewrite String.eqb_refl.
  - destruct (String.eqb_spec id f) as [->|Hne]; [|by apply IH].
    destruct Hnin. cbn. apply list_elem_of_fmap. by exists (f, spec).
Qed.

Lemma catalog_keys : NoDup AUDIO_FORMAT_SPECS.*1.
Proof.
  cbn. repeat (apply NoDup_cons; split;
    [intros H; repeat (apply elem_of_cons in H as [H|H]; [discriminate|]);
     by apply elem_of_nil in H|]).
  apply NoDup_nil_2.
Qed.

Lemma catalog_entry f spec :
  spec_of f = Some spec <-> (f, spec) ∈ AUDIO_FORMAT_SPECS.
Proof.
  split; [apply spec_of_in_elem|apply elem_spec_of_in, catalog_keys].
Qed.

(** Every format that needs a probe has a codec the engine is asked about
    and a message of its own; no two of them share a codec. *)
Lemma catalog_probed f spec :
  spec_of f = Some spec -> alwaysAvailable spec = false ->
  f ∈ ["ogg"; "aac"; "flac"]%string /\
  codec spec ∈ ["opus"; "aac"; "flac"]%string /\
  String.eqb (codec spec) "pcm-s16" = false /\
  unsupportedMessage spec <> None.
Proof.
  intros H%catalog_entry Ha. unfold AUDIO_FORMAT_SPECS in H.
  repeat (apply elem_of_cons in H as [[= -> ->]|H]); try discriminate;
    try (by apply elem_of_nil in H); cbn;
    (split; [|split; [|done]]);
    repeat (first [by apply list_elem_of_here|apply list_elem_of_further]).
Qed.

Lemma catalog_codecs f spec f' spec' :
  spec_of f = Some spec -> spec_of f' = Some spec' ->
  alwaysAvailable spec = false -> alwaysAvailable spec' = false ->
  codec spec = codec spec' -> f = f'.
Proof.
  intros H%catalog_entry H'%catalog_entry Ha Ha'. unfold AUDIO_FORMAT_SPECS in H, H'.
  repeat (apply elem_of_cons in H as [[= -> ->]|H]); try discriminate;
    try (by apply elem_of_nil in H);
    repeat (apply elem_of_cons in H' as [[= -> ->]|H']); try discriminate;
    try (by apply elem_of_nil in H'); done.
Qed.

Lemma isFormatSupported_memo_kept r formatId asked p :
  supportChecks r !! formatId = Some p ->
  supportChecks (snd (isFormatSupported r asked)) !! formatId = Some p.
Proof.
  intros H. unfold isFormatSupported.
  assert (forall spec,
    supportChecks (snd (if always spec then (Resolved true, r)
      else match supportChecks r !! asked with
           | Some p => (p, r)
           | None =>
               let '(p, r') := checkCodecSupport r (codec_of spec) in
               (p, {| supportChecks := <[asked := p]> (supportChecks r');
                      probes := probes r' |})
           end)) !! formatId = Some p) as Hall.
  { intros spec. destruct (always spec); [done|].
    destruct (supportChecks r !! asked) eqn:E; [done|].
    unfold checkCodecSupport.
    destruct (is_pcm (codec_of spec)); cbn [snd supportChecks];
      (rewrite lookup_insert_ne; [done|]); intros ->; congruence. }
  destruct (lookup asked); [apply Hall..|done].
Qed.

Lemma apply_memo_kept o r formatId p :
  supportChecks r !! formatId = Some p ->
  supportChecks (apply o r) !! formatId = Some p.
Proof.
  destruct o as [asked|n out]; cbn [apply].
  - apply isFormatSupported_memo_kept.
  - unfold settle_probe. by repeat case_match.
Qed.

Lemma run_memo_kept ops r formatId p :
  supportChecks r !! formatId = Some p ->
  supportChecks (run ops r) !! formatId = Some p.
Proof.
  revert r. induction ops as [|o ops IH]; intros r H; [done|].
  apply IH. by apply apply_memo_kept.
Qed.

(** The first call for a format that needs a probe asks the engine about
    the format's codec and keeps the promise under the format's id. *)
Lemma isFormatSupported_probes r formatId spec :
  spec_of formatId = Some spec ->
  alwaysAvailable spec = false ->
  supportChecks r !! formatId = None ->
  isFormatSupported r formatId
  = (Probing (length (probes r)),
     {| supportChecks := <[formatId := Probing (length (probes r))]> (supportChecks r);
        probes := probes r ++ [(Some (codec spec), None)] |}).
Proof.
  intros Hs Ha Hp. unfold isFormatSupported.
  rewrite (lookup_entry _ _ Hs). cbn [always codec_of]. rewrite Ha, Hp.
  unfold checkCodecSupport. cbn [is_pcm].
  by destruct (catalog_probed _ _ Hs Ha) as (_ & _ & -> & _).
Qed.

Lemma isFormatSupported_memoizes r formatId spec :
  spec_of formatId = Some spec ->
  alwaysAvailable spec = false ->
  supportChecks (snd (isFormatSupported r formatId)) !! formatId
  = Some (fst (isFormatSupported r formatId)).
Proof.
  intros Hs Ha. unfold isFormatSupported.
  rewrite (lookup_entry _ _ Hs). cbn [always codec_of]. rewrite Ha.
  destruct (supportChecks r !! formatId) eqn:E; [done|].
  unfold checkCodecSupport.
  destruct (is_pcm _); cbn [fst snd supportChecks];
    by rewrite lookup_insert_eq.
Qed.

Lemma isFormatSupported_cached r formatId spec p :
  spec_of formatId = Some spec ->
  alwaysAvailable spec = false ->
  supportChecks r !! formatId = Some p ->
  isFormatSupported r formatId = (p, r).
Proof.
  intros Hs Ha Hp. unfold isFormatSupported.
  rewrite (lookup_entry _ _ Hs). cbn [always]. by rewrite Ha, Hp.
Qed.

Lemma settle_probe_threw r n codec :
  probes r !! n = Some (codec, None) ->
  value (settle_probe n ProbeThrew r) (Probing n) = Some false.
Proof.
  intros H. unfold settle_probe, value. rewrite H. cbn [probes].
  rewrite list_lookup_insert_eq; [done|].
  by apply lookup_lt_Some in H.
Qed.

Lemma settle_probe_answered r n codec b :
  probes r !! n = Some (codec, None) ->
  value (settle_probe n (ProbeAnswered b) r) (Probing n) = Some b.
Proof.
  intros H. unfold settle_probe, value. rewrite H. cbn [probes].
  rewrite list_lookup_insert_eq; [done|].
  by apply lookup_lt_Some in H.
Qed.

(** *** A promise settles once *)

Lemma probes_isFormatSupported r f :
  exists new, probes (snd (isFormatSupported r f)) = probes r ++ new.
Proof.
  unfold isFormatSupported, checkCodecSupport.
  repeat case_match; simplify_eq; cbn [snd probes];
    first [by exists []; rewrite app_nil_r | by eexists].
Qed.

Lemma value_isFormatSupported r f p b :
  value r p = Some b -> value (snd (isFormatSupported r f)) p = Some b.
Proof.
  intros H. destruct (probes_isFormatSupported r f) as [new Hnew].
  destruct p as [v|n]; [done|]. cbn [value] in *. rewrite Hnew.
  destruct (probes r !! n) as [x|] eqn:E; [|done].
  by rewrite (lookup_app_l_Some _ _ _ _ E).
Qed.

Lemma value_settle_probe r n o p b :
  value r p = Some b -> value (settle_probe n o r) p = Some b.
Proof.
  intros H. unfold settle_probe.
  destruct (probes r !! n) as [[c [x|]]|] eqn:E; try done.
  destruct p as [v|m]; [done|]. cbn [value probes] in *.
  destruct (decide (m = n)) as [->|Hne].
  - by rewrite E in H.
  - by rewrite list_lookup_insert_ne.
Qed.

Lemma value_apply o r p b : value r p = Some b -> value (apply o r) p = Some b.
Proof.
  destruct o; cbn [apply]; [apply value_isFormatSupported|apply value_settle_probe].
Qed.

Lemma value_run ops : forall r p b, value r p = Some b -> value (run ops r) p = Some b.
Proof.
  induction ops as [|o ops IH]; intros r p b H; [done|].
  cbn. apply IH. by apply value_apply.
Qed.

(** A probe stays unanswered until the engine answers it. *)
Lemma pending_run ops : forall r n codec,
  probes r !! n = Some (codec, None) ->
  (forall o, Answer n o ∉ ops) ->
  probes (run ops r) !! n = Some (codec, None).
Proof.
  induction ops as [|o ops IH]; intros r n codec H Hno; [done|].
  cbn. apply IH.
  - destruct o as [f|m out]; cbn [apply].
    + destruct (probes_isFormatSupported r f) as [new ->].
      by apply lookup_app_l_Some.
    + unfold settle_probe.
      destruct (probes r !! m) as [[c [x|]]|] eqn:E; try done.
      cbn [probes]. rewrite list_lookup_insert_ne; [done|].
      intros ->. apply (Hno out). by left.
  - intros out Hin. apply (Hno out). by right.
Qed.

End RegistryFacts.

(** C7: for a format of the catalog, [isFormatSupported] answers [true]
    without a probe (the registry is left as it was) when the format is
    always available. Otherwise the first call asks the engine about the
    format's codec, once, and keeps the promise in [supportChecks] under the
    format's id; any later call, whatever happened to the registry in
    between, returns that same promise and issues no probe; once the engine
    has answered the probe, the promise every call returns has the value
    the engine gave, and the value [false] when the probe threw. *)
Theorem isFormatSupported_policy
    (r : Registry.t) (formatId : string) (spec : Registry.AudioFormatSpec) :
  Registry.spec_of formatId = Some spec ->
  (Registry.alwaysAvailable spec = true ->
     Registry.isFormatSupported r formatId = (Registry.Resolved true, r)) /\
  (Registry.alwaysAvailable spec = false ->
     forall ops,
       let first := Registry.isFormatSupported r formatId in
       let later := Registry.run ops (snd first) in
       Registry.isFormatSupported later formatId = (fst first, later)) /\
  (Registry.alwaysAvailable spec = false ->
   Registry.supportChecks r !! formatId = None ->
     let n := length (Registry.probes r) in
     Registry.isFormatSupported r formatId
     = (Registry.Probing n,
        {| Registry.supportChecks := <[formatId := Registry.Probing n]> (Registry.supportChecks r);
           Registry.probes := Registry.probes r ++ [(Some (Registry.codec spec), None)] |}) /\
     forall before o after,
       (forall o', Registry.Answer n o' ∉ before) ->
       let first := Registry.isFormatSupported r formatId in
       let later :=
         Registry.run after
           (Registry.settle_probe n o (Registry.run before (snd first))) in
       Registry.isFormatSupported later formatId = (Registry.Probing n, later) /\
       Registry.value later (Registry.Probing n)
       = Some match o with
              | Registry.ProbeAnswered supported => supported
              | Registry.ProbeThrew => false
              end) /\
  (forall n codec,
     Registry.probes r !! n = Some (codec, None) ->
     Registry.value (Registry.settle_probe n Registry.ProbeThrew r) (Registry.Probing n)
     = Some false) /\
  (forall n codec supported,
     Registry.probes r !! n = Some (codec, None) ->
     Registry.value (Registry.settle_probe n (Registry.ProbeAnswered supported) r)
                    (Registry.Probing n)
     = Some supported).
Proof.
  intros Hs. split; [|split; [|split; [|split]]].
  - intros Ha. unfold Registry.isFormatSupported.
    rewrite (lookup_entry _ _ Hs). cbn [Registry.always]. by rewrite Ha.
  - intros Ha ops first later.
    apply (isFormatSupported_cached _ _ spec); [done..|].
    apply run_memo_kept. by apply (isFormatSupported_memoizes _ _ spec).
  - intros Ha Hp n. pose proof (isFormatSupported_probes r formatId spec Hs Ha Hp) as Hfirst.
    split; [done|]. intros before o after Hno first later.
    subst first later. rewrite Hfirst. cbn [snd].
    set (r1 := {| Registry.supportChecks := _; Registry.probes := _ |}).
    assert (Registry.probes (Registry.run before r1) !! n
            = Some (Some (Registry.codec spec), None)) as Hpending.
    { apply pending_run; [|done]. subst r1 n. cbn [Registry.probes].
      by apply list_lookup_middle. }
    split.
    + apply (isFormatSupported_cached _ _ spec); [done..|].
      apply run_memo_kept, (apply_memo_kept (Registry.Answer n o)), run_memo_kept.
      subst r1. cbn [Registry.supportChecks]. by rewrite lookup_insert_eq.
    + apply value_run. destruct o as [b|].
      * by apply (settle_probe_answered _ _ (Some (Registry.codec spec))).
      * by apply (settle_probe_threw _ _ (Some (Registry.codec spec))).
  - intros n codec. apply settle_probe_threw.
  - intros n codec b. apply settle_probe_answered.
Qed.

Lemma isFormatSupported_policy_witness :
  let r := snd (Registry.isFormatSupported Registry.empty "flac") in
  let before := [Registry.Ask "aac"; Registry.Ask "ogg"] in
  let after := [Registry.Answer 0 Registry.ProbeThrew; Registry.Ask "ogg"] in
  let later :=
    Registry.run after
      (Registry.settle_probe 1 (Registry.ProbeAnswered true)
         (Registry.run before (snd (Registry.isFormatSupported r "ogg")))) in
  Registry.alwaysAvailable <$> Registry.spec_of "ogg" = Some false /\
  Registry.probes (snd (Registry.isFormatSupported r "ogg"))
    = [(Some "flac", None); (Some "opus", None)]%string /\
  Registry.isFormatSupported later "ogg" = (Registry.Probing 1, later) /\
  Registry.value later (Registry.Probing 1) = Some true.
Proof.
  cbv zeta. split; [reflexivity|]. split; [reflexivity|].
  assert (forall o', Registry.Answer 1 o' ∉ [Registry.Ask "aac"; Registry.Ask "ogg"]) as Hno.
  { intros o' H. repeat (apply elem_of_cons in H as [H|H]; [discriminate|]).
    by apply elem_of_nil in H. }
  exact (proj2 (proj1 (proj2 (proj2 (isFormatSupported_policy
            (snd (Registry.isFormatSupported Registry.empty "flac")) "ogg" _ eq_refl)))
           eq_refl eq_refl)
           [Registry.Ask "aac"; Registry.Ask "ogg"] (Registry.ProbeAnswered true)
           [Registry.Answer 0 Registry.ProbeThrew; Registry.Ask "ogg"] Hno).
Defined.

(* ===================================================================== *)
(** ** Facts about the service *)
(* ===================================================================== *)

Section ServiceFacts.
Import Service ServiceSpec.

(** *** Effects leave the calls and the marker alone *)

Lemma log_calls id c m s : calls (log id c m s) = calls s.
Proof. unfold log. by destruct (onLog _). Qed.

Lemma log_activeCancel id c m s : activeCancel (log id c m s) = activeCancel s.
Proof. unfold log. by destruct (onLog _). Qed.

Lemma progress_calls id c v s : calls (progress id c v s) = calls s.
Proof. unfold progress. by destruct (onProgress _). Qed.

Lemma progress_activeCancel id c v s :
  activeCancel (progress id c v s) = activeCancel s.
Proof. unfold progress. by destruct (onProgress _). Qed.

Lemma Inv_same s s' :
  calls s' = calls s -> activeCancel s' = activeCancel s -> Inv s -> Inv s'.
Proof. unfold Inv. by intros -> ->. Qed.

Lemma Inv_log id c m s : Inv s -> Inv (log id c m s).
Proof. apply Inv_same; [apply log_calls|apply log_activeCancel]. Qed.

Lemma Inv_progress id c v s : Inv s -> Inv (progress id c v s).
Proof. apply Inv_same; [apply progress_calls|apply progress_activeCancel]. Qed.

Lemma Inv_emit e s : Inv s -> Inv (emit e s).
Proof. by apply Inv_same. Qed.

(** *** What is relayed to the progress callback *)

Lemma relayed_emit_progress id j v s :
  relayed id (emit (OnProgress j v) s)
  = relayed id s ++ (if j =? id then [v] else []).
Proof.
  unfold relayed. cbn [emit effects]. rewrite omap_app. cbn.
  by destruct (j =? id).
Qed.

Lemma relayed_emit_other id e s :
  (forall j v, e <> OnProgress j v) -> relayed id (emit e s) = relayed id s.
Proof.
  intros H. unfold relayed. cbn [emit effects]. rewrite omap_app.
  destruct e; cbn; rewrite ?app_nil_r; try done. by destruct (H id0 ratio).
Qed.

Lemma relayed_log id j c m s : relayed id (log j c m s) = relayed id s.
Proof. unfold log. destruct (onLog _); [|done]. by apply relayed_emit_other. Qed.

Lemma relayed_progress id j c v s :
  relayed id (progress j c v s)
  = relayed id s ++ (if onProgress (callbacks c) && (j =? id) then [v] else []).
Proof.
  unfold progress. destruct (onProgress _); cbn [andb].
  - apply relayed_emit_progress.
  - by rewrite app_nil_r.
Qed.

Lemma relayed_finish id j c o s : relayed id (finish j c o s) = relayed id s.
Proof. unfold finish. by rewrite relayed_emit_other. Qed.

Lemma relayed_set_call id j c s : relayed id (set_call j c s) = relayed id s.
Proof. done. Qed.

(** *** Replacing one call *)

Lemma Inv_call s id c : Inv s -> calls s !! id = Some c -> call_inv c.
Proof.
  intros [_ H] Hc. rewrite Forall_lookup in H. by apply (H id).
Qed.

Lemma Inv_set_call s id c c' :
  Inv s -> calls s !! id = Some c -> call_inv c' ->
  (armed (at_stage c) = true -> armed (at_stage c') = true) ->
  Inv (set_call id c' s).
Proof.
  intros [Ha Hf] Hc Hc' Harm. split; cbn [set_call activeCancel calls].
  - intros j Hj. destruct (Ha j Hj) as (cj & Hcj & Hj').
    destruct (decide (j = id)) as [->|Hne].
    + exists c'. rewrite list_lookup_insert_eq by (by eapply lookup_lt_Some).
      split; [done|]. apply Harm. congruence.
    + exists cj. by rewrite list_lookup_insert_ne.
  - by apply Forall_insert.
Qed.

Lemma Inv_finish s id c c1 o :
  Inv s -> calls s !! id = Some c -> call_inv (set_stage (Done o) c1) ->
  Inv (finish id c1 o s).
Proof.
  intros [Ha Hf] Hc Hc'. split; cbn [finish emit set_activeCancel set_call activeCancel calls].
  - done.
  - by apply Forall_insert.
Qed.

Lemma call_inv_threw c e :
  call_inv (set_stage (Done (Threw e)) c).
Proof. split; [done|]. intros r. by cbn. Qed.

(** *** The [cancel] closure *)

Lemma cancel_again id s : cancel id (cancel id s) = cancel id s.
Proof.
  unfold cancel at 2 3.
  destruct (calls s !! id) as [c|] eqn:Hc.
  - destruct (cancelRequested c) eqn:Hr.
    + unfold cancel. by rewrite Hc, Hr.
    + unfold cancel.
      match goal with |- context [set_call id ?c' ?s2] =>
        assert (calls (set_call id c' s2) !! id = Some c') as ->
      end.
      { cbn [set_call calls]. apply list_lookup_insert_eq.
        destruct (conversion c); cbn [emit calls]; rewrite log_calls;
          by eapply lookup_lt_Some. }
      done.
  - unfold cancel. by rewrite Hc.
Qed.

Lemma cancel_activeCancel id s : activeCancel (cancel id s) = activeCancel s.
Proof.
  unfold cancel. repeat case_match; try done;
    cbn [set_call emit activeCancel]; apply log_activeCancel.
Qed.

Lemma cancel_other id j s : j <> id -> calls (cancel id s) !! j = calls s !! j.
Proof.
  intros Hne. unfold cancel. repeat case_match; try done;
    cbn [set_call emit calls]; rewrite list_lookup_insert_ne by done;
    by rewrite log_calls.
Qed.

Lemma Inv_cancel id s c :
  Inv s -> calls s !! id = Some c -> past_entry (at_stage c) = true ->
  Inv (cancel id s).
Proof.
  intros HI Hc Hp. unfold cancel. rewrite Hc.
  destruct (cancelRequested c) eqn:Hr; [done|].
  destruct (Inv_call _ _ _ HI Hc) as [_ Hres].
  assert (forall s', calls s' = calls s -> activeCancel s' = activeCancel s ->
          forall c', at_stage c' = at_stage c -> formatId c' = formatId c ->
            file c' = file c ->
            (forall o, at_stage c = Done o -> race c' = race c) ->
            Inv (set_call id c' s')) as Hgen.
  { intros s' Hs1 Hs2 c' Hst Hf Hfi Hra.
    apply (Inv_set_call _ _ c); [by apply (Inv_same s)|by rewrite Hs1| |by rewrite Hst].
    split; [by rewrite Hst|].
    intros r Hr'. rewrite Hst in Hr'.
    destruct (Hres r Hr') as (spec & buf & H1 & H2 & H3).
    exists spec, buf. rewrite Hf, Hfi, (Hra _ Hr'). done. }
  destruct (conversion c); apply Hgen; cbn [emit calls activeCancel
    at_stage formatId file race];
    rewrite ?log_calls, ?log_activeCancel; try done;
    intros o Ho; by rewrite Ho.
Qed.

Lemma cancel_lookup id s c :
  calls s !! id = Some c ->
  exists c', calls (cancel id s) !! id = Some c' /\
             at_stage c' = at_stage c /\
             cancelRequested c' = true.
Proof.
  intros Hc. unfold cancel. rewrite Hc.
  destruct (cancelRequested c) eqn:Hr.
  - by exists c.
  - eexists. split.
    + cbn [set_call calls]. apply list_lookup_insert_eq.
      destruct (conversion c); cbn [emit calls]; rewrite log_calls;
        by eapply lookup_lt_Some.
    + done.
Qed.

Lemma relayed_cancel id j s : relayed id (cancel j s) = relayed id s.
Proof.
  unfold cancel. repeat case_match; try done; rewrite relayed_set_call;
    rewrite ?relayed_emit_other by done; apply relayed_log.
Qed.

(** *** Every segment keeps the invariant *)

Lemma Inv_init : Inv init.
Proof. split; [done|]. constructor. Qed.

Lemma Inv_convert f fmt cb s : Inv s -> Inv (convert f fmt cb s).
Proof.
  intros [Ha Hf].
  assert (forall reg st,
    (forall r, st <> Done (Returned r)) ->
    Inv (mkState (activeCancel s) reg
           (calls s ++ [mkCall f fmt cb st [] None false false false false None])
           (effects s))) as Hnew.
  { intros reg st Hst. split; cbn [activeCancel calls].
    - intros id Hid. destruct (Ha id Hid) as (c & Hc & Harm).
      exists c. split; [|done]. by apply lookup_app_l_Some.
    - apply Forall_app. split; [done|]. constructor; [|done].
      split; [done|]. intros r Hr. by destruct (Hst r). }
  unfold convert. destruct (activeCancel s); [by apply Hnew|].
  destruct (Registry.lookup fmt); try (by apply Hnew);
    destruct (Registry.isFormatSupported _ _); by apply Hnew.
Qed.

Lemma Inv_resume_support id s : Inv s -> Inv (resume_support id s).
Proof.
  intros HI. unfold resume_support.
  destruct (calls s !! id) as [c|] eqn:Hc; [|done].
  destruct (at_stage c) eqn:Hst; try done.
  destruct (Inv_call _ _ _ HI Hc) as [Hcr _]. rewrite Hst in Hcr.
  destruct (Registry.value _ _) as [[]|]; [| |done].
  - apply (Inv_set_call _ _ c);
      [by apply Inv_emit, Inv_log|by cbn [emit calls]; rewrite log_calls| |by rewrite Hst].
    split; [intros H; by apply Hcr in H|done].
  - apply (Inv_set_call _ _ c); [done..| |by rewrite Hst]. apply call_inv_threw.
Qed.

Lemma Inv_resume_arrayBuffer id r s : Inv s -> Inv (resume_arrayBuffer id r s).
Proof.
  intros HI. unfold resume_arrayBuffer.
  destruct (calls s !! id) as [c|] eqn:Hc; [|done].
  destruct (at_stage c) eqn:Hst; try done.
  assert (forall e, Inv (set_call id (set_stage (Done (Threw e)) c) s)) as Hthrew.
  { intros e. apply (Inv_set_call _ _ c); [done..| |by rewrite Hst]. apply call_inv_threw. }
  destruct r as [copy|e]; [|apply Hthrew].
  destruct (Registry.lookup _); [|apply Hthrew..].
  apply Inv_emit, Inv_log, Inv_progress.
  destruct HI as [Ha Hf]. split; cbn [set_activeCancel set_call activeCancel calls].
  - intros j [= <-]. eexists. split.
    + apply list_lookup_insert_eq. by eapply lookup_lt_Some.
    + reflexivity.
  - apply Forall_insert; [done|]. by split.
Qed.

Lemma Inv_resume_getFormat id r s : Inv s -> Inv (resume_getFormat id r s).
Proof.
  intros HI. unfold resume_getFormat.
  destruct (calls s !! id) as [c|] eqn:Hc; [|done].
  destruct (at_stage c) eqn:Hst; try done.
  destruct r as [fmt|e].
  - apply (Inv_set_call _ _ c);
      [by apply Inv_emit, Inv_log|by cbn [emit calls]; rewrite log_calls|by split|done].
  - apply (Inv_finish _ _ c);
      [by apply Inv_log|by rewrite log_calls|apply call_inv_threw].
Qed.

Lemma Inv_execute_settled id r s : Inv s -> Inv (execute_settled id r s).
Proof.
  intros HI. unfold execute_settled.
  destruct (calls s !! id) as [c|] eqn:Hc; [|done].
  destruct (at_stage c) eqn:Hst; try done.
  destruct (race c) eqn:Hr; [done|].
  apply (Inv_set_call _ _ c); [done..| |done].
  split; cbn [set_race cancelRequested at_stage]; rewrite Hst; done.
Qed.

Lemma Inv_engine_progress id v s : Inv s -> Inv (engine_progress id v s).
Proof.
  intros HI. unfold engine_progress. repeat case_match; try done.
  by apply Inv_progress.
Qed.

Lemma Inv_resume_race id s : Inv s -> Inv (resume_race id s).
Proof.
  intros HI. unfold resume_race.
  destruct (calls s !! id) as [c|] eqn:Hc; [|done].
  destruct (at_stage c) eqn:Hst; try done.
  destruct (race c) as [[[buffer|e]|]|] eqn:Hr; try done.
  - destruct (Registry.lookup (formatId c)) as [spec| |] eqn:Hl; [|done..].
    pose proof (lookup_entry_inv _ _ Hl) as Hs.
    destruct (cancelRequested c) eqn:Hcr.
    { apply (Inv_finish _ _ c); [done..|apply call_inv_threw]. }
    destruct buffer as [buf|].
    + apply (Inv_finish _ _ c);
        [by apply Inv_log, Inv_progress|by rewrite log_calls, progress_calls|].
      split; [done|]. intros r [= <-]. by exists spec, buf.
    + apply (Inv_finish _ _ c); [done..|apply call_inv_threw].
  - apply (Inv_finish _ _ c); [done..|apply call_inv_threw].
  - apply (Inv_finish _ _ c); [done..|apply call_inv_threw].
Qed.

Lemma Inv_cancelConversion s : Inv s -> Inv (cancelConversion s).
Proof.
  intros HI. unfold cancelConversion.
  destruct (activeCancel s) as [id|] eqn:Ha; [|done].
  destruct HI as [H1 H2]. destruct (H1 id Ha) as (c & Hc & Harm).
  apply (Inv_cancel _ _ c); [by split|done|].
  by destruct (at_stage c).
Qed.

Section Rendering.
Variable member_text : string -> string.

Lemma Inv_resume_init id r s : Inv s -> Inv (resume_init member_text id r s).
Proof.
  intros HI. unfold resume_init.
  destruct (calls s !! id) as [c|] eqn:Hc; [|done].
  destruct (at_stage c) eqn:Hst; try done.
  destruct r as [conv|e]; [|by apply (Inv_finish _ _ c); [..|apply call_inv_threw]].
  destruct (negb (isValid conv)).
  { destruct (discardedTracks conv);
      by apply (Inv_finish _ _ c); [..|apply call_inv_threw]. }
  set (c1 := set_conversion (Some conv) c).
  set (s1 := set_call id c1 s).
  assert (Inv s1) as HI1.
  { apply (Inv_set_call _ _ c); [done..| |done].
    destruct (Inv_call _ _ _ HI Hc) as [Hcr _].
    split; cbn [c1 set_conversion cancelRequested at_stage]; [done|by rewrite Hst]. }
  assert (calls s1 !! id = Some c1) as Hc1.
  { cbn [s1 set_call calls]. apply list_lookup_insert_eq. by eapply lookup_lt_Some. }
  set (s2 := if cancelRequested c1 then cancel id s1 else s1).
  assert (Inv s2 /\ exists cx, calls s2 !! id = Some cx /\ at_stage cx = AwaitInit) as [HI2 (cx & Hcx & Hstx)].
  { assert (at_stage c1 = AwaitInit) as Hst1 by (by unfold c1; cbn).
    subst s2. destruct (cancelRequested c1).
    - split; [apply (Inv_cancel _ _ c1); [done..|by rewrite Hst1]|].
      destruct (cancel_lookup _ _ _ Hc1) as (cx & Hcx & Hstx & _).
      exists cx. split; [done|]. by rewrite Hstx.
    - split; [done|]. by exists c1. }
  rewrite Hcx. cbn [nullish].
  apply (Inv_set_call _ _ cx);
    [by apply Inv_emit, Inv_log|by cbn [emit calls]; rewrite log_calls|by split|done].
Qed.

Lemma Inv_step e s : Inv s -> Inv (step member_text e s).
Proof.
  destruct e; cbn [step].
  - apply Inv_convert.
  - apply Inv_cancelConversion.
  - by apply Inv_same.
  - apply Inv_resume_support.
  - apply Inv_resume_arrayBuffer.
  - apply Inv_resume_getFormat.
  - apply Inv_resume_init.
  - apply Inv_engine_progress.
  - apply Inv_execute_settled.
  - apply Inv_resume_race.
Qed.

Lemma Inv_run es s : Inv s -> Inv (run member_text es s).
Proof.
  revert s. induction es as [|e es IH]; intros s HI; [done|].
  apply IH. by apply Inv_step.
Qed.

(** *** What a step does to one call *)

Lemma call_trans_refl c : call_trans c c.
Proof. by split. Qed.

Ltac calls_norm :=
  repeat (rewrite ?log_calls, ?progress_calls;
          cbn [finish set_call emit set_activeCancel calls]).

Ltac one_call id j c :=
  calls_norm;
  destruct (decide (id = j)) as [->|?];
  [ rewrite list_lookup_insert_eq by (by eapply lookup_lt_Some);
    eexists; split; [reflexivity|]
  | rewrite list_lookup_insert_ne by done;
    exists c; split; [done|apply call_trans_refl] ].

Lemma step_lookup e s id c :
  calls s !! id = Some c ->
  exists c', calls (step member_text e s) !! id = Some c' /\ call_trans c c'.
Proof.
  intros Hc.
  assert (exists c', calls s !! id = Some c' /\ call_trans c c') as Hsame
    by (exists c; split; [done|apply call_trans_refl]).
  destruct e as [f fmt cb| |n o|j|j r|j r|j r|j v|j r|j]; cbn [step].
  - (* convert *)
    exists c. split; [|apply call_trans_refl].
    unfold convert. repeat case_match; cbn [calls]; by apply lookup_app_l_Some.
  - (* cancelConversion *)
    unfold cancelConversion. destruct (activeCancel s) as [j|]; [|done].
    destruct (decide (id = j)) as [->|Hne].
    + destruct (cancel_lookup _ _ _ Hc) as (c' & Hc' & Hst & Hcr).
      exists c'. split; [done|]. split; [done|]. intros o Ho. by rewrite Hst.
    + rewrite cancel_other by done. done.
  - done.
  - (* resume_support *)
    unfold resume_support.
    destruct (calls s !! j) as [cj|] eqn:Hj; [|done].
    destruct (at_stage cj) eqn:Hst; try done.
    destruct (Registry.value _ _) as [[]|]; [| |done].
    + one_call id j c. assert (cj = c) as -> by congruence.
      split; [by rewrite Hst|intros o; by rewrite Hst].
    + one_call id j c. assert (cj = c) as -> by congruence.
      split; [by rewrite Hst|intros o; by rewrite Hst].
  - (* resume_arrayBuffer *)
    unfold resume_arrayBuffer.
    destruct (calls s !! j) as [cj|] eqn:Hj; [|done].
    destruct (at_stage cj) eqn:Hst; try done.
    destruct r as [copy|e]; [destruct (Registry.lookup _)|];
      one_call id j c; (assert (cj = c) as -> by congruence);
      (split; [by rewrite Hst|intros o; by rewrite Hst]).
  - (* resume_getFormat *)
    unfold resume_getFormat.
    destruct (calls s !! j) as [cj|] eqn:Hj; [|done].
    destruct (at_stage cj) eqn:Hst; try done.
    destruct r as [fmt|e].
    + one_call id j c. assert (cj = c) as -> by congruence.
      split; [done|intros o; by rewrite Hst].
    + one_call id j c. assert (cj = c) as -> by congruence.
      split; [done|intros o; by rewrite Hst].
  - (* resume_init *)
    unfold resume_init.
    destruct (calls s !! j) as [cj|] eqn:Hj; [|done].
    destruct (at_stage cj) eqn:Hst; try done.
    destruct r as [conv|e].
    2:{ one_call id j c. assert (cj = c) as -> by congruence.
        split; [done|intros o; by rewrite Hst]. }
    destruct (negb (isValid conv)).
    { destruct (discardedTracks conv); one_call id j c;
        (assert (cj = c) as -> by congruence);
        (split; [done|intros o; by rewrite Hst]). }
    cbn [set_conversion cancelRequested].
    calls_norm.
    destruct (decide (id = j)) as [->|Hne].
    2:{ rewrite list_lookup_insert_ne by done.
        destruct (cancelRequested cj); [rewrite cancel_other by done|];
          cbn [set_call calls]; by rewrite list_lookup_insert_ne. }
    assert (cj = c) as -> by congruence.
    rewrite list_lookup_insert_eq.
    2:{ destruct (cancelRequested c); [|cbn; rewrite length_insert; by eapply lookup_lt_Some].
        match goal with |- _ < length (calls (cancel j ?s1)) =>
          assert (is_Some (calls s1 !! j)) as [c1 Hc1]
            by (cbn; rewrite list_lookup_insert_eq by (by eapply lookup_lt_Some); eauto);
          destruct (cancel_lookup _ _ _ Hc1) as (cx & Hcx & _)
        end.
        by eapply lookup_lt_Some. }
    eexists. split; [reflexivity|].
    split; [|intros o; by rewrite Hst].
    intros Hcr _. cbn. rewrite Hcr.
    match goal with |- context [calls (cancel j ?s1) !! j] =>
      assert (is_Some (calls s1 !! j)) as [c1 Hc1]
        by (cbn; rewrite list_lookup_insert_eq by (by eapply lookup_lt_Some); eauto);
      destruct (cancel_lookup _ _ _ Hc1) as (cx & Hcx & _ & Hcrx)
    end.
    by rewrite Hcx.
  - (* engine_progress *)
    unfold engine_progress. repeat case_match; try done.
    by rewrite progress_calls.
  - (* execute_settled *)
    unfold execute_settled.
    destruct (calls s !! j) as [cj|] eqn:Hj; [|done].
    destruct (at_stage cj) eqn:Hst; try done.
    destruct (race cj); [done|].
    one_call id j c. assert (cj = c) as -> by congruence.
    split; [done|intros o; by rewrite Hst].
  - (* resume_race *)
    unfold resume_race.
    destruct (calls s !! j) as [cj|] eqn:Hj; [|done].
    destruct (at_stage cj) eqn:Hst; try done.
    destruct (race cj) as [[[buffer|e]|]|]; try done.
    + destruct (Registry.lookup _); [|done..].
      destruct (cancelRequested cj) eqn:Hcr; [|destruct buffer];
        one_call id j c; (assert (cj = c) as -> by congruence);
        (split; [done|intros o; by rewrite Hst]).
    + one_call id j c; (assert (cj = c) as -> by congruence).
      split; [done|intros o; by rewrite Hst].
    + one_call id j c; (assert (cj = c) as -> by congruence).
      split; [done|intros o; by rewrite Hst].
Qed.

Lemma run_cons e es s :
  run member_text (e :: es) s = run member_text es (step member_text e s).
Proof. done. Qed.

(** *** After cancellation was requested *)

Lemma cancel_requested_step e s id :
  Inv s -> cancel_requested id s -> cancel_requested id (step member_text e s).
Proof.
  intros HI (c & Hc & Hcr).
  destruct (step_lookup e s id c Hc) as (c' & Hc' & Ht & _).
  exists c'. split; [done|]. apply Ht; [done|].
  by apply (Inv_call _ _ _ HI Hc).
Qed.

Lemma cancel_requested_run es s id :
  Inv s -> cancel_requested id s -> cancel_requested id (run member_text es s).
Proof.
  revert s. induction es as [|e es IH]; intros s HI H; [done|].
  apply IH; [by apply Inv_step|by apply cancel_requested_step].
Qed.

Lemma engine_progress_dropped id v s :
  cancel_requested id s -> engine_progress id v s = s.
Proof.
  intros (c & Hc & Hcr). unfold engine_progress. rewrite Hc, Hcr.
  by destruct (progress_handler c).
Qed.

Lemma relayed_step_cancelled e s id :
  Inv s -> cancel_requested id s ->
  relayed id (step member_text e s) = relayed id s.
Proof.
  intros HI (c & Hc & Hcr).
  destruct (Inv_call _ _ _ HI Hc) as [Hpast _]. specialize (Hpast Hcr).
  destruct e as [f fmt cb| |n o|j|j r|j r|j r|j v|j r|j]; cbn [step].
  - unfold convert. by repeat case_match.
  - unfold cancelConversion. destruct (activeCancel s); [|done]. apply relayed_cancel.
  - done.
  - unfold resume_support. repeat case_match; try done.
    rewrite relayed_set_call, relayed_emit_other by done. apply relayed_log.
  - unfold resume_arrayBuffer.
    destruct (calls s !! j) as [cj|] eqn:Hj; [|done].
    destruct (at_stage cj) eqn:Hst; try done.
    destruct r as [copy|e]; [|done].
    destruct (Registry.lookup _); [|done..].
    rewrite relayed_emit_other, relayed_log, relayed_progress by done.
    destruct (j =? id) eqn:E; [|by rewrite andb_false_r, app_nil_r].
    apply Nat.eqb_eq in E as ->. assert (cj = c) as -> by congruence.
    by rewrite Hst in Hpast.
  - unfold resume_getFormat. repeat case_match; try done.
    + rewrite relayed_set_call, relayed_emit_other by done. apply relayed_log.
    + rewrite relayed_finish. apply relayed_log.
  - unfold resume_init. repeat case_match; try done;
      rewrite ?relayed_finish, ?relayed_set_call, ?relayed_emit_other by done;
      rewrite ?relayed_log, ?relayed_cancel; done.
  - destruct (decide (j = id)) as [->|Hne].
    + rewrite engine_progress_dropped; [done|by exists c].
    + unfold engine_progress. repeat case_match; try done.
      rewrite relayed_progress.
      destruct (j =? id) eqn:E; [by apply Nat.eqb_eq in E|].
      by rewrite andb_false_r, app_nil_r.
  - unfold execute_settled. by repeat case_match.
  - unfold resume_race.
    destruct (calls s !! j) as [cj|] eqn:Hj; [|done].
    destruct (at_stage cj) eqn:Hst; try done.
    destruct (race cj) as [[[buffer|e]|]|]; try done; try apply relayed_finish.
    destruct (Registry.lookup _); [|done..].
    destruct (cancelRequested cj) eqn:Hcj; [apply relayed_finish|].
    destruct buffer; [|apply relayed_finish].
    rewrite relayed_finish, relayed_log, relayed_progress.
    destruct (j =? id) eqn:E; [|by rewrite andb_false_r, app_nil_r].
    apply Nat.eqb_eq in E as ->. congruence.
Qed.

Lemma relayed_run_cancelled es s id :
  Inv s -> cancel_requested id s ->
  relayed id (run member_text es s) = relayed id s.
Proof.
  revert s. induction es as [|e es IH]; intros s HI H; [done|].
  rewrite run_cons.
  rewrite IH; [by apply relayed_step_cancelled|by apply Inv_step|
               by apply cancel_requested_step].
Qed.

Lemma run_app es1 es2 s :
  run member_text (es1 ++ es2) s = run member_text es2 (run member_text es1 s).
Proof. unfold run. apply fold_left_app. Qed.

(** *** While executing *)



(** *** Results *)

Lemma returned_result es id r :
  stage_of id (run member_text es init) = Some (Done (Returned r)) ->
  exists c, calls (run member_text es init) !! id = Some c /\ result_of c r.
Proof.
  unfold stage_of. intros H.
  destruct (calls (run member_text es init) !! id) as [c|] eqn:Hc; [|done].
  injection H as H. exists c. split; [done|].
  by apply (Inv_call _ _ _ (Inv_run es init Inv_init) Hc).
Qed.

End Rendering.

End ServiceFacts.

Section EngineCalls.
Import Service ServiceSpec.

(** *** Counting the engine's [execute] and [cancel] *)

Lemma executes_emit id e s :
  executes id (emit e s)
  = executes id s + (match e with
                     | ConversionExecute i => if i =? id then 1 else 0
                     | _ => 0
                     end).
Proof.
  unfold executes. cbn [emit effects].
  rewrite List.filter_app, length_app. f_equal.
  destruct e; try done. cbn. by destruct (id0 =? id).
Qed.

Lemma aborts_emit id e s :
  aborts id (emit e s)
  = aborts id s + (match e with
                   | ConversionCancel i => if i =? id then 1 else 0
                   | _ => 0
                   end).
Proof.
  unfold aborts. cbn [emit effects].
  rewrite List.filter_app, length_app. f_equal.
  destruct e; try done. cbn. by destruct (id0 =? id).
Qed.

Lemma executes_log id j c m s : executes id (log j c m s) = executes id s.
Proof. unfold log. destruct (onLog _); [|done]. rewrite executes_emit. cbn. lia. Qed.

Lemma aborts_log id j c m s : aborts id (log j c m s) = aborts id s.
Proof. unfold log. destruct (onLog _); [|done]. rewrite aborts_emit. cbn. lia. Qed.

Lemma executes_set_call id j c s : executes id (set_call j c s) = executes id s.
Proof. done. Qed.

Lemma aborts_set_call id j c s : aborts id (set_call j c s) = aborts id s.
Proof. done. Qed.

Variable member_text : string -> string.

(** The guard before the execution, when cancellation was requested
    earlier: [cancel()] returns at once, and [execute] is started. *)
Lemma resume_init_after_cancel s id c conv :
  calls s !! id = Some c ->
  at_stage c = AwaitInit ->
  cancelRequested c = true ->
  isValid conv = true ->
  executes id (resume_init member_text id (Fulfilled conv) s) = S (executes id s) /\
  aborts id (resume_init member_text id (Fulfilled conv) s) = aborts id s /\
  stage_of id (resume_init member_text id (Fulfilled conv) s) = Some AwaitRace.
Proof.
  intros Hc Hst Hcr Hv. unfold resume_init. rewrite Hc, Hst, Hv. cbv zeta. cbn [negb].
  set (c1 := set_conversion (Some conv) c).
  assert (cancelRequested c1 = true) as Hcr1 by done.
  assert (calls (set_call id c1 s) !! id = Some c1) as Hc1.
  { cbn [set_call calls]. by rewrite list_lookup_insert_eq by (by eapply lookup_lt_Some). }
  assert (cancel id (set_call id c1 s) = set_call id c1 s) as Hnoop.
  { unfold cancel. by rewrite Hc1, Hcr1. }
  rewrite Hcr1, Hnoop, Hc1. cbn [nullish]. split; [|split].
  - rewrite executes_set_call, executes_emit, executes_log, executes_set_call.
    rewrite Nat.eqb_refl. lia.
  - rewrite aborts_set_call, aborts_emit, aborts_log, aborts_set_call. lia.
  - unfold stage_of. cbn [set_call emit calls]. rewrite log_calls. cbn [set_call calls].
    rewrite list_lookup_insert_eq; [done|].
    rewrite length_insert. by eapply lookup_lt_Some.
Qed.

End EngineCalls.

(* ===================================================================== *)
(** ** The claims about the service *)
(* ===================================================================== *)

(** C9: once cancellation has been requested for a call, nothing more is
    relayed to its progress callback, whatever happens next; a progress
    value the engine delivers then leaves the service as it was. *)
Theorem progress_dropped_after_cancel
    (member_text : string -> string) (es later : list Service.event)
    (id : nat) (v : float) :
  Service.cancel_requested id (Service.run member_text es Service.init) ->
  Service.relayed id (Service.run member_text (es ++ later) Service.init)
  = Service.relayed id (Service.run member_text es Service.init) /\
  Service.step member_text (Service.EngineProgress id v)
    (Service.run member_text (es ++ later) Service.init)
  = Service.run member_text (es ++ later) Service.init.
Proof.
  intros H. rewrite run_app.
  pose proof (Inv_run member_text es _ Inv_init) as HI.
  split.
  - by apply relayed_run_cancelled.
  - apply engine_progress_dropped. by apply cancel_requested_run.
Qed.

Lemma progress_dropped_after_cancel_witness :
  let es := ServiceSpec.up_to_execute
            ++ [Service.EngineProgress 0 0.25%float; Service.CallCancelConversion] in
  let later := [Service.EngineProgress 0 0.5%float;
                Service.ExecuteSettled 0 (Service.Fulfilled (Some [x49]%byte));
                Service.RaceResumed 0] in
  Service.cancel_requested 0 (Service.run ServiceSpec.plain_text es Service.init) /\
  Service.relayed 0 (Service.run ServiceSpec.plain_text (es ++ later) Service.init)
  = [0%float; 0.25%float] /\
  Service.step ServiceSpec.plain_text (Service.EngineProgress 0 0.75%float)
    (Service.run ServiceSpec.plain_text (es ++ later) Service.init)
  = Service.run ServiceSpec.plain_text (es ++ later) Service.init.
Proof.
  cbv zeta.
  assert (Service.cancel_requested 0
            (Service.run ServiceSpec.plain_text
               (ServiceSpec.up_to_execute
                ++ [Service.EngineProgress 0 0.25%float; Service.CallCancelConversion])
               Service.init)) as H.
  { eexists. split; [vm_compute; reflexivity|reflexivity]. }
  split; [exact H|].
  exact (progress_dropped_after_cancel ServiceSpec.plain_text _
           [Service.EngineProgress 0 0.5%float;
            Service.ExecuteSettled 0 (Service.Fulfilled (Some [x49]%byte));
            Service.RaceResumed 0] 0 0.75%float H).
Defined.




Section CancelFacts.
Import Service ServiceSpec.

Lemma cancelConversion_again s :
  cancelConversion (cancelConversion s) = cancelConversion s.
Proof.
  unfold cancelConversion.
  destruct (activeCancel s) as [id|] eqn:Ha.
  - rewrite cancel_activeCancel, Ha. apply cancel_again.
  - by rewrite Ha.
Qed.

Lemma in_flight_armed s id c :
  calls s !! id = Some c -> armed (at_stage c) = true -> In id (in_flight s).
Proof.
  intros Hc Ha. unfold in_flight. apply filter_In. split.
  - apply in_seq. apply lookup_lt_Some in Hc. lia.
  - unfold stage_of. rewrite Hc. cbn. by destruct (at_stage c).
Qed.

Lemma idle_no_marker s : Inv s -> in_flight s = [] -> activeCancel s = None.
Proof.
  intros [Ha _] Hn. destruct (activeCancel s) as [id|] eqn:E; [|done].
  destruct (Ha id eq_refl) as (c & Hc & Harm).
  pose proof (in_flight_armed _ _ _ Hc Harm) as Hin. by rewrite Hn in Hin.
Qed.

End CancelFacts.

(** Where [cancelConversion] repeats without effect: called twice in a row
    it leaves the service, effects included, exactly as calling it once; a
    call that has ended is out of its reach (the marker never names it, its
    record and outcome stay as they are); when no call is in flight it does
    nothing at all; and the [cancel] closure of a call, once it has run,
    does nothing at any later time. *)
Lemma cancelConversion_repeated (member_text : string -> string) :
  (forall s, Service.cancelConversion (Service.cancelConversion s)
             = Service.cancelConversion s) /\
  (forall es id o,
     Service.stage_of id (Service.run member_text es Service.init)
       = Some (Service.Done o) ->
     Service.activeCancel (Service.run member_text es Service.init) <> Some id /\
     Service.calls (Service.cancelConversion (Service.run member_text es Service.init)) !! id
       = Service.calls (Service.run member_text es Service.init) !! id) /\
  (forall es,
     Service.in_flight (Service.run member_text es Service.init) = [] ->
     Service.cancelConversion (Service.run member_text es Service.init)
       = Service.run member_text es Service.init) /\
  (forall es later id,
     Service.cancel_requested id (Service.run member_text es Service.init) ->
     Service.cancel id (Service.run member_text (es ++ later) Service.init)
       = Service.run member_text (es ++ later) Service.init).
Proof.
  split; [apply cancelConversion_again|].
  split; [|split]; [| |intros es later id H; rewrite run_app;
    destruct (cancel_requested_run member_text later _ id
                (Inv_run member_text es _ Inv_init) H) as (c & Hc & Hcr);
    unfold Service.cancel; by rewrite Hc, Hcr].
  - intros es id o Hst.
    pose proof (Inv_run member_text es _ Inv_init) as [Ha _].
    assert (Service.activeCancel (Service.run member_text es Service.init) <> Some id) as Hne.
    { intros E. destruct (Ha id E) as (c & Hc & Harm).
      unfold Service.stage_of in Hst. rewrite Hc in Hst. injection Hst as Hst.
      by rewrite Hst in Harm. }
    split; [done|].
    unfold Service.cancelConversion.
    destruct (Service.activeCancel _) as [j|]; [|done].
    apply cancel_other. congruence.
  - intros es Hn. unfold Service.cancelConversion.
    by rewrite (idle_no_marker _ (Inv_run member_text es _ Inv_init) Hn).
Qed.

(** C6 (the code against the claim): [cancelConversion] repeats without
    effect when called twice in a row, once cancellation has been requested
    of the call in flight, and when no call is in flight. But while
    [this.activeCancel] is not set, it does nothing at all, whatever call is
    under way: a first request made while the file is loaded is lost, and a
    second one made when the engine executes then cancels the conversion,
    which the first alone did not: after the two requests the engine was
    told to abort and the call ends Cancelled; after the first alone it was
    not, and the call returns its result. *)
Theorem early_cancelConversion_is_lost :
  (forall s, Service.cancelConversion (Service.cancelConversion s)
             = Service.cancelConversion s) /\
  (forall member_text es later id,
     Service.cancel_requested id (Service.run member_text es Service.init) ->
     Service.cancel id (Service.run member_text (es ++ later) Service.init)
       = Service.run member_text (es ++ later) Service.init) /\
  (forall member_text es,
     Service.in_flight (Service.run member_text es Service.init) = [] ->
     Service.cancelConversion (Service.run member_text es Service.init)
       = Service.run member_text es Service.init) /\
  (forall s, Service.activeCancel s = None -> Service.cancelConversion s = s) /\
  let loading :=
    Service.run ServiceSpec.plain_text ServiceLaws.loading_the_file Service.init in
  let once :=
    Service.run ServiceSpec.plain_text ServiceLaws.on_to_execute
      (Service.cancelConversion loading) in
  let twice := Service.cancelConversion once in
  Service.in_flight loading = [0] /\
  Service.stage_of 0 loading = Some Service.AwaitArrayBuffer /\
  Service.cancelConversion loading = loading /\
  ~ Service.cancel_requested 0 once /\
  Service.cancel_requested 0 twice /\
  ServiceSpec.aborts 0 once = 0 /\
  ServiceSpec.aborts 0 twice = 1 /\
  (exists r,
     Service.stage_of 0
       (Service.run ServiceSpec.plain_text ServiceLaws.on_to_the_end once)
     = Some (Service.Done (Service.Returned r))) /\
  Service.stage_of 0
    (Service.run ServiceSpec.plain_text ServiceLaws.on_to_the_end twice)
  = Some (Service.Done (Service.Threw ServiceSpec.Cancelled)).
Proof.
  split; [apply cancelConversion_again|].
  split; [intros member_text; apply (cancelConversion_repeated member_text)|].
  split; [intros member_text; apply (cancelConversion_repeated member_text)|].
  split; [intros s Ha; unfold Service.cancelConversion; by rewrite Ha|].
  cbv zeta. split; [vm_compute; reflexivity|]. split; [vm_compute; reflexivity|].
  split; [vm_compute; reflexivity|]. split.
  { intros (c & Hc & Hcr). vm_compute in Hc. injection Hc as <-. discriminate Hcr. }
  split; [eexists; split; [vm_compute; reflexivity|reflexivity]|].
  split; [vm_compute; reflexivity|]. split; [vm_compute; reflexivity|].
  split; [eexists; vm_compute; reflexivity|vm_compute; reflexivity].
Qed.



(** C3 (the code against the claim): when the engine's [execute] succeeds
    and the output buffer is absent, [convert] fails with EmptyOutput
    (unless cancellation was requested, which comes first); but the check
    is [if (!buffer)], and a buffer of zero bytes passes it: whatever
    buffer the engine left is returned as the payload, byte for byte, and
    on the run where the engine leaves a buffer of zero bytes [convert]
    returns a result whose payload is empty, not EmptyOutput. *)
Theorem empty_buffer_is_returned :
  (forall member_text s id c spec,
     Service.calls s !! id = Some c ->
     Service.at_stage c = Service.AwaitRace ->
     Registry.spec_of (Service.formatId c) = Some spec ->
     Service.cancelRequested c = false ->
     Service.race c = Some (Service.ExecuteWon (Service.Fulfilled None)) ->
     Service.stage_of id (Service.step member_text (Service.RaceResumed id) s)
       = Some (Service.Done (Service.Threw ServiceSpec.EmptyOutput))) /\
  (forall member_text s id c spec buf,
     Service.calls s !! id = Some c ->
     Service.at_stage c = Service.AwaitRace ->
     Registry.spec_of (Service.formatId c) = Some spec ->
     Service.cancelRequested c = false ->
     Service.race c = Some (Service.ExecuteWon (Service.Fulfilled (Some buf))) ->
     exists r,
       Service.stage_of id (Service.step member_text (Service.RaceResumed id) s)
         = Some (Service.Done (Service.Returned r)) /\
       Service.blob_bytes (Service.blob r) = buf) /\
  (forall member_text es id r,
     Service.stage_of id (Service.run member_text es Service.init)
       = Some (Service.Done (Service.Returned r)) ->
     exists c buf,
       Service.calls (Service.run member_text es Service.init) !! id = Some c /\
       Service.race c = Some (Service.ExecuteWon (Service.Fulfilled (Some buf))) /\
       Service.blob_bytes (Service.blob r) = buf) /\
  let s := Service.run ServiceSpec.plain_text
             (ServiceSpec.up_to_execute
              ++ [Service.ExecuteSettled 0 (Service.Fulfilled (Some []));
                  Service.RaceResumed 0]) Service.init in
  exists r,
    Service.stage_of 0 s = Some (Service.Done (Service.Returned r)) /\
    Service.blob_bytes (Service.blob r) = [] /\
    Service.stage_of 0 s <> Some (Service.Done (Service.Threw ServiceSpec.EmptyOutput)).
Proof.
  split; [|split; [|split]].
  - intros member_text s id c spec Hc Hst Hs Hcr Hr.
    cbn [Service.step]. unfold Service.resume_race, Service.stage_of.
    rewrite Hc, Hst, Hr, (lookup_entry _ _ Hs), Hcr.
    cbn [Service.finish Service.emit Service.set_activeCancel Service.set_call Service.calls].
    rewrite list_lookup_insert_eq by (by eapply lookup_lt_Some). done.
  - intros member_text s id c spec buf Hc Hst Hs Hcr Hr.
    cbn [Service.step]. unfold Service.resume_race, Service.stage_of.
    rewrite Hc, Hst, Hr, (lookup_entry _ _ Hs), Hcr.
    cbn [Service.finish Service.emit Service.set_activeCancel Service.set_call Service.calls].
    rewrite log_calls, progress_calls.
    rewrite list_lookup_insert_eq by (by eapply lookup_lt_Some).
    eexists. split; [reflexivity|done].
  - intros member_text es id r H. destruct (returned_result member_text es id r H)
      as (c & Hc & spec & buf & Hs & Hr & ->).
    by exists c, buf.
  - cbv zeta. eexists. split; [vm_compute; reflexivity|]. split; [reflexivity|].
    intros H. vm_compute in H. discriminate H.
Qed.

(** The absent buffer on a run: the engine fulfils [execute] and leaves
    [target.buffer] null. *)
Example absent_buffer_run :
  Service.stage_of 0
    (Service.run ServiceSpec.plain_text
       (ServiceSpec.up_to_execute
        ++ [Service.ExecuteSettled 0 (Service.Fulfilled None); Service.RaceResumed 0])
       Service.init)
  = Some (Service.Done (Service.Threw ServiceSpec.EmptyOutput)).
Proof. reflexivity. Qed.

(** C1 (the code against the claim): while [this.activeCancel] is set, a
    call of [convert] ends at once with Busy and touches nothing else; while
    it is not set, a call for a catalog format passes the entry check,
    whatever other calls are under way; and the marker is only set after two
    [await]s, so a second call made before that passes the entry check too,
    and both calls run the engine at the same time. *)
Theorem convert_entry_check_not_atomic :
  (forall member_text s id f fmt cb,
     Service.activeCancel s = Some id ->
     Service.step member_text (Service.CallConvert f fmt cb) s
     = Service.mkState (Service.activeCancel s) (Service.registry s)
         (Service.calls s
          ++ [Service.mkCall f fmt cb
                (Service.Done (Service.Threw ServiceSpec.Busy))
                [] None false false false false None])
         (Service.effects s)) /\
  (forall member_text s f fmt cb spec,
     Service.activeCancel s = None ->
     Registry.spec_of fmt = Some spec ->
     Service.stage_of (length (Service.calls s))
       (Service.step member_text (Service.CallConvert f fmt cb) s)
     = Some (Service.AwaitSupport
               (fst (Registry.isFormatSupported (Service.registry s) fmt)))) /\
  let s := Service.run ServiceSpec.plain_text
             [ Service.CallConvert ServiceSpec.clip "mp3" ServiceSpec.both_callbacks;
               Service.CallConvert ServiceSpec.other_clip "mp3" ServiceSpec.both_callbacks ]
             Service.init in
  Service.in_flight s = [0; 1] /\
  let s' := Service.run ServiceSpec.plain_text
              [ Service.SupportResumed 0; Service.SupportResumed 1;
                Service.ArrayBufferSettled 0 (Service.Fulfilled [x00]%byte);
                Service.ArrayBufferSettled 1 (Service.Fulfilled [x1a]%byte);
                Service.GetFormatSettled 0 (Service.Fulfilled ServiceSpec.mp4);
                Service.GetFormatSettled 1 (Service.Fulfilled ServiceSpec.mp4);
                Service.InitSettled 0 (Service.Fulfilled ServiceSpec.valid_plan);
                Service.InitSettled 1 (Service.Fulfilled ServiceSpec.valid_plan) ] s in
  map Service.at_stage (Service.calls s') = [Service.AwaitRace; Service.AwaitRace] /\
  ServiceSpec.executes 0 s' = 1 /\ ServiceSpec.executes 1 s' = 1 /\
  Service.in_flight s' = [0; 1].
Proof.
  split; [|split].
  - intros member_text s id f fmt cb Ha. cbn [Service.step].
    unfold Service.convert. by rewrite Ha.
  - intros member_text s f fmt cb spec Ha Hs. cbn [Service.step].
    unfold Service.convert, Service.stage_of. rewrite Ha, (lookup_entry _ _ Hs).
    destruct (Registry.isFormatSupported _ _) as [p reg]. cbn [Service.calls fst].
    by rewrite list_lookup_middle.
  - cbv zeta. repeat split; reflexivity.
Qed.

(** C2 (the code against the claim): when cancellation was requested
    before [Conversion.init] returns and the plan is valid, the guard before
    the execution calls [cancel()] again, which returns at once: the
    engine's [execute] is started all the same and its [cancel] is not
    called. On the run where cancellation is requested while the container
    is being detected, the engine is started, never aborted, and the call
    then ends Cancelled. *)
Theorem early_cancel_still_executes :
  (forall member_text s id c conv,
     Service.calls s !! id = Some c ->
     Service.at_stage c = Service.AwaitInit ->
     Service.cancelRequested c = true ->
     Service.isValid conv = true ->
     let s' := Service.step member_text
                 (Service.InitSettled id (Service.Fulfilled conv)) s in
     ServiceSpec.executes id s' = S (ServiceSpec.executes id s) /\
     ServiceSpec.aborts id s' = ServiceSpec.aborts id s /\
     Service.stage_of id s' = Some Service.AwaitRace) /\
  let before := Service.run ServiceSpec.plain_text
                  [ Service.CallConvert ServiceSpec.clip "mp3" ServiceSpec.both_callbacks;
                    Service.SupportResumed 0;
                    Service.ArrayBufferSettled 0 (Service.Fulfilled [x00]%byte);
                    Service.CallCancelConversion;
                    Service.GetFormatSettled 0 (Service.Fulfilled ServiceSpec.mp4) ]
                  Service.init in
  let s := Service.step ServiceSpec.plain_text
             (Service.InitSettled 0 (Service.Fulfilled ServiceSpec.valid_plan)) before in
  Service.stage_of 0 before = Some Service.AwaitInit /\
  ServiceSpec.executes 0 before = 0 /\
  Service.cancel_requested 0 before /\
  ServiceSpec.executes 0 s = 1 /\
  ServiceSpec.aborts 0 s = 0 /\
  Service.stage_of 0 (Service.step ServiceSpec.plain_text (Service.RaceResumed 0) s)
    = Some (Service.Done (Service.Threw ServiceSpec.Cancelled)).
Proof.
  split.
  - intros member_text s id c conv Hc Hst Hcr Hv. cbv zeta. cbn [Service.step].
    by apply (resume_init_after_cancel member_text s id c).
  - cbv zeta. repeat split; try reflexivity.
    eexists. split; [vm_compute; reflexivity|reflexivity].
Qed.

(* ===================================================================== *)
(** ** The engine protocol along a run *)
(* ===================================================================== *)

Section ProtocolFacts.
Import Service ServiceSpec ServiceLaws.

Lemma follow_app id l1 l2 x : follow id (l1 ++ l2) x = follow id l2 (follow id l1 x).
Proof. unfold follow. apply fold_left_app. Qed.

Lemma follow_none id l : follow id l None = None.
Proof. induction l as [|e l IH]; [done|]. cbn. apply IH. Qed.

Lemma engine_phase_emit id e s :
  engine_phase id (emit e s) = engine_phase id s ≫= advance id e.
Proof. unfold engine_phase. cbn [emit effects]. by rewrite follow_app. Qed.

Lemma bind_some (x : option phase) : x ≫= Some = x.
Proof. by destruct x. Qed.

Lemma engine_phase_log id j c m s : engine_phase id (log j c m s) = engine_phase id s.
Proof.
  unfold log. destruct (onLog _); [|done].
  rewrite engine_phase_emit. apply bind_some.
Qed.

Lemma engine_phase_progress id j c v s :
  engine_phase id (progress j c v s) = engine_phase id s.
Proof.
  unfold progress. destruct (onProgress _); [|done].
  rewrite engine_phase_emit. apply bind_some.
Qed.

Lemma engine_phase_set_call id j c s :
  engine_phase id (set_call j c s) = engine_phase id s.
Proof. done. Qed.

Lemma engine_phase_set_activeCancel id v s :
  engine_phase id (set_activeCancel v s) = engine_phase id s.
Proof. done. Qed.

Lemma engine_phase_finish id j c o s :
  engine_phase id (finish j c o s) = engine_phase id s ≫= advance id (InputDispose j).
Proof. unfold finish. by rewrite engine_phase_emit. Qed.

(** An effect on another call leaves the phase alone. *)
Lemma advance_other id e x : about e <> id -> x ≫= advance id e = x.
Proof.
  intros H. destruct x as [ph|]; [|done]. cbn.
  destruct e; cbn in *; try done;
    by rewrite (proj2 (Nat.eqb_neq _ _) H).
Qed.

Ltac other_call Hne :=
  repeat first
    [ rewrite engine_phase_set_call
    | rewrite engine_phase_set_activeCancel
    | rewrite engine_phase_log
    | rewrite engine_phase_progress
    | rewrite engine_phase_finish
    | rewrite engine_phase_emit
    | rewrite advance_other by exact Hne ].

Lemma engine_phase_cancel_other id j s :
  j <> id -> engine_phase id (cancel j s) = engine_phase id s.
Proof.
  intros Hne. unfold cancel. repeat case_match; try done; by other_call Hne.
Qed.

Ltac calls_norm :=
  repeat (rewrite ?log_calls, ?progress_calls;
          cbn [finish set_call emit set_activeCancel calls]).

Ltac phase_norm :=
  repeat first
    [ rewrite engine_phase_set_call
    | rewrite engine_phase_set_activeCancel
    | rewrite engine_phase_log
    | rewrite engine_phase_progress
    | rewrite engine_phase_finish
    | rewrite engine_phase_emit ].

(** The calls a segment on call [j] does not touch. *)
Ltac frame HS id j Hne :=
  specialize (HS id); calls_norm; rewrite list_lookup_insert_ne by done;
  other_call Hne; exact HS.

(** The phase call [j] was in, by its stage. *)
Ltac this_phase HS j Hc Hst ph Hph Hfit :=
  pose proof (HS j) as Hfit; rewrite Hc in Hfit;
  destruct Hfit as (ph & Hph & Hfit);
  destruct ph; cbn [fits] in Hfit; rewrite ?Hst in Hfit;
  try done; try (by destruct Hfit).

Ltac new_phase Hc Hph :=
  calls_norm; rewrite list_lookup_insert_eq by (by eapply lookup_lt_Some);
  phase_norm; rewrite Hph; cbn; rewrite ?Nat.eqb_refl;
  eexists; (split; [reflexivity|]); cbn.

Lemma in_step_init : in_step init.
Proof. intros id. done. Qed.

Lemma in_step_same s s' :
  calls s' = calls s -> effects s' = effects s -> in_step s -> in_step s'.
Proof.
  intros Hc He HS id. specialize (HS id).
  unfold engine_phase in *. by rewrite Hc, He.
Qed.

Lemma in_step_convert f fmt cb s : in_step s -> in_step (convert f fmt cb s).
Proof.
  intros HS.
  assert (forall reg st, armed st = false ->
    in_step (mkState (activeCancel s) reg
               (calls s ++ [mkCall f fmt cb st [] None false false false false None])
               (effects s))) as Hnew.
  { intros reg st Hst id. specialize (HS id). cbn [calls].
    change (engine_phase id (mkState (activeCancel s) reg
              (calls s ++ [mkCall f fmt cb st [] None false false false false None])
              (effects s))) with (engine_phase id s).
    destruct (calls s !! id) as [c|] eqn:Hc.
    - by rewrite (lookup_app_l_Some _ _ _ _ Hc).
    - apply lookup_ge_None in Hc.
      destruct (decide (id = length (calls s))) as [->|Hne].
      + rewrite list_lookup_middle by done. by exists NotOpened.
      + rewrite lookup_ge_None_2; [done|]. rewrite length_app. cbn. lia. }
  unfold convert. destruct (activeCancel s); [by apply Hnew|].
  destruct (Registry.lookup fmt); try (by apply Hnew);
    destruct (Registry.isFormatSupported _ _); by apply Hnew.
Qed.

Lemma in_step_resume_support j s : in_step s -> in_step (resume_support j s).
Proof.
  intros HS. unfold resume_support.
  destruct (calls s !! j) as [c|] eqn:Hc; [|done].
  destruct (at_stage c) eqn:Hst; try done.
  destruct (Registry.value _ _) as [[]|]; [| |done]; intros id;
    (destruct (decide (j = id)) as [<-|Hne]; [|by frame HS id j Hne]);
    this_phase HS j Hc Hst ph Hph Hfit.
  - new_phase Hc Hph. done.
  - new_phase Hc Hph. done.
Qed.

Lemma in_step_resume_arrayBuffer j r s : in_step s -> in_step (resume_arrayBuffer j r s).
Proof.
  intros HS. unfold resume_arrayBuffer.
  destruct (calls s !! j) as [c|] eqn:Hc; [|done].
  destruct (at_stage c) eqn:Hst; try done.
  destruct r as [copy|e]; [destruct (Registry.lookup _)|]; intros id;
    (destruct (decide (j = id)) as [<-|Hne]; [|by frame HS id j Hne]);
    this_phase HS j Hc Hst ph Hph Hfit; new_phase Hc Hph; done.
Qed.

Lemma in_step_resume_getFormat j r s : in_step s -> in_step (resume_getFormat j r s).
Proof.
  intros HS. unfold resume_getFormat.
  destruct (calls s !! j) as [c|] eqn:Hc; [|done].
  destruct (at_stage c) eqn:Hst; try done.
  destruct r as [fmt|e]; intros id;
    (destruct (decide (j = id)) as [<-|Hne]; [|by frame HS id j Hne]);
    this_phase HS j Hc Hst ph Hph Hfit.
  - new_phase Hc Hph. by destruct Hfit.
  - new_phase Hc Hph. done.
Qed.

Lemma in_step_execute_settled j r s : in_step s -> in_step (execute_settled j r s).
Proof.
  intros HS. unfold execute_settled.
  destruct (calls s !! j) as [c|] eqn:Hc; [|done].
  destruct (at_stage c) eqn:Hst; try done.
  destruct (race c); [done|]. intros id.
  destruct (decide (j = id)) as [<-|Hne]; [|by frame HS id j Hne].
  pose proof (HS j) as Hfit. rewrite Hc in Hfit.
  destruct Hfit as (ph & Hph & Hfit).
  calls_norm. rewrite list_lookup_insert_eq by (by eapply lookup_lt_Some).
  exists ph. split; [done|]. by destruct ph.
Qed.

Lemma in_step_engine_progress j v s : in_step s -> in_step (engine_progress j v s).
Proof.
  intros HS. unfold engine_progress. repeat case_match; try done.
  intros id. specialize (HS id). by rewrite progress_calls, engine_phase_progress.
Qed.

Lemma in_step_resume_race j s : in_step s -> in_step (resume_race j s).
Proof.
  intros HS. unfold resume_race.
  destruct (calls s !! j) as [c|] eqn:Hc; [|done].
  destruct (at_stage c) eqn:Hst; try done.
  assert (forall o s', calls s' = calls s -> engine_phase j s' = engine_phase j s ->
            (forall id, j <> id -> engine_phase id s' = engine_phase id s) ->
            in_step (finish j c o s')) as Hfin.
  { intros o s' Hcs Hj Ho id.
    destruct (decide (j = id)) as [<-|Hne].
    - pose proof (HS j) as Hfit. rewrite Hc in Hfit.
      destruct Hfit as (ph & Hph & Hfit).
      cbn [finish emit set_activeCancel set_call calls]. rewrite Hcs.
      rewrite list_lookup_insert_eq by (by eapply lookup_lt_Some).
      rewrite engine_phase_finish, Hj, Hph.
      destruct ph; cbn [fits] in Hfit; rewrite ?Hst in Hfit;
        try done; try (by destruct Hfit);
        cbn; rewrite Nat.eqb_refl; by eexists.
    - specialize (HS id).
      cbn [finish emit set_activeCancel set_call calls]. rewrite Hcs.
      rewrite list_lookup_insert_ne by done.
      rewrite engine_phase_finish, (Ho id Hne), advance_other by exact Hne.
      exact HS. }
  destruct (race c) as [[[buffer|e]|]|]; try done; try (by apply Hfin).
  destruct (Registry.lookup _); [|done..].
  destruct (cancelRequested c); [by apply Hfin|].
  destruct buffer; [|by apply Hfin].
  apply Hfin.
  - by rewrite log_calls, progress_calls.
  - by rewrite engine_phase_log, engine_phase_progress.
  - intros. by rewrite engine_phase_log, engine_phase_progress.
Qed.

Lemma in_step_cancel j s c :
  calls s !! j = Some c -> armed (at_stage c) = true ->
  in_step s -> in_step (cancel j s).
Proof.
  intros Hc Harm HS id.
  destruct (decide (j = id)) as [<-|Hne].
  2:{ specialize (HS id). by rewrite cancel_other, engine_phase_cancel_other. }
  pose proof (HS j) as Hfit. rewrite Hc in Hfit.
  destruct Hfit as (ph & Hph & Hfit).
  unfold cancel. rewrite Hc.
  destruct (cancelRequested c) eqn:Hcr.
  { rewrite Hc. by exists ph. }
  assert (armed (at_stage c) = true -> terminal (at_stage c) = false) as Hnt
    by (by destruct (at_stage c)).
  destruct (conversion c) as [conv|] eqn:Hconv.
  - destruct ph; cbn [fits] in Hfit.
    + congruence.
    + destruct Hfit; congruence.
    + destruct Hfit; congruence.
    + destruct Hfit as [Hst _]. new_phase Hc Hph. by rewrite Hst.
    + destruct Hfit; congruence.
    + rewrite Hnt in Hfit; done.
  - calls_norm. rewrite list_lookup_insert_eq by (by eapply lookup_lt_Some).
    phase_norm. exists ph. split; [done|].
    destruct ph; cbn [fits] in *; cbn; try done.
    + by destruct Hfit.
    + by destruct Hfit.
    + destruct Hfit; congruence.
    + destruct Hfit; congruence.
Qed.

Lemma in_step_cancelConversion s : Inv s -> in_step s -> in_step (cancelConversion s).
Proof.
  intros [Ha _] HS. unfold cancelConversion.
  destruct (activeCancel s) as [j|] eqn:E; [|done].
  destruct (Ha j eq_refl) as (c & Hc & Harm). by apply (in_step_cancel _ _ c).
Qed.

Section Rendering.
Variable member_text : string -> string.

Lemma in_step_resume_init j r s : in_step s -> in_step (resume_init member_text j r s).
Proof.
  intros HS. unfold resume_init.
  destruct (calls s !! j) as [c|] eqn:Hc; [|done].
  destruct (at_stage c) eqn:Hst; try done.
  assert (forall o c1, in_step (finish j c1 o s)) as Hfin.
  { intros o c1 id. destruct (decide (j = id)) as [<-|Hne]; [|by frame HS id j Hne].
    this_phase HS j Hc Hst ph Hph Hfit. new_phase Hc Hph. done. }
  destruct r as [conv|e]; [|by apply Hfin].
  destruct (negb (isValid conv)).
  { destruct (discardedTracks conv); by apply Hfin. }
  set (c1 := set_conversion (Some conv) c).
  set (s1 := set_call j c1 s).
  assert (calls s1 !! j = Some c1) as Hc1.
  { cbn [s1 set_call calls]. apply list_lookup_insert_eq. by eapply lookup_lt_Some. }
  (* the guard: [cancel] runs only when it returns at once *)
  assert ((if cancelRequested c1 then cancel j s1 else s1) = s1) as ->.
  { destruct (cancelRequested c1) eqn:Hcr; [|done]. unfold cancel. by rewrite Hc1, Hcr. }
  rewrite Hc1. cbn [nullish]. clear Hc1. subst s1 c1. intros id.
  destruct (decide (j = id)) as [<-|Hne].
  - this_phase HS j Hc Hst ph Hph Hfit.
    calls_norm. rewrite list_lookup_insert_eq
      by (rewrite length_insert; by eapply lookup_lt_Some).
    phase_norm. rewrite Hph. cbn.
    rewrite Nat.eqb_refl. eexists. split; [reflexivity|]. by cbn.
  - specialize (HS id). calls_norm. rewrite !list_lookup_insert_ne by done.
    other_call Hne. exact HS.
Qed.

Lemma in_step_step e s : Inv s -> in_step s -> in_step (step member_text e s).
Proof.
  intros HI HS. destruct e; cbn [step].
  - by apply in_step_convert.
  - by apply in_step_cancelConversion.
  - by apply (in_step_same s).
  - by apply in_step_resume_support.
  - by apply in_step_resume_arrayBuffer.
  - by apply in_step_resume_getFormat.
  - by apply in_step_resume_init.
  - by apply in_step_engine_progress.
  - by apply in_step_execute_settled.
  - by apply in_step_resume_race.
Qed.

Lemma in_step_run es : forall s, Inv s -> in_step s -> in_step (run member_text es s).
Proof.
  induction es as [|e es IH]; intros s HI HS; [done|].
  rewrite run_cons. apply IH; [by apply Inv_step|by apply in_step_step].
Qed.

End Rendering.

End ProtocolFacts.

(** X1: along every run, the engine objects of each call are driven in
    order: the format is detected first, then the conversion is planned,
    then executed; the engine's [cancel] is called at most once and only
    while executing; the input is disposed last. A call that has ended has
    either never opened its input or has disposed it; a call inside the
    [try] block holds it undisposed. *)
Theorem engine_driven_in_order
    (member_text : string -> string) (es : list Service.event) (id : nat) :
  match Service.calls (Service.run member_text es Service.init) !! id with
  | Some c =>
      exists ph,
        ServiceLaws.engine_phase id (Service.run member_text es Service.init) = Some ph /\
        ServiceLaws.fits ph c /\
        (Service.terminal (Service.at_stage c) = true ->
         ph = ServiceLaws.NotOpened \/ ph = ServiceLaws.Released) /\
        (ServiceSpec.armed (Service.at_stage c) = true ->
         ph <> ServiceLaws.NotOpened /\ ph <> ServiceLaws.Released)
  | None =>
      ServiceLaws.engine_phase id (Service.run member_text es Service.init)
      = Some ServiceLaws.NotOpened
  end.
Proof.
  pose proof (in_step_run member_text es _ Inv_init in_step_init id) as H.
  destruct (Service.calls _ !! id) as [c|]; [|done].
  destruct H as (ph & Hph & Hfit). exists ph.
  split; [done|]. split; [done|]. split.
  - intros Ht. destruct ph; cbn in Hfit; auto;
      destruct Hfit as [Hst _]; by rewrite Hst in Ht.
  - intros Ha. split; intros ->; cbn in Hfit.
    + congruence.
    + by destruct (Service.at_stage c).
Qed.


(* ===================================================================== *)
(** ** Counting the engine's operations *)
(* ===================================================================== *)

Section CountFacts.
Import Service ServiceSpec ServiceLaws.

Lemma advance_rank id e ph ph' : advance id e ph = Some ph' -> rank ph <= rank ph'.
Proof.
  destruct e; cbn; try (intros [= <-]; lia);
    destruct (_ =? id); try (intros [= <-]; lia);
    destruct ph; intros [= <-]; cbn; lia.
Qed.

Lemma follow_cons id e l ph :
  follow id (e :: l) (Some ph) = follow id l (advance id e ph).
Proof. done. Qed.

(** Past a phase, the operation that leads to it cannot come again. *)
Lemma follow_count id (p : effect -> bool) (limit : nat) :
  (forall e ph ph', p e = true -> advance id e ph = Some ph' ->
                    rank ph <= limit /\ limit < rank ph') ->
  forall l ph ph',
    follow id l (Some ph) = Some ph' ->
    count p l <= (if rank ph <=? limit then 1 else 0).
Proof.
  intros Hp. induction l as [|e l IH]; intros ph ph' H.
  - cbn. destruct (_ <=? _); lia.
  - rewrite follow_cons in H.
    destruct (advance id e ph) as [ph1|] eqn:A; [|by rewrite follow_none in H].
    specialize (IH _ _ H). pose proof (advance_rank _ _ _ _ A) as Hr.
    unfold count in *. cbn [List.filter].
    destruct (p e) eqn:E.
    + destruct (Hp _ _ _ E A) as [H1 H2]. cbn [length].
      rewrite (proj2 (Nat.leb_le _ _) H1).
      destruct (rank ph1 <=? limit) eqn:L; [apply Nat.leb_le in L; lia|lia].
    + destruct (rank ph1 <=? limit) eqn:L.
      * apply Nat.leb_le in L. rewrite (proj2 (Nat.leb_le (rank ph) limit)) by lia. done.
      * destruct (_ <=? _); lia.
Qed.

Lemma follow_abort_after_execute id : forall l ph ph',
  follow id l (Some ph) = Some ph' ->
  rank ph <= 2 ->
  count (is_abort id) l <= count (is_execute id) l.
Proof.
  induction l as [|e l IH]; intros ph ph' H Hr; [done|].
  rewrite follow_cons in H.
  destruct (advance id e ph) as [ph1|] eqn:A; [|by rewrite follow_none in H].
  unfold count in *. cbn [List.filter].
  destruct (is_execute id e) eqn:E.
  - assert (is_abort id e = false) as -> by (by destruct e).
    cbn [length].
    assert (count (is_abort id) l <= 1); [|unfold count in *; lia].
    eapply Nat.le_trans; [eapply (follow_count id (is_abort id) 3); [|exact H]|].
    + intros e' p1 p2 He' Ha'. destruct e'; try done. cbn in *. rewrite He' in Ha'.
      destruct p1; try done. injection Ha' as <-. cbn. lia.
    + destruct (_ <=? _); lia.
  - destruct (is_abort id e) eqn:B.
    + destruct e; try done. cbn in *. rewrite B in A. destruct ph; try done. cbn in Hr. lia.
    + destruct (le_gt_dec (rank ph1) 2) as [L|L]; [by apply (IH ph1 ph')|].
      assert (count (is_abort id) l = 0) as Hz; [|unfold count in *; lia].
      assert (rank ph1 = 5) as R5.
      { destruct e as [i m|i v|i|i|i|i|i|i]; cbn in A, E, B;
          try (injection A as <-; lia);
          destruct (i =? id); try done; try (injection A as <-; lia);
          destruct ph; try done; injection A as <-; cbn in *; lia. }
      pose proof (follow_count id (is_abort id) 3) as Hc.
      specialize (Hc ltac:(intros e' p1 p2 He' Ha'; destruct e'; try done; cbn in *;
                           rewrite He' in Ha'; destruct p1; try done;
                           injection Ha' as <-; cbn; lia) l ph1 ph' H).
      rewrite R5 in Hc. cbn in Hc. lia.
Qed.

End CountFacts.

(** X2: along every run and for every call, the engine's [execute] is
    started at most once, its [cancel] is called at most once and never
    without [execute] having been started, and the input is disposed at
    most once. *)
Theorem engine_operations_at_most_once
    (member_text : string -> string) (es : list Service.event) (id : nat) :
  ServiceSpec.executes id (Service.run member_text es Service.init) <= 1 /\
  ServiceSpec.aborts id (Service.run member_text es Service.init) <= 1 /\
  ServiceLaws.disposes id (Service.run member_text es Service.init) <= 1 /\
  ServiceSpec.aborts id (Service.run member_text es Service.init)
  <= ServiceSpec.executes id (Service.run member_text es Service.init).
Proof.
  set (s := Service.run member_text es Service.init).
  assert (exists ph, ServiceLaws.engine_phase id s = Some ph) as [ph Hph].
  { pose proof (in_step_run member_text es _ Inv_init in_step_init id) as H.
    fold s in H. destruct (Service.calls s !! id); [|by eauto].
    destruct H as (ph & H & _). eauto. }
  unfold ServiceLaws.engine_phase in Hph.
  change (ServiceSpec.executes id s)
    with (ServiceLaws.count (ServiceLaws.is_execute id) (Service.effects s)).
  change (ServiceSpec.aborts id s)
    with (ServiceLaws.count (ServiceLaws.is_abort id) (Service.effects s)).
  unfold ServiceLaws.disposes.
  split; [|split; [|split]].
  - apply (follow_count id (ServiceLaws.is_execute id) 2 ltac:(
      intros e p1 p2 He Ha; destruct e; try done; cbn in *; rewrite He in Ha;
      destruct p1; try done; injection Ha as <-; cbn; lia) _ _ _ Hph).
  - apply (follow_count id (ServiceLaws.is_abort id) 3 ltac:(
      intros e p1 p2 He Ha; destruct e; try done; cbn in *; rewrite He in Ha;
      destruct p1; try done; injection Ha as <-; cbn; lia) _ _ _ Hph).
  - apply (follow_count id (ServiceLaws.is_dispose id) 4 ltac:(
      intros e p1 p2 He Ha; destruct e; try done; cbn in *; rewrite He in Ha;
      destruct p1; try done; injection Ha as <-; cbn; lia) _ _ _ Hph).
  - apply (follow_abort_after_execute id _ _ _ Hph). cbn. lia.
Qed.

(* ===================================================================== *)
(** ** Comparisons of binary64 numbers and the clamp *)
(* ===================================================================== *)

Section FloatFacts.

Lemma SFcompare_antisym x y :
  SFcompare y x = option_map CompOpp (SFcompare x y).
Proof.
  destruct x as [sx|sx| |sx mx e1], y as [sy|sy| |sy my e2]; cbn;
    try done; try (by destruct sx); try (by destruct sy); try (by destruct sx, sy).
  rewrite (Z.compare_antisym e1 e2).
  pose proof (Pos.compare_cont_antisym mx my Eq) as P. cbn [CompOpp] in P.
  destruct sx, sy; cbn; try done;
    destruct (e1 ?= e2)%Z; cbn; try done; rewrite <- P; try done.
Qed.

Lemma is_nan_false x : is_nan x = false -> Prim2SF x <> S754_nan.
Proof.
  unfold is_nan. rewrite FloatAxioms.eqb_spec. intros H E. rewrite E in H. done.
Qed.

Lemma SFcompare_total x y :
  x <> S754_nan -> y <> S754_nan -> exists c, SFcompare x y = Some c.
Proof.
  destruct x as [sx|sx| |sx mx e1], y as [sy|sy| |sy my e2]; cbn; try done; eauto.
Qed.

Lemma ltb_leb x y : PrimFloat.ltb x y = true -> PrimFloat.leb x y = true.
Proof.
  rewrite ltb_spec, leb_spec. unfold SFltb, SFleb.
  by destruct (SFcompare _ _) as [[]|].
Qed.

Lemma not_ltb_leb x y :
  is_nan x = false -> is_nan y = false ->
  PrimFloat.ltb y x = false -> PrimFloat.leb x y = true.
Proof.
  intros Hx%is_nan_false Hy%is_nan_false.
  rewrite ltb_spec, leb_spec. unfold SFltb, SFleb.
  rewrite (SFcompare_antisym (Prim2SF x) (Prim2SF y)).
  destruct (SFcompare_total _ _ Hx Hy) as [c ->]. by destruct c.
Qed.

Lemma clamp_nan v : is_nan v = true -> JsMath.clamp v = nan.
Proof.
  intros H. unfold JsMath.clamp, JsMath.max. rewrite H. reflexivity.
Qed.

Lemma clamp_range v :
  is_nan v = false -> JsMathSpec.in_unit_interval (JsMath.clamp v) = true.
Proof.
  intros Hv. unfold JsMath.clamp.
  assert (exists m, JsMath.max v 0 = m /\
            (m = 0%float \/ (m = v /\ PrimFloat.ltb v 0 = false))) as (m & -> & Hm).
  { unfold JsMath.max. rewrite Hv. cbn [orb].
    change (is_nan 0) with false. cbv iota.
    destruct (PrimFloat.ltb v 0) eqn:A; [eauto|].
    destruct (PrimFloat.ltb 0 v); [eauto|].
    destruct (JsMath.is_negative_zero v); eauto. }
  destruct Hm as [->|[-> A]]; [reflexivity|].
  unfold JsMath.min. rewrite Hv. change (is_nan 1) with false. cbn [orb]. cbv iota.
  assert (PrimFloat.leb 0 v = true) as H0 by (by apply not_ltb_leb).
  destruct (PrimFloat.ltb v 1) eqn:B.
  { unfold JsMathSpec.in_unit_interval. by rewrite H0, (ltb_leb _ _ B). }
  destruct (PrimFloat.ltb 1 v) eqn:C; [reflexivity|].
  destruct (JsMath.is_negative_zero v); [|reflexivity].
  unfold JsMathSpec.in_unit_interval. rewrite H0. by rewrite not_ltb_leb.
Qed.

Lemma SFcompare_refl x : x <> S754_nan -> SFcompare x x = Some Eq.
Proof.
  destruct x as [sx|sx| |sx mx e1]; cbn; try done; try (by destruct sx).
  intros _. rewrite Z.compare_refl, Pos.compare_cont_refl. by destruct sx.
Qed.

Lemma SFcompare_not_nan x y c :
  SFcompare x y = Some c -> x <> S754_nan /\ y <> S754_nan.
Proof. destruct x, y; cbn; try done. Qed.

Lemma not_nan_is_nan x : Prim2SF x <> S754_nan -> is_nan x = false.
Proof.
  intros H. unfold is_nan. rewrite FloatAxioms.eqb_spec. unfold SFeqb.
  by rewrite SFcompare_refl.
Qed.

Lemma ltb_not_nan x y :
  PrimFloat.ltb x y = true -> is_nan x = false /\ is_nan y = false.
Proof.
  rewrite ltb_spec. unfold SFltb.
  destruct (SFcompare _ _) as [c|] eqn:E; [|done]. intros _.
  destruct (SFcompare_not_nan _ _ _ E). split; by apply not_nan_is_nan.
Qed.

Lemma leb_not_nan x y :
  PrimFloat.leb x y = true -> is_nan x = false /\ is_nan y = false.
Proof.
  rewrite leb_spec. unfold SFleb.
  destruct (SFcompare _ _) as [c|] eqn:E; [|done]. intros _.
  destruct (SFcompare_not_nan _ _ _ E). split; by apply not_nan_is_nan.
Qed.

Lemma ltb_antisym x y : PrimFloat.ltb x y = true -> PrimFloat.ltb y x = false.
Proof.
  rewrite !ltb_spec. unfold SFltb.
  rewrite (SFcompare_antisym (Prim2SF x) (Prim2SF y)).
  by destruct (SFcompare _ _) as [[]|].
Qed.

Lemma leb_not_ltb x y : PrimFloat.leb x y = true -> PrimFloat.ltb y x = false.
Proof.
  rewrite ltb_spec, leb_spec. unfold SFltb, SFleb.
  rewrite (SFcompare_antisym (Prim2SF x) (Prim2SF y)).
  by destruct (SFcompare _ _) as [[]|].
Qed.

Lemma ltb_not_eqb x y : PrimFloat.ltb x y = true -> PrimFloat.eqb y x = false.
Proof.
  rewrite ltb_spec, FloatAxioms.eqb_spec. unfold SFltb, SFeqb.
  rewrite (SFcompare_antisym (Prim2SF x) (Prim2SF y)).
  by destruct (SFcompare _ _) as [[]|].
Qed.

(** A number that compares equal to zero is one of the two zeros. *)
Lemma eqb_zero x :
  PrimFloat.ltb x 0 = false -> PrimFloat.leb x 0 = true ->
  x = 0%float \/ x = (-0)%float.
Proof.
  rewrite ltb_spec, leb_spec. unfold SFltb, SFleb.
  change (Prim2SF 0) with (S754_zero false).
  pose proof (SF2Prim_Prim2SF x) as Hx.
  destruct (Prim2SF x) as [[]|[]| |[] m e]; cbn [SFcompare]; try done; intros _ _.
  - right. by rewrite <- Hx.
  - left. by rewrite <- Hx.
Qed.

(** One is above zero, and so is everything at or above one. *)
Lemma leb_one_positive x : PrimFloat.leb 1 x = true -> PrimFloat.ltb 0 x = true.
Proof.
  rewrite ltb_spec, leb_spec. unfold SFltb, SFleb.
  change (Prim2SF 0) with (S754_zero false).
  change (Prim2SF 1) with (S754_finite false 4503599627370496 (-52)).
  by destruct (Prim2SF x) as [[]|[]| |[] m e].
Qed.

Lemma clamp_below v : PrimFloat.leb v 0 = true -> JsMath.clamp v = 0%float.
Proof.
  intros H. destruct (leb_not_nan _ _ H) as [Hv _].
  unfold JsMath.clamp, JsMath.max. rewrite Hv. cbn [orb].
  change (is_nan 0) with false. cbv iota.
  destruct (PrimFloat.ltb v 0) eqn:A; [reflexivity|].
  rewrite (leb_not_ltb _ _ H).
  destruct (eqb_zero v A H) as [->| ->]; reflexivity.
Qed.

Lemma clamp_inside v :
  PrimFloat.ltb 0 v = true -> PrimFloat.ltb v 1 = true -> JsMath.clamp v = v.
Proof.
  intros H0 H1. destruct (ltb_not_nan _ _ H0) as [_ Hv].
  unfold JsMath.clamp, JsMath.max. rewrite Hv. cbn [orb].
  change (is_nan 0) with false. cbv iota.
  rewrite (ltb_antisym _ _ H0), H0.
  unfold JsMath.min. rewrite Hv. change (is_nan 1) with false. cbn [orb]. cbv iota.
  by rewrite H1.
Qed.

Lemma clamp_above v : PrimFloat.leb 1 v = true -> JsMath.clamp v = 1%float.
Proof.
  intros H. destruct (leb_not_nan _ _ H) as [_ Hv].
  pose proof (leb_one_positive _ H) as H0.
  unfold JsMath.clamp, JsMath.max. rewrite Hv. cbn [orb].
  change (is_nan 0) with false. cbv iota.
  rewrite (ltb_antisym _ _ H0), H0.
  unfold JsMath.min. rewrite Hv. change (is_nan 1) with false. cbn [orb]. cbv iota.
  rewrite (leb_not_ltb _ _ H).
  destruct (PrimFloat.ltb 1 v); [done|].
  unfold JsMath.is_negative_zero. by rewrite (ltb_not_eqb _ _ H0).
Qed.

End FloatFacts.

(* ===================================================================== *)
(** ** The values relayed to the progress callback *)
(* ===================================================================== *)

Section RelayedFacts.
Import Service ServiceSpec ServiceLaws.
Variable member_text : string -> string.

Lemma relayed_grows e s id :
  exists d, relayed id (step member_text e s) = relayed id s ++ d /\
            Forall progress_value d.
Proof.
  assert (exists d, relayed id s = relayed id s ++ d /\ Forall progress_value d) as Hsame
    by (exists []; by rewrite app_nil_r).
  assert (forall (b : bool) v, progress_value v ->
            exists d, relayed id s ++ (if b then [v] else []) = relayed id s ++ d /\
                      Forall progress_value d) as Hone.
  { intros b v Hv. eexists. split; [reflexivity|].
    destruct b; constructor; [exact Hv|constructor]. }
  destruct e as [f fmt cb| |n o|j|j r|j r|j r|j v|j r|j]; cbn [step].
  - unfold convert. by repeat case_match.
  - unfold cancelConversion. destruct (activeCancel s); [|done]. by rewrite relayed_cancel.
  - done.
  - unfold resume_support. repeat case_match; try done.
    by rewrite relayed_set_call, relayed_emit_other, relayed_log.
  - unfold resume_arrayBuffer. repeat case_match; try done.
    rewrite relayed_emit_other, relayed_log, relayed_progress by done.
    apply Hone. by left.
  - unfold resume_getFormat. repeat case_match; try done.
    + by rewrite relayed_set_call, relayed_emit_other, relayed_log.
    + by rewrite relayed_finish, relayed_log.
  - unfold resume_init. repeat case_match; try done;
      rewrite ?relayed_finish, ?relayed_set_call, ?relayed_emit_other by done;
      rewrite ?relayed_log, ?relayed_cancel; done.
  - unfold engine_progress. repeat case_match; try done.
    rewrite relayed_progress. apply Hone. right. right. by eexists.
  - unfold execute_settled. by repeat case_match.
  - unfold resume_race. repeat case_match; try done; rewrite ?relayed_finish; try done.
    rewrite relayed_log, relayed_progress. apply Hone. right. by left.
Qed.

Lemma relayed_values es : forall s id,
  Forall progress_value (relayed id s) ->
  Forall progress_value (relayed id (run member_text es s)).
Proof.
  induction es as [|e es IH]; intros s id H; [done|].
  rewrite run_cons. apply IH.
  destruct (relayed_grows e s id) as (d & -> & Hd). by apply Forall_app.
Qed.

End RelayedFacts.

(** X3: every value [convert] passes to a progress callback, along every
    run, lies between 0 and 1, or is NaN. *)
Theorem relayed_progress_in_range
    (member_text : string -> string) (es : list Service.event) (id : nat) :
  Forall (fun v => is_nan v = true \/ JsMathSpec.in_unit_interval v = true)
         (Service.relayed id (Service.run member_text es Service.init)).
Proof.
  eapply Forall_impl;
    [apply (relayed_values member_text es Service.init id); constructor|].
  intros v [->|[->|[x ->]]]; cbn beta.
  - by right.
  - by right.
  - destruct (is_nan x) eqn:N.
    + left. by rewrite clamp_nan.
    + right. by apply clamp_range.
Qed.

(** X4: [Math.min(Math.max(x, 0), 1)] gives NaN for NaN and a number
    between 0 and 1 otherwise: 0 for everything at or below 0 (the negative
    zero included), 1 for everything at or above 1, and the number itself
    for what lies strictly between. *)
Theorem clamp_piecewise :
  (forall x, is_nan x = true -> JsMath.clamp x = nan) /\
  (forall x, is_nan x = false -> JsMathSpec.in_unit_interval (JsMath.clamp x) = true) /\
  (forall x, PrimFloat.leb x 0 = true -> JsMath.clamp x = 0%float) /\
  (forall x, PrimFloat.ltb 0 x = true -> PrimFloat.ltb x 1 = true -> JsMath.clamp x = x) /\
  (forall x, PrimFloat.leb 1 x = true -> JsMath.clamp x = 1%float).
Proof.
  repeat split.
  - apply clamp_nan.
  - apply clamp_range.
  - apply clamp_below.
  - apply clamp_inside.
  - apply clamp_above.
Qed.

(* ===================================================================== *)
(** ** Runs in which no call is made while another is entering *)
(* ===================================================================== *)

Section GuardedFacts.
Import Service ServiceSpec ServiceLaws.
Variable member_text : string -> string.

Ltac calls_norm :=
  repeat (rewrite ?log_calls, ?progress_calls;
          cbn [finish set_call emit set_activeCancel calls]).

Ltac marker_norm :=
  repeat (rewrite ?log_activeCancel, ?progress_activeCancel;
          cbn [finish set_call emit set_activeCancel activeCancel]).

Lemma acts_same s s' :
  calls s' = calls s -> activeCancel s' = activeCancel s -> acts s s'.
Proof. by left. Qed.

Lemma acts_cancel j s c :
  calls s !! j = Some c -> armed (at_stage c) = true -> acts s (cancel j s).
Proof.
  intros Hc Harm. unfold cancel. rewrite Hc.
  destruct (cancelRequested c); [by left|].
  right. exists j, c.
  exists (mkCall (file c) (formatId c) (callbacks c) (at_stage c)
                 (inMemoryCopy c) (conversion c) true false
                 (cancelPromise_rejected c || cancelReject c)
                 (progress_handler c)
                 (match at_stage c, race c with
                  | AwaitRace, None => if cancelReject c then Some CancelWon else None
                  | _, w => w
                  end)).
  split; [done|]. split; [by destruct (at_stage c)|].
  split.
  - destruct (conversion c); calls_norm; reflexivity.
  - intros _. right. split; [done|]. destruct (conversion c); by marker_norm.
Qed.

Lemma acts_step e s :
  Inv s -> (forall f fmt cb, e <> CallConvert f fmt cb) ->
  acts s (step member_text e s).
Proof.
  intros HI Hne.
  destruct e as [f fmt cb| |n o|j|j r|j r|j r|j v|j r|j]; cbn [step].
  - by destruct (Hne f fmt cb).
  - unfold cancelConversion. destruct (activeCancel s) as [j|] eqn:E; [|by left].
    destruct HI as [Ha _]. destruct (Ha j E) as (c & Hc & Harm).
    by apply (acts_cancel _ _ c).
  - by left.
  - unfold resume_support.
    destruct (calls s !! j) as [c|] eqn:Hc; [|by left].
    destruct (at_stage c) eqn:Hst; try (by left).
    destruct (Registry.value _ _) as [[]|]; [| |by left];
      right; exists j, c; eexists; (split; [done|]); (split; [by rewrite Hst|]);
      (split; [calls_norm; reflexivity|done]).
  - unfold resume_arrayBuffer.
    destruct (calls s !! j) as [c|] eqn:Hc; [|by left].
    destruct (at_stage c) eqn:Hst; try (by left).
    destruct r as [copy|e]; [destruct (Registry.lookup _)|];
      right; exists j, c; eexists; (split; [done|]); (split; [by rewrite Hst|]);
      (split; [calls_norm; reflexivity|]); try done.
    intros _. left. by marker_norm.
  - unfold resume_getFormat.
    destruct (calls s !! j) as [c|] eqn:Hc; [|by left].
    destruct (at_stage c) eqn:Hst; try (by left).
    destruct r as [fmt|e];
      right; exists j, c; eexists; (split; [done|]); (split; [by rewrite Hst|]);
      (split; [calls_norm; reflexivity|]).
    + intros _. right. rewrite Hst. split; [done|]. by marker_norm.
    + done.
  - unfold resume_init.
    destruct (calls s !! j) as [c|] eqn:Hc; [|by left].
    destruct (at_stage c) eqn:Hst; try (by left).
    assert (forall o c1, acts s (finish j c1 o s)) as Hfin.
    { intros o c1. right. exists j, c. eexists. split; [done|]. split; [by rewrite Hst|].
      split; [calls_norm; reflexivity|done]. }
    destruct r as [conv|e]; [|by apply Hfin].
    destruct (negb (isValid conv)).
    { destruct (discardedTracks conv); by apply Hfin. }
    set (c1 := set_conversion (Some conv) c).
    set (s1 := set_call j c1 s).
    assert (calls s1 !! j = Some c1) as Hc1.
    { cbn [s1 set_call calls]. apply list_lookup_insert_eq. by eapply lookup_lt_Some. }
    assert ((if cancelRequested c1 then cancel j s1 else s1) = s1) as ->.
    { destruct (cancelRequested c1) eqn:Hcr; [|done]. unfold cancel. by rewrite Hc1, Hcr. }
    rewrite Hc1. cbn [nullish]. clear Hc1. subst s1 c1.
    right. exists j, c. eexists. split; [done|]. split; [by rewrite Hst|].
    split.
    + calls_norm. by rewrite list_insert_insert_eq.
    + intros _. right. rewrite Hst. split; [done|]. by marker_norm.
  - unfold engine_progress. repeat case_match; try (by left).
    left. by rewrite progress_calls, progress_activeCancel.
  - unfold execute_settled.
    destruct (calls s !! j) as [c|] eqn:Hc; [|by left].
    destruct (at_stage c) eqn:Hst; try (by left).
    destruct (race c); [by left|].
    right. exists j, c. eexists. split; [done|]. split; [by rewrite Hst|].
    split; [calls_norm; reflexivity|].
    intros _. right. rewrite Hst. by split.
  - unfold resume_race.
    destruct (calls s !! j) as [c|] eqn:Hc; [|by left].
    destruct (at_stage c) eqn:Hst; try (by left).
    assert (forall o s', calls s' = calls s -> acts s (finish j c o s')) as Hfin.
    { intros o s' Hs'. right. exists j, c. eexists. split; [done|]. split; [by rewrite Hst|].
      split; [calls_norm; by rewrite Hs'|done]. }
    destruct (race c) as [[[buffer|e]|]|]; try (by left); try (by apply Hfin).
    destruct (Registry.lookup _); [|by left..].
    destruct (cancelRequested c); [by apply Hfin|].
    destruct buffer; [|by apply Hfin].
    apply Hfin. by rewrite log_calls, progress_calls.
Qed.

Lemma single_flight_acts s s' :
  single_flight s -> acts s s' -> single_flight s'.
Proof.
  intros SF [[Hc Ha]|(j & c & c' & Hj & Hnt & Hc & Hm)].
  - intros id ci Hid Hti. rewrite Hc in Hid. rewrite Hc, Ha. by apply SF.
  - destruct (SF j c Hj Hnt) as [Huniq Harm].
    assert (forall id ci, calls s' !! id = Some ci -> terminal (at_stage ci) = false ->
              id = j /\ ci = c') as Honly.
    { intros id ci Hid Hti. rewrite Hc in Hid.
      destruct (decide (id = j)) as [->|Hne].
      - rewrite list_lookup_insert_eq in Hid by (by eapply lookup_lt_Some).
        split; congruence.
      - rewrite list_lookup_insert_ne in Hid by done.
        by destruct Hne; apply (Huniq id ci). }
    intros id ci Hid Hti. destruct (Honly _ _ Hid Hti) as [-> ->]. split.
    + intros id' ci' Hid' Hti'. by destruct (Honly _ _ Hid' Hti').
    + intros Ha'. destruct (Hm Ha') as [->|[Hca ->]]; [done|by apply Harm].
Qed.

Lemma stage_kinds st : entering st = true \/ armed st = true \/ terminal st = true.
Proof. destruct st; auto. Qed.

Lemma single_flight_convert f fmt cb s :
  Inv s -> single_flight s -> nobody_entering s = true ->
  single_flight (convert f fmt cb s).
Proof.
  intros [Ha _] SF Hq.
  assert (forall id c, calls s !! id = Some c -> entering (at_stage c) = false) as Hq'.
  { intros id c Hc. unfold nobody_entering in Hq. rewrite forallb_forall in Hq.
    apply negb_true_iff, Hq. apply list_elem_of_In. by eapply list_elem_of_lookup_2. }
  assert (forall reg st, terminal st = true ->
    single_flight (mkState (activeCancel s) reg
               (calls s ++ [mkCall f fmt cb st [] None false false false false None])
               (effects s))) as Hdone.
  { intros reg st Hst id c Hc Ht. cbn [calls activeCancel] in *.
    assert (calls s !! id = Some c) as Hc'.
    { apply lookup_app_Some in Hc as [Hc|[_ Hc]]; [done|].
      apply list_lookup_singleton_Some in Hc as [_ <-]. cbn in Ht. congruence. }
    destruct (SF id c Hc' Ht) as [Hu Hm]. split; [|done].
    intros id' c' Hc2 Ht'.
    apply lookup_app_Some in Hc2 as [Hc2|[_ Hc2]]; [by apply (Hu id' c')|].
    apply list_lookup_singleton_Some in Hc2 as [_ <-]. cbn in Ht'. congruence. }
  unfold convert. destruct (activeCancel s) as [k|] eqn:E; [by apply Hdone|].
  assert (forall id c, calls s !! id = Some c -> terminal (at_stage c) = true) as Hall.
  { intros id c Hc. destruct (stage_kinds (at_stage c)) as [H|[H|H]]; [|exfalso|done].
    - by rewrite (Hq' _ _ Hc) in H.
    - assert (terminal (at_stage c) = false) as Ht by (by destruct (at_stage c)).
      destruct (SF id c Hc Ht) as [_ Hm]. specialize (Hm H). congruence. }
  assert (forall reg st, armed st = false ->
    single_flight (mkState None reg
               (calls s ++ [mkCall f fmt cb st [] None false false false false None])
               (effects s))) as Hnew.
  { intros reg st Hst id c Hc Ht. cbn [calls activeCancel] in *.
    assert (id = length (calls s) /\ at_stage c = st) as [-> Hcst].
    { apply lookup_app_Some in Hc as [Hc|[Hl Hc]]; [by rewrite (Hall _ _ Hc) in Ht|].
      apply list_lookup_singleton_Some in Hc as [Hi <-]. split; [lia|done]. }
    split; [|intros H; congruence].
    intros id' c' Hc2 Ht'.
    apply lookup_app_Some in Hc2 as [Hc2|[Hl Hc2]]; [by rewrite (Hall _ _ Hc2) in Ht'|].
    apply list_lookup_singleton_Some in Hc2 as [Hi _]. lia. }
  destruct (Registry.lookup fmt); try (by apply Hnew);
    destruct (Registry.isFormatSupported _ _); by apply Hnew.
Qed.

Lemma single_flight_init : single_flight init.
Proof. intros id c Hc. done. Qed.

Lemma single_flight_run es : forall s,
  Inv s -> single_flight s -> guarded member_text es s = true ->
  single_flight (run member_text es s).
Proof.
  induction es as [|e es IH]; intros s HI SF Hg; [done|].
  rewrite run_cons. cbn [guarded] in Hg. apply andb_prop in Hg as [Hq Hg].
  apply IH; [by apply Inv_step| |done].
  destruct (match e with CallConvert _ _ _ => true | _ => false end) eqn:K.
  - destruct e; try discriminate. cbn [step]. by apply single_flight_convert.
  - apply (single_flight_acts s); [done|]. apply acts_step; [done|].
    intros f fmt cb ->. discriminate.
Qed.

Lemma all_equal_short (l : list nat) (x : nat) :
  NoDup l -> (forall y, In y l -> y = x) -> l = [] \/ l = [x].
Proof.
  intros Hnd Hall. destruct l as [|a [|b l]]; [by left| |].
  - right. f_equal. apply Hall. by left.
  - exfalso. apply NoDup_cons in Hnd as [Hnin _].
    apply Hnin. rewrite (Hall a), (Hall b); [by left|right; by left|by left].
Qed.

Lemma in_flight_spec s id :
  In id (in_flight s) <->
  exists c, calls s !! id = Some c /\ terminal (at_stage c) = false.
Proof.
  unfold in_flight, stage_of. rewrite filter_In, in_seq. split.
  - intros [_ H]. destruct (calls s !! id) as [c|]; [|done].
    exists c. split; [done|]. by apply negb_true_iff.
  - intros (c & Hc & Ht). rewrite Hc. cbn. rewrite Ht. split; [|done].
    apply lookup_lt_Some in Hc. lia.
Qed.

Lemma single_flight_shape s :
  single_flight s ->
  length (in_flight s) <= 1 /\
  (forall id c, calls s !! id = Some c -> armed (at_stage c) = true ->
     activeCancel s = Some id /\ in_flight s = [id]).
Proof.
  intros SF.
  assert (NoDup (in_flight s)) as Hnd.
  { unfold in_flight. apply NoDup_ListNoDup, List.NoDup_filter, List.seq_NoDup. }
  assert (forall a, In a (in_flight s) -> in_flight s = [a]) as Hshape.
  { intros a Ha. pose proof Ha as (c & Hc & Ht)%in_flight_spec.
    destruct (SF a c Hc Ht) as [Hu _].
    destruct (all_equal_short (in_flight s) a Hnd) as [H|H]; [| |done].
    - intros y (cy & Hy & Hty)%in_flight_spec. by apply (Hu y cy).
    - by rewrite H in Ha. }
  split.
  - destruct (in_flight s) as [|a l]; [cbn; lia|].
    rewrite (Hshape a); [cbn; lia|by left].
  - intros id c Hc Harm.
    assert (terminal (at_stage c) = false) as Ht by (by destruct (at_stage c)).
    destruct (SF id c Hc Ht) as [_ Hm]. split; [by apply Hm|].
    apply Hshape, in_flight_spec. eauto.
Qed.

End GuardedFacts.

(** X5: in a run where [convert] is never called while an earlier call is
    between its entry check and [this.activeCancel = cancel], at most one
    call is in flight at any time, and once that call has set the marker,
    the marker names it (so [cancelConversion] reaches it). *)
Theorem guarded_run_is_single_flight
    (member_text : string -> string) (es : list Service.event) :
  ServiceLaws.guarded member_text es Service.init = true ->
  length (Service.in_flight (Service.run member_text es Service.init)) <= 1 /\
  (forall id c,
     Service.calls (Service.run member_text es Service.init) !! id = Some c ->
     ServiceSpec.armed (Service.at_stage c) = true ->
     Service.activeCancel (Service.run member_text es Service.init) = Some id /\
     Service.in_flight (Service.run member_text es Service.init) = [id]).
Proof.
  intros Hg. apply single_flight_shape.
  by apply (single_flight_run member_text es _ Inv_init single_flight_init).
Qed.

Lemma guarded_run_is_single_flight_witness :
  ServiceLaws.guarded ServiceSpec.plain_text ServiceLaws.one_after_the_other Service.init = true /\
  Service.in_flight
    (Service.run ServiceSpec.plain_text ServiceLaws.one_after_the_other Service.init) = [2] /\
  length (Service.in_flight
    (Service.run ServiceSpec.plain_text ServiceLaws.one_after_the_other Service.init)) <= 1.
Proof.
  split; [reflexivity|]. split; [reflexivity|].
  exact (proj1 (guarded_run_is_single_flight ServiceSpec.plain_text
                  ServiceLaws.one_after_the_other eq_refl)).
Defined.

(* ===================================================================== *)
(** ** After a request to cancel *)
(* ===================================================================== *)

Section CancelledFacts.
Import Service ServiceSpec ServiceLaws.
Variable member_text : string -> string.

Ltac calls_norm :=
  repeat (rewrite ?log_calls, ?progress_calls;
          cbn [finish set_call emit set_activeCancel calls]).

Ltac locals :=
  unfold cancel_inv;
  cbn [at_stage formatId cancelRequested cancelReject cancelPromise_rejected race
       set_stage set_conversion set_progress_handler set_race terminal armed].

Lemma cancel_inv_threw c e : cancel_inv (set_stage (Done (Threw e)) c).
Proof. locals. repeat split; intros; done. Qed.

Lemma cancel_inv_cancel j s c :
  calls s !! j = Some c -> armed (at_stage c) = true ->
  Forall cancel_inv (calls s) -> Forall cancel_inv (calls (cancel j s)).
Proof.
  intros Hc Harm HF. unfold cancel. rewrite Hc.
  destruct (cancelRequested c) eqn:Hcr; [done|].
  assert (cancel_inv c) as (K1 & K2 & K3 & K4 & K5)
    by (rewrite Forall_lookup in HF; by apply (HF j)).
  assert (cancelReject c = true) as Hrej by (by apply K3).
  assert (forall s', calls s' = calls s ->
    Forall cancel_inv (calls (set_call j
      (mkCall (file c) (formatId c) (callbacks c) (at_stage c)
              (inMemoryCopy c) (conversion c) true false
              (cancelPromise_rejected c || cancelReject c)
              (progress_handler c)
              (match at_stage c, race c with
               | AwaitRace, None => if cancelReject c then Some CancelWon else None
               | _, w => w
               end)) s'))) as H.
  { intros s' Hs'. cbn [set_call calls]. rewrite Hs'. apply Forall_insert; [done|].
    locals. rewrite Hrej. repeat split.
    - intros r Hr. by rewrite Hr in Harm.
    - done.
    - done.
    - intros. apply orb_true_r.
    - intros Hst _. rewrite Hst. by destruct (race c). }
  destruct (conversion c); apply H; by calls_norm.
Qed.

Lemma cancel_inv_step e s :
  Inv s -> Forall cancel_inv (calls s) ->
  Forall cancel_inv (calls (step member_text e s)).
Proof.
  intros HI HF.
  assert (forall j c, calls s !! j = Some c -> cancel_inv c) as HK
    by (intros j c Hc; rewrite Forall_lookup in HF; by apply (HF j)).
  destruct e as [f fmt cb| |n o|j|j r|j r|j r|j v|j r|j]; cbn [step].
  - unfold convert.
    assert (forall e0, cancel_inv
              (mkCall f fmt cb (Done (Threw e0)) [] None false false false false None)) as Hthrew
      by (intros e0; locals; repeat split; intros; done).
    destruct (activeCancel s).
    { cbn [calls]. apply Forall_app. split; [done|]. constructor; [apply Hthrew|constructor]. }
    destruct (Registry.lookup fmt) eqn:Hs;
      [| |cbn [calls]; apply Forall_app; split; [done|];
          constructor; [apply Hthrew|constructor]];
      destruct (Registry.isFormatSupported _ _) as [p reg]; cbn [calls];
      (apply Forall_app; split; [done|]); (constructor; [|constructor]);
      locals; repeat split; intros; done.
  - unfold cancelConversion. destruct (activeCancel s) as [j|] eqn:E; [|done].
    destruct HI as [Ha _]. destruct (Ha j E) as (c & Hc & Harm).
    by apply (cancel_inv_cancel _ _ c).
  - done.
  - unfold resume_support.
    destruct (calls s !! j) as [c|] eqn:Hc; [|done].
    destruct (at_stage c) eqn:Hst; try done.
    destruct (HK _ _ Hc) as (K1 & K2 & K3 & K4 & K5).
    destruct (Registry.value _ _) as [[]|]; [| |done]; calls_norm;
      (apply Forall_insert; [done|]).
    + locals. repeat split; intros; done.
    + apply cancel_inv_threw.
  - unfold resume_arrayBuffer.
    destruct (calls s !! j) as [c|] eqn:Hc; [|done].
    destruct (at_stage c) eqn:Hst; try done.
    destruct (HK _ _ Hc) as (K1 & K2 & K3 & K4 & K5).
    destruct r as [copy|e]; [destruct (Registry.lookup _) eqn:Hl|];
      calls_norm; (apply Forall_insert; [done|]); try apply cancel_inv_threw.
    locals. repeat split; intros; try done.
    by rewrite (lookup_entry_inv _ _ Hl).
  - unfold resume_getFormat.
    destruct (calls s !! j) as [c|] eqn:Hc; [|done].
    destruct (at_stage c) eqn:Hst; try done.
    destruct (HK _ _ Hc) as (K1 & K2 & K3 & K4 & K5). rewrite Hst in *.
    destruct r as [fmt|e]; calls_norm; (apply Forall_insert; [done|]).
    + locals. repeat split; intros; try done; auto.
    + apply cancel_inv_threw.
  - unfold resume_init.
    destruct (calls s !! j) as [c|] eqn:Hc; [|done].
    destruct (at_stage c) eqn:Hst; try done.
    destruct (HK _ _ Hc) as (K1 & K2 & K3 & K4 & K5). rewrite Hst in *.
    destruct r as [conv|e];
      [|calls_norm; apply Forall_insert; [done|apply cancel_inv_threw]].
    destruct (negb (isValid conv)).
    { destruct (discardedTracks conv); calls_norm;
        (apply Forall_insert; [done|apply cancel_inv_threw]). }
    set (c1 := set_conversion (Some conv) c).
    set (s1 := set_call j c1 s).
    assert (calls s1 !! j = Some c1) as Hc1.
    { cbn [s1 set_call calls]. apply list_lookup_insert_eq. by eapply lookup_lt_Some. }
    assert ((if cancelRequested c1 then cancel j s1 else s1) = s1) as ->.
    { destruct (cancelRequested c1) eqn:Hcr; [|done]. unfold cancel. by rewrite Hc1, Hcr. }
    rewrite Hc1. cbn [nullish]. clear Hc1. subst s1 c1.
    calls_norm. rewrite list_insert_insert_eq. apply Forall_insert; [done|].
    locals. repeat split; intros; try done; auto.
    rewrite K4; done.
  - unfold engine_progress. repeat case_match; try done. by rewrite progress_calls.
  - unfold execute_settled.
    destruct (calls s !! j) as [c|] eqn:Hc; [|done].
    destruct (at_stage c) eqn:Hst; try done.
    destruct (race c) eqn:Hr; [done|].
    destruct (HK _ _ Hc) as (K1 & K2 & K3 & K4 & K5). rewrite Hst in *.
    calls_norm. apply Forall_insert; [done|].
    locals. rewrite Hst. repeat split; intros; try done; auto.
  - unfold resume_race.
    destruct (calls s !! j) as [c|] eqn:Hc; [|done].
    destruct (at_stage c) eqn:Hst; try done.
    destruct (race c) as [[[buffer|e]|]|]; try done;
      try (calls_norm; apply Forall_insert; [done|apply cancel_inv_threw]).
    destruct (Registry.lookup _); [|done..].
    destruct (cancelRequested c) eqn:Hcr;
      [calls_norm; apply Forall_insert; [done|apply cancel_inv_threw]|].
    destruct buffer;
      [|calls_norm; apply Forall_insert; [done|apply cancel_inv_threw]].
    calls_norm. apply Forall_insert; [done|].
    locals. repeat split; intros; done.
Qed.

Lemma cancel_inv_run es : forall s,
  Inv s -> Forall cancel_inv (calls s) ->
  Forall cancel_inv (calls (run member_text es s)).
Proof.
  induction es as [|e es IH]; intros s HI HF; [done|].
  rewrite run_cons. apply IH; [by apply Inv_step|by apply cancel_inv_step].
Qed.

Lemma cancel_inv_reached es id c :
  calls (run member_text es init) !! id = Some c -> cancel_inv c.
Proof.
  intros Hc.
  pose proof (cancel_inv_run es init Inv_init (Forall_nil_2 _)) as HF.
  rewrite Forall_lookup in HF. by apply (HF id).
Qed.

End CancelledFacts.



(** X7: a request to cancel always takes effect on a call that awaits the
    race: the race is then settled, and when the call resumes it ends by
    throwing, with the [AbortError] unless [execute] had already rejected
    (then with that rejection); the marker is cleared and the input
    disposed of. *)
Theorem cancel_during_race_ends_the_call
    (member_text : string -> string) (es : list Service.event) (id : nat)
    (c : Service.Call) :
  Service.calls (Service.run member_text es Service.init) !! id = Some c ->
  Service.at_stage c = Service.AwaitRace ->
  Service.cancelRequested c = true ->
  exists e,
    Service.step member_text (Service.RaceResumed id)
      (Service.run member_text es Service.init)
    = Service.finish id c (Service.Threw e) (Service.run member_text es Service.init) /\
    (e = Service.AbortError \/
     Service.race c = Some (Service.ExecuteWon (Service.Rejected e))).
Proof.
  intros Hc Hst Hcr.
  destruct (cancel_inv_reached member_text _ _ _ Hc) as (K1 & K2 & K3 & K4 & K5).
  cbn [Service.step]. unfold Service.resume_race. rewrite Hc, Hst, Hcr.
  specialize (K5 Hst Hcr).
  assert (Registry.spec_of (Service.formatId c) <> None) as Hs
    by (apply K2; by rewrite Hst).
  destruct (Service.race c) as [[[buffer|e]|]|]; [| | |done].
  - destruct (Registry.spec_of _) as [spec|] eqn:Hsp; [|done].
    rewrite (lookup_entry _ _ Hsp). exists Service.AbortError. by split; [|left].
  - exists e. by split; [|right].
  - exists Service.AbortError. by split; [|left].
Qed.

Lemma cancel_during_race_ends_the_call_witness :
  exists c e,
    Service.calls (Service.run ServiceSpec.plain_text
                     ServiceLaws.cancelled_while_executing Service.init) !! 0 = Some c /\
    Service.at_stage c = Service.AwaitRace /\
    Service.cancelRequested c = true /\
    Service.step ServiceSpec.plain_text (Service.RaceResumed 0)
      (Service.run ServiceSpec.plain_text ServiceLaws.cancelled_while_executing Service.init)
    = Service.finish 0 c (Service.Threw e)
        (Service.run ServiceSpec.plain_text ServiceLaws.cancelled_while_executing
           Service.init) /\
    (e = Service.AbortError \/
     Service.race c = Some (Service.ExecuteWon (Service.Rejected e))).
Proof.
  assert (exists c,
    Service.calls (Service.run ServiceSpec.plain_text
                     ServiceLaws.cancelled_while_executing Service.init) !! 0 = Some c /\
    Service.at_stage c = Service.AwaitRace /\
    Service.cancelRequested c = true) as (c & Hc & Hst & Hcr).
  { vm_compute. eexists. split; [reflexivity|]. split; reflexivity. }
  destruct (cancel_during_race_ends_the_call ServiceSpec.plain_text
              ServiceLaws.cancelled_while_executing 0 c Hc Hst Hcr) as (e & He & Hor).
  exists c, e. split; [exact Hc|]. split; [exact Hst|]. split; [exact Hcr|].
  split; [exact He|exact Hor].
Defined.

(* ===================================================================== *)
(** ** What the progress callback is given first and last *)
(* ===================================================================== *)

Section ProgressFacts.
Import Service ServiceSpec ServiceLaws.
Variable member_text : string -> string.

Ltac calls_norm :=
  repeat (rewrite ?log_calls, ?progress_calls;
          cbn [finish set_call emit set_activeCancel calls]).

Lemma head_app_nonempty {A} (l d : list A) : l <> [] -> head (l ++ d) = head l.
Proof. by destruct l. Qed.

Lemma progress_inv_update s s' j c c' d :
  progress_inv s ->
  calls s !! j = Some c ->
  calls s' = <[j := c']> (calls s) ->
  callbacks c' = callbacks c ->
  (forall id, relayed id s' = relayed id s ++ (if j =? id then d else [])) ->
  (d = [] \/ head d = Some 0%float \/
   (onProgress (callbacks c) = true /\
    (armed (at_stage c) = true \/ progress_handler c = true))) ->
  (armed (at_stage c') = true \/ progress_handler c' = true ->
   (armed (at_stage c) = true \/ progress_handler c = true) \/
   (onProgress (callbacks c) = true -> d <> [])) ->
  (forall r, at_stage c' = Done (Returned r) ->
   at_stage c = Done (Returned r) \/ (onProgress (callbacks c) = true -> In 1%float d)) ->
  progress_inv s'.
Proof.
  intros HP Hc Hs' Hcb Hrel Hd Harm Hret id.
  destruct (HP id) as [H1 H2]. rewrite Hrel.
  destruct (Nat.eqb_spec j id) as [->|Hne].
  - specialize (H2 c Hc). split.
    + destruct Hd as [->|[Hd|[Hon Hd]]].
      * by rewrite app_nil_r.
      * destruct H1 as [->|H1]; [by right|].
        right. rewrite head_app_nonempty; [done|]. intros E. by rewrite E in H1.
      * destruct (H2 Hon) as [Hne _]. specialize (Hne Hd).
        destruct H1 as [H1|H1]; [done|]. right. by rewrite head_app_nonempty.
    + intros cx Hcx Hon. rewrite Hs' in Hcx.
      rewrite list_lookup_insert_eq in Hcx by (by eapply lookup_lt_Some).
      injection Hcx as <-. rewrite Hcb in Hon. destruct (H2 Hon) as [Hn Hr]. split.
      * intros Ha. destruct (Harm Ha) as [Ha'|Hd'].
        -- specialize (Hn Ha'). by destruct (relayed id s).
        -- specialize (Hd' Hon). destruct d; [done|]. by destruct (relayed id s).
      * intros r Hst. apply in_or_app. destruct (Hret r Hst) as [Hst'|Hin].
        -- left. by apply (Hr r).
        -- right. by apply Hin.
  - rewrite app_nil_r. split; [done|].
    intros cx Hcx. rewrite Hs' in Hcx.
    rewrite list_lookup_insert_ne in Hcx by done. by apply H2.
Qed.

Lemma progress_inv_same s s' :
  progress_inv s -> calls s' = calls s -> effects s' = effects s -> progress_inv s'.
Proof.
  intros HP Hc He id. unfold relayed. rewrite Hc, He. apply HP.
Qed.

Lemma relayed_unchanged s s' d :
  (forall id, relayed id s' = relayed id s) ->
  forall id : nat, relayed id s' = relayed id s ++ (if d =? id then [] else []).
Proof. intros H id. rewrite H. destruct (d =? id); by rewrite app_nil_r. Qed.

Lemma progress_inv_step e s :
  Inv s -> progress_inv s -> progress_inv (step member_text e s).
Proof.
  intros HI HP.
  destruct e as [f fmt cb| |n o|j|j r|j r|j r|j v|j r|j]; cbn [step].
  - assert (forall act reg st, armed st = false -> (forall r, st <> Done (Returned r)) ->
      progress_inv (mkState act reg
                 (calls s ++ [mkCall f fmt cb st [] None false false false false None])
                 (effects s))) as Hnew.
    { intros act reg st Hst Hnr id. destruct (HP id) as [H1 H2].
      split; [exact H1|]. intros c Hc Hon. cbn [calls] in Hc.
      apply lookup_app_Some in Hc as [Hc|[_ Hc]]; [by apply H2|].
      apply list_lookup_singleton_Some in Hc as [_ <-]. cbn. split.
      - intros [H|H]; congruence.
      - intros r Hr. by destruct (Hnr r). }
    unfold convert. destruct (activeCancel s); [by apply Hnew|].
    destruct (Registry.lookup fmt); try (by apply Hnew);
      destruct (Registry.isFormatSupported _ _); by apply Hnew.
  - unfold cancelConversion. destruct (activeCancel s) as [j|] eqn:E; [|done].
    destruct HI as [Ha _]. destruct (Ha j E) as (c & Hc & Harm).
    unfold cancel. rewrite Hc. destruct (cancelRequested c); [done|].
    destruct (conversion c);
      (eapply (progress_inv_update s _ j c _ []);
         [done|done|calls_norm; reflexivity|done| |by left|cbn; auto|cbn; auto]);
      apply relayed_unchanged; intros id;
      rewrite relayed_set_call, ?relayed_emit_other by done; apply relayed_log.
  - by apply (progress_inv_same s).
  - unfold resume_support.
    destruct (calls s !! j) as [c|] eqn:Hc; [|done].
    destruct (at_stage c) eqn:Hst; try done.
    destruct (Registry.value _ _) as [[]|]; [| |done].
    + eapply (progress_inv_update s _ j c _ []); [done|done| | | |by left| |].
      * calls_norm. reflexivity.
      * done.
      * apply relayed_unchanged. intros id.
        by rewrite relayed_set_call, relayed_emit_other, relayed_log.
      * cbn. intros [H|H]; [done|auto].
      * cbn. done.
    + eapply (progress_inv_update s _ j c _ []); [done|done| | | |by left| |].
      * calls_norm. reflexivity.
      * done.
      * by apply relayed_unchanged.
      * cbn. intros [H|H]; [done|auto].
      * cbn. done.
  - unfold resume_arrayBuffer.
    destruct (calls s !! j) as [c|] eqn:Hc; [|done].
    destruct (at_stage c) eqn:Hst; try done.
    assert (forall e, progress_inv (set_call j (set_stage (Done (Threw e)) c) s)) as Hthrew.
    { intros e. eapply (progress_inv_update s _ j c _ []); [done|done| | | |by left| |].
      * calls_norm. reflexivity.
      * done.
      * by apply relayed_unchanged.
      * cbn. intros [H|H]; [done|auto].
      * cbn. done. }
    destruct r as [copy|e]; [destruct (Registry.lookup _); [|apply Hthrew..]|].
    + eapply (progress_inv_update s _ j c _
                (if onProgress (callbacks c) then [0%float] else []));
        [done|done| | | | | |].
      * calls_norm. reflexivity.
      * done.
      * intros id. rewrite relayed_emit_other, relayed_log, relayed_progress by done.
        cbn [callbacks set_activeCancel set_call]. unfold relayed. cbn [effects].
        by destruct (onProgress _), (j =? id).
      * destruct (onProgress _); [right; by left|by left].
      * intros _. right. by intros ->.
      * done.
    + eapply (progress_inv_update s _ j c _ []); [done|done| | | |by left| |].
      * calls_norm. reflexivity.
      * done.
      * by apply relayed_unchanged.
      * cbn. intros [H|H]; [done|auto].
      * cbn. done.
  - unfold resume_getFormat.
    destruct (calls s !! j) as [c|] eqn:Hc; [|done].
    destruct (at_stage c) eqn:Hst; try done.
    destruct r as [fmt|e].
    + eapply (progress_inv_update s _ j c _ []); [done|done| | | |by left| |].
      * calls_norm. reflexivity.
      * done.
      * apply relayed_unchanged. intros id.
        by rewrite relayed_set_call, relayed_emit_other, relayed_log.
      * rewrite Hst. cbn. auto.
      * cbn. done.
    + eapply (progress_inv_update s _ j c _ []); [done|done| | | |by left| |].
      * calls_norm. reflexivity.
      * done.
      * apply relayed_unchanged. intros id. by rewrite relayed_finish, relayed_log.
      * rewrite Hst. cbn. auto.
      * cbn. done.
  - unfold resume_init.
    destruct (calls s !! j) as [c|] eqn:Hc; [|done].
    destruct (at_stage c) eqn:Hst; try done.
    assert (forall o c1, callbacks c1 = callbacks c -> (forall r, o <> Returned r) ->
              progress_inv (finish j c1 o s)) as Hfin.
    { intros o c1 Hcb Ho.
      eapply (progress_inv_update s _ j c _ []); [done|done| | | |by left| |].
      * calls_norm. reflexivity.
      * done.
      * apply relayed_unchanged. intros id. by rewrite relayed_finish.
      * rewrite Hst. cbn. auto.
      * cbn. intros r0 Hr. injection Hr as ->. by destruct (Ho r0). }
    destruct r as [conv|e]; [|by apply Hfin].
    destruct (negb (isValid conv)).
    { destruct (discardedTracks conv); by apply Hfin. }
    set (c1 := set_conversion (Some conv) c).
    set (s1 := set_call j c1 s).
    assert (calls s1 !! j = Some c1) as Hc1.
    { cbn [s1 set_call calls]. apply list_lookup_insert_eq. by eapply lookup_lt_Some. }
    assert ((if cancelRequested c1 then cancel j s1 else s1) = s1) as ->.
    { destruct (cancelRequested c1) eqn:Hcr; [|done]. unfold cancel. by rewrite Hc1, Hcr. }
    rewrite Hc1. cbn [nullish]. clear Hc1. subst s1 c1.
    eapply (progress_inv_update s _ j c _ []); [done|done| | | |by left| |].
    + calls_norm. by rewrite list_insert_insert_eq.
    + done.
    + apply relayed_unchanged. intros id.
      by rewrite relayed_set_call, relayed_emit_other, relayed_log.
    + rewrite Hst. cbn. auto.
    + cbn. done.
  - unfold engine_progress.
    destruct (calls s !! j) as [c|] eqn:Hc; [|done].
    destruct (progress_handler c) eqn:Hph; [|done].
    destruct (cancelRequested c); [done|].
    eapply (progress_inv_update s _ j c c
              (if onProgress (callbacks c) then [JsMath.clamp v] else []));
      [done|done| | | | | |].
    + rewrite progress_calls. by rewrite list_insert_id.
    + done.
    + intros id. rewrite relayed_progress. by destruct (onProgress _), (j =? id).
    + destruct (onProgress _); [right; right; auto|by left].
    + auto.
    + auto.
  - unfold execute_settled.
    destruct (calls s !! j) as [c|] eqn:Hc; [|done].
    destruct (at_stage c) eqn:Hst; try done.
    destruct (race c); [done|].
    eapply (progress_inv_update s _ j c _ []); [done|done| | | |by left| |].
    + calls_norm. reflexivity.
    + done.
    + by apply relayed_unchanged.
    + rewrite Hst. cbn. auto.
    + cbn. rewrite Hst. done.
  - unfold resume_race.
    destruct (calls s !! j) as [c|] eqn:Hc; [|done].
    destruct (at_stage c) eqn:Hst; try done.
    assert (forall e, progress_inv (finish j c (Threw e) s)) as Hfin.
    { intros e.
      eapply (progress_inv_update s _ j c _ []); [done|done| | | |by left| |].
      * calls_norm. reflexivity.
      * done.
      * apply relayed_unchanged. intros id. by rewrite relayed_finish.
      * rewrite Hst. cbn. auto.
      * cbn. done. }
    destruct (race c) as [[[buffer|e]|]|]; try done.
    destruct (Registry.lookup _); [|done..].
    destruct (cancelRequested c); [done|].
    destruct buffer; [|done].
    eapply (progress_inv_update s _ j c _
              (if onProgress (callbacks c) then [1%float] else []));
      [done|done| | | | | |].
    + calls_norm. reflexivity.
    + done.
    + intros id. rewrite relayed_finish, relayed_log, relayed_progress.
      by destruct (onProgress _), (j =? id).
    + destruct (onProgress _); [right; right|by left]. rewrite Hst. cbn. auto.
    + rewrite Hst. cbn. auto.
    + intros r0 _. right. intros ->. by left.
Qed.

Lemma progress_inv_run es : forall s,
  Inv s -> progress_inv s -> progress_inv (run member_text es s).
Proof.
  induction es as [|e es IH]; intros s HI HP; [done|].
  rewrite run_cons. apply IH; [by apply Inv_step|by apply progress_inv_step].
Qed.

Lemma progress_inv_init : progress_inv init.
Proof. intros id. split; [by left|]. intros c Hc. done. Qed.

End ProgressFacts.

(** X8: the progress callback of a call is given 0 before anything else,
    as soon as the file is loaded (from then on it has been called), and it
    has been given 1 by the time the call returns a result. *)
Theorem progress_starts_at_0_and_reaches_1
    (member_text : string -> string) (es : list Service.event) (id : nat) :
  let s := Service.run member_text es Service.init in
  (Service.relayed id s = [] \/ head (Service.relayed id s) = Some 0%float) /\
  (forall c, Service.calls s !! id = Some c ->
     Service.onProgress (Service.callbacks c) = true ->
     (ServiceSpec.armed (Service.at_stage c) = true ->
      head (Service.relayed id s) = Some 0%float) /\
     (forall r, Service.at_stage c = Service.Done (Service.Returned r) ->
      head (Service.relayed id s) = Some 0%float /\ In 1%float (Service.relayed id s))).
Proof.
  intros s.
  destruct (progress_inv_run member_text es _ Inv_init progress_inv_init id) as [H1 H2].
  fold s in H1, H2. split; [exact H1|].
  intros c Hc Hon. destruct (H2 c Hc Hon) as [Hn Hr]. split.
  - intros Ha. destruct H1 as [H1|H1]; [|done]. by destruct Hn; [left|].
  - intros r Hst. specialize (Hr r Hst). split; [|done].
    destruct H1 as [H1|H1]; [|done]. by rewrite H1 in Hr.
Qed.

(* ===================================================================== *)
(** ** The registry over its lifetime *)
(* ===================================================================== *)

Section RegistryLifetime.
Import Registry RegistryLaws.

(** A call of [isFormatSupported] leaves the registry as it is, or it
    issues one probe and keeps its promise under the id asked for. *)
Lemma isFormatSupported_cases r f :
  (exists p, isFormatSupported r f = (p, r)) \/
  (lookup f <> Undefined /\ always (lookup f) = false /\
   supportChecks r !! f = None /\
   isFormatSupported r f
   = (Probing (length (probes r)),
      {| supportChecks := <[f := Probing (length (probes r))]> (supportChecks r);
         probes := probes r ++ [(codec_of (lookup f), None)] |})).
Proof.
  unfold isFormatSupported.
  destruct (lookup f) as [spec| |] eqn:Hl; [| |left; by eexists].
  - cbn [always codec_of]. destruct (alwaysAvailable spec) eqn:Ha; [left; by eexists|].
    destruct (supportChecks r !! f) eqn:Hp; [left; by eexists|].
    right. unfold checkCodecSupport. cbn [is_pcm].
    destruct (catalog_probed f spec (lookup_entry_inv _ _ Hl) Ha) as (_ & _ & -> & _).
    done.
  - cbn [always codec_of]. destruct (supportChecks r !! f) eqn:Hp; [left; by eexists|].
    by right.
Qed.

Lemma reg_inv_empty : reg_inv empty.
Proof.
  split; [apply NoDup_nil_2|]. split; [by intros c ?%elem_of_nil|].
  split; [by intros f spec _ _ _ ?%elem_of_nil|]. split; [by intros f p H|].
  split; [intros n Hn; cbn in Hn; lia|done].
Qed.

Lemma codecs_probed_app r codec (o : option probe_outcome) sc :
  codecs_probed {| supportChecks := sc; probes := probes r ++ [(codec, o)] |}
  = codecs_probed r ++ match codec with Some c => [c] | None => [] end.
Proof.
  unfold codecs_probed, probed. cbn [probes].
  rewrite fmap_app, omap_app. by destruct codec.
Qed.

Lemma reg_inv_isFormatSupported r f :
  reg_inv r -> reg_inv (snd (isFormatSupported r f)).
Proof.
  intros (Hnd & Hin & Hfresh & Hmemo & Hall & Hsize).
  destruct (isFormatSupported_cases r f) as [[p ->]|(Hl & Ha & Hp & ->)]; [done|].
  cbn [snd]. unfold reg_inv. rewrite codecs_probed_app.
  cbn [probes supportChecks].
  split; [|split; [|split; [|split; [|split]]]].
  - destruct (lookup f) as [spec| |] eqn:Hlf; cbn [codec_of];
      [|by rewrite app_nil_r..].
    apply NoDup_app. split; [done|]. split; [|apply NoDup_singleton].
    intros c Hc1 ->%list_elem_of_singleton. revert Hc1.
    by apply (Hfresh f spec); [apply lookup_entry_inv| |].
  - intros c [H|H]%elem_of_app; [by apply Hin|].
    destruct (lookup f) as [spec| |] eqn:Hlf; cbn [codec_of] in H;
      [|by apply elem_of_nil in H..].
    apply list_elem_of_singleton in H as ->.
    by destruct (catalog_probed f spec (lookup_entry_inv _ _ Hlf) Ha) as (_ & ? & _).
  - intros f' spec' Hs' Ha' Hp' [H|H]%elem_of_app.
    + apply lookup_insert_None in Hp' as [Hp' _]. by apply (Hfresh f' spec').
    + apply lookup_insert_None in Hp' as [_ Hne]. apply Hne.
      destruct (lookup f) as [spec| |] eqn:Hlf; cbn [codec_of] in H;
        [|by apply elem_of_nil in H..].
      apply list_elem_of_singleton in H.
      by apply (catalog_codecs f spec f' spec'); [apply lookup_entry_inv| | | |].
  - intros f' p Hp'. apply lookup_insert_Some in Hp' as [[<- <-]|[Hne Hp']].
    + exists (length (probes r)). split; [done|]. split; [done|]. split; [done|].
      unfold probed. cbn [probes]. rewrite fmap_app. cbn [fmap list_fmap].
      rewrite <- (length_fmap fst). by apply list_lookup_middle.
    + destruct (Hmemo f' p Hp') as (n & -> & Hl' & Ha'' & Hn).
      exists n. split; [done|]. split; [done|]. split; [done|].
      unfold probed in *. cbn [probes]. rewrite fmap_app. by apply lookup_app_l_Some.
  - intros n Hn. rewrite length_app in Hn. cbn [length] in Hn.
    destruct (decide (n = length (probes r))) as [->|Hne].
    + exists f. by rewrite lookup_insert_eq.
    + destruct (Hall n) as [f' Hf']; [lia|]. exists f'.
      rewrite lookup_insert_ne; [done|]. intros <-. congruence.
  - rewrite length_app. cbn [length]. rewrite map_size_insert_None by done. lia.
Qed.

Lemma probed_settle_probe n o r : probed (settle_probe n o r) = probed r.
Proof.
  unfold settle_probe, probed. destruct (probes r !! n) as [[c [x|]]|] eqn:E; try done.
  cbn [probes]. rewrite list_fmap_insert. cbn [fst].
  apply list_insert_id. by rewrite list_lookup_fmap, E.
Qed.

Lemma supportChecks_settle_probe n o r :
  supportChecks (settle_probe n o r) = supportChecks r.
Proof. unfold settle_probe. by repeat case_match. Qed.

Lemma length_settle_probe n o r :
  length (probes (settle_probe n o r)) = length (probes r).
Proof.
  rewrite <- !(length_fmap fst). fold (probed (settle_probe n o r)) (probed r).
  by rewrite probed_settle_probe.
Qed.

Lemma reg_inv_settle_probe n o r : reg_inv r -> reg_inv (settle_probe n o r).
Proof.
  unfold reg_inv, codecs_probed.
  by rewrite probed_settle_probe, supportChecks_settle_probe, length_settle_probe.
Qed.

Lemma reg_inv_apply o r : reg_inv r -> reg_inv (apply o r).
Proof.
  destruct o; cbn [apply]; [apply reg_inv_isFormatSupported|apply reg_inv_settle_probe].
Qed.

Lemma reg_inv_run ops : forall r, reg_inv r -> reg_inv (run ops r).
Proof.
  induction ops as [|o ops IH]; intros r H; [done|].
  cbn. apply IH. by apply reg_inv_apply.
Qed.

(** The ids that can have a probe of their own. *)
Lemma probing_ids_NoDup : NoDup probing_ids.
Proof.
  unfold probing_ids, Taxonomy.object_prototype_members. cbn [app].
  repeat (apply NoDup_cons; split;
    [intros H; repeat (apply elem_of_cons in H as [H|H]; [discriminate|]);
     by apply elem_of_nil in H|]).
  apply NoDup_nil_2.
Qed.

Lemma inherited_member f :
  Taxonomy.inherited f = true <-> f ∈ Taxonomy.object_prototype_members.
Proof.
  unfold Taxonomy.inherited. rewrite existsb_exists. split.
  - intros (x & Hin & ->%String.eqb_eq). by apply list_elem_of_In.
  - intros H. exists f. split; [by apply list_elem_of_In|apply String.eqb_refl].
Qed.

Lemma probing_id f :
  lookup f <> Undefined -> always (lookup f) = false -> f ∈ probing_ids.
Proof.
  intros Hl Ha. unfold probing_ids. apply elem_of_app.
  destruct (lookup f) as [spec| |] eqn:E; [| |done].
  - left. by destruct (catalog_probed f spec (lookup_entry_inv _ _ E) Ha) as (? & _).
  - right. apply inherited_member. by apply lookup_inherited.
Qed.

Lemma reg_inv_keys r f p :
  reg_inv r -> supportChecks r !! f = Some p -> f ∈ probing_ids.
Proof.
  intros (_ & _ & _ & Hmemo & _) Hp.
  destruct (Hmemo f p Hp) as (n & _ & Hl & Ha & _). by apply probing_id.
Qed.

Lemma reg_inv_bound r : reg_inv r -> length (probes r) <= 15.
Proof.
  intros H. pose proof H as (_ & _ & _ & _ & _ & ->).
  rewrite <- length_map_to_list, <- (length_fmap fst).
  change 15 with (length probing_ids).
  apply submseteq_length, NoDup_submseteq; [apply NoDup_fst_map_to_list|].
  intros f [[f' p] [-> Hin]]%list_elem_of_fmap.
  apply elem_of_map_to_list in Hin. by apply (reg_inv_keys r f' p).
Qed.

Lemma reg_inv_codecs r : reg_inv r -> length (codecs_probed r) <= 3.
Proof.
  intros (Hnd & Hin & _).
  assert (codecs_probed r ⊆+ ["opus"; "aac"; "flac"]%string) as H
    by (by apply NoDup_submseteq).
  by apply submseteq_length in H.
Qed.

(** A probe about an undefined codec is the one of an inherited member. *)
Lemma reg_inv_undefined r n :
  reg_inv r -> probed r !! n = Some None ->
  exists f, Taxonomy.inherited f = true /\ spec_of f = None /\
            supportChecks r !! f = Some (Probing n).
Proof.
  intros (_ & _ & _ & Hmemo & Hall & _) Hn.
  destruct (Hall n) as [f Hf].
  { apply lookup_lt_Some in Hn. unfold probed in Hn. by rewrite length_fmap in Hn. }
  destruct (Hmemo f _ Hf) as (m & [= <-] & Hl & _ & Hm).
  exists f. rewrite Hn in Hm. injection Hm as Hm.
  destruct (lookup f) as [spec| |] eqn:E; [done| |done].
  apply lookup_inherited in E as [? ?]. done.
Qed.

(** The registry of the service is driven by [convert] and the engine's
    answers only. *)
Lemma reg_inv_step member_text e s :
  reg_inv (Service.registry s) -> reg_inv (Service.registry (Service.step member_text e s)).
Proof.
  intros H.
  assert (forall j c m s0, Service.registry (Service.log j c m s0) = Service.registry s0) as Hlog
    by (intros; unfold Service.log; by destruct (Service.onLog _)).
  assert (forall j c v s0, Service.registry (Service.progress j c v s0) = Service.registry s0)
    as Hprog by (intros; unfold Service.progress; by destruct (Service.onProgress _)).
  destruct e; cbn [Service.step].
  - unfold Service.convert. destruct (Service.activeCancel s); [done|].
    pose proof (reg_inv_isFormatSupported (Service.registry s) fmt H) as H'.
    destruct (lookup fmt); [| |done]; by destruct (isFormatSupported _ _).
  - unfold Service.cancelConversion, Service.cancel. repeat case_match; try done;
      cbn [Service.set_call Service.emit Service.registry]; by rewrite Hlog.
  - by apply reg_inv_settle_probe.
  - unfold Service.resume_support. repeat case_match; try done;
      cbn [Service.set_call Service.emit Service.registry]; by rewrite ?Hlog.
  - unfold Service.resume_arrayBuffer. repeat case_match; try done;
      cbn [Service.set_call Service.emit Service.registry Service.set_activeCancel];
      by rewrite ?Hlog, ?Hprog.
  - unfold Service.resume_getFormat, Service.finish. repeat case_match; try done;
      cbn [Service.set_call Service.emit Service.registry Service.set_activeCancel];
      by rewrite ?Hlog.
  - unfold Service.resume_init, Service.finish, Service.cancel.
    repeat case_match; try done;
      cbn [Service.set_call Service.emit Service.registry Service.set_activeCancel];
      rewrite ?Hlog; cbn [Service.set_call Service.emit Service.registry]; by rewrite ?Hlog.
  - unfold Service.engine_progress. repeat case_match; try done. by rewrite Hprog.
  - unfold Service.execute_settled. by repeat case_match.
  - unfold Service.resume_race, Service.finish. repeat case_match; try done;
      cbn [Service.set_call Service.emit Service.registry Service.set_activeCancel];
      by rewrite ?Hlog, ?Hprog.
Qed.

Lemma reg_inv_service member_text es : forall s,
  reg_inv (Service.registry s) ->
  reg_inv (Service.registry (Service.run member_text es s)).
Proof.
  induction es as [|e es IH]; intros s H; [done|].
  cbn. apply IH. by apply reg_inv_step.
Qed.

(** *** An answer is final *)

Lemma answer_cases r f b :
  answer r f = Some b ->
  (lookup f = Undefined /\ b = false) \/
  (lookup f <> Undefined /\ always (lookup f) = true /\ b = true) \/
  (exists p, lookup f <> Undefined /\ always (lookup f) = false /\
             supportChecks r !! f = Some p /\ value r p = Some b).
Proof.
  unfold answer.
  destruct (isFormatSupported_cases r f) as [[p Hp]|(Hl & Ha & Hp & ->)].
  - rewrite Hp. cbn [fst]. revert Hp. unfold isFormatSupported.
    destruct (lookup f) as [spec| |] eqn:Hl.
    + destruct (always (Entry spec)) eqn:Ha.
      { intros [= <-] [= <-]. right. by left. }
      destruct (supportChecks r !! f) as [q|] eqn:Hq.
      { intros [= <-] Hv. right. right. by exists q. }
      unfold checkCodecSupport. destruct (is_pcm _); intros [= _ E];
        apply (f_equal supportChecks) in E; cbn [supportChecks] in E;
        apply (f_equal (fun m => m !! f)) in E; cbn beta in E;
        by rewrite lookup_insert_eq, Hq in E.
    + destruct (always Inherited) eqn:Ha; [done|].
      destruct (supportChecks r !! f) as [q|] eqn:Hq.
      { intros [= <-] Hv. right. right. by exists q. }
      unfold checkCodecSupport. destruct (is_pcm _); intros [= _ E];
        apply (f_equal supportChecks) in E; cbn [supportChecks] in E;
        apply (f_equal (fun m => m !! f)) in E; cbn beta in E;
        by rewrite lookup_insert_eq, Hq in E.
    + intros [= <-] [= <-]. by left.
  - cbn [fst value]. by rewrite lookup_ge_None_2.
Qed.

Lemma answer_memoized r f p :
  lookup f <> Undefined -> always (lookup f) = false ->
  supportChecks r !! f = Some p -> answer r f = value r p.
Proof.
  intros Hl Ha Hp. unfold answer, isFormatSupported.
  destruct (lookup f); [| |done]; by rewrite Ha, Hp.
Qed.

Lemma answer_apply o r f b : answer r f = Some b -> answer (apply o r) f = Some b.
Proof.
  intros H. destruct (answer_cases r f b H)
    as [[Hs ->]|[(Hs & Ha & ->)|(p & Hs & Ha & Hp & Hv)]].
  - unfold answer, isFormatSupported. by rewrite Hs.
  - unfold answer, isFormatSupported. destruct (lookup f); [| |done]; by rewrite Ha.
  - rewrite (answer_memoized _ f p Hs Ha (apply_memo_kept o r f p Hp)).
    by apply value_apply.
Qed.

Lemma answer_run ops : forall r f b, answer r f = Some b -> answer (run ops r) f = Some b.
Proof.
  induction ops as [|o ops IH]; intros r f b H; [done|].
  cbn. apply IH. by apply answer_apply.
Qed.

End RegistryLifetime.

(** X9: over the lifetime of a registry, whatever is asked and answered,
    every call of [canEncodeAudio] is the one whose promise is kept under
    an id asked about, so that no id has two. It is asked about a codec of
    the catalog only for Opus, AAC and FLAC, and about each of them at most
    once; it is asked about an undefined codec only for an id that names a
    member every object inherits, and is not of the catalog. So there are
    never more than three probes about a codec, and never more than
    fifteen in all. The same holds of the registry of the service along
    every run. *)
Theorem each_codec_probed_at_most_once :
  (forall ops,
     let r := Registry.run ops Registry.empty in
     NoDup (RegistryLaws.codecs_probed r) /\
     (forall c, c ∈ RegistryLaws.codecs_probed r -> c ∈ ["opus"; "aac"; "flac"]%string) /\
     (forall n, RegistryLaws.probed r !! n = Some None ->
        exists f, Taxonomy.inherited f = true /\ Registry.spec_of f = None /\
                  Registry.supportChecks r !! f = Some (Registry.Probing n)) /\
     (forall n, n < length (Registry.probes r) ->
        exists f, Registry.supportChecks r !! f = Some (Registry.Probing n)) /\
     length (RegistryLaws.codecs_probed r) <= 3 /\
     length (Registry.probes r) <= 15) /\
  (forall member_text es,
     let r := Service.registry (Service.run member_text es Service.init) in
     NoDup (RegistryLaws.codecs_probed r) /\
     (forall c, c ∈ RegistryLaws.codecs_probed r -> c ∈ ["opus"; "aac"; "flac"]%string) /\
     (forall n, RegistryLaws.probed r !! n = Some None ->
        exists f, Taxonomy.inherited f = true /\ Registry.spec_of f = None /\
                  Registry.supportChecks r !! f = Some (Registry.Probing n)) /\
     (forall n, n < length (Registry.probes r) ->
        exists f, Registry.supportChecks r !! f = Some (Registry.Probing n)) /\
     length (RegistryLaws.codecs_probed r) <= 3 /\
     length (Registry.probes r) <= 15).
Proof.
  assert (forall r, RegistryLaws.reg_inv r ->
     NoDup (RegistryLaws.codecs_probed r) /\
     (forall c, c ∈ RegistryLaws.codecs_probed r -> c ∈ ["opus"; "aac"; "flac"]%string) /\
     (forall n, RegistryLaws.probed r !! n = Some None ->
        exists f, Taxonomy.inherited f = true /\ Registry.spec_of f = None /\
                  Registry.supportChecks r !! f = Some (Registry.Probing n)) /\
     (forall n, n < length (Registry.probes r) ->
        exists f, Registry.supportChecks r !! f = Some (Registry.Probing n)) /\
     length (RegistryLaws.codecs_probed r) <= 3 /\
     length (Registry.probes r) <= 15) as Hall.
  { intros r H. pose proof (reg_inv_bound _ H) as Hb.
    pose proof (reg_inv_codecs _ H) as Hc.
    pose proof (fun n => reg_inv_undefined r n H) as Hu.
    by destruct H as (Hnd & Hin & _ & _ & Hevery & _). }
  split.
  - intros ops r. apply Hall, reg_inv_run, reg_inv_empty.
  - intros member_text es r.
    apply Hall, (reg_inv_service member_text es Service.init reg_inv_empty).
Qed.

(** The probes of a registry asked about every kind of id. *)
Example probes_of_every_kind :
  Registry.probes
    (Registry.run [Registry.Ask "ogg"; Registry.Ask "toString"; Registry.Ask "mp3";
                   Registry.Ask "xyz"; Registry.Ask "valueOf"; Registry.Ask "toString";
                   Registry.Ask "ogg"] Registry.empty)
  = [(Some "opus"%string, None); (None, None); (None, None)].
Proof. reflexivity. Qed.

(** X10: once a call of [isFormatSupported] for a format has resolved to a
    value, every later call for that format resolves to the same value,
    whatever was asked and answered in between. *)
Theorem support_answer_is_final
    (r : Registry.t) (formatId : string) (b : bool) (ops : list Registry.op) :
  RegistryLaws.answer r formatId = Some b ->
  RegistryLaws.answer (Registry.run ops r) formatId = Some b.
Proof. apply answer_run. Qed.

Lemma support_answer_is_final_witness :
  RegistryLaws.answer
    (Registry.run [Registry.Ask "ogg"; Registry.Answer 0 Registry.ProbeThrew] Registry.empty)
    "ogg" = Some false /\
  RegistryLaws.answer
    (Registry.run [Registry.Ask "flac"; Registry.Answer 0 (Registry.ProbeAnswered true);
                   Registry.Answer 1 (Registry.ProbeAnswered true); Registry.Ask "ogg"]
       (Registry.run [Registry.Ask "ogg"; Registry.Answer 0 Registry.ProbeThrew]
          Registry.empty))
    "ogg" = Some false.
Proof.
  split; [reflexivity|].
  exact (support_answer_is_final
           (Registry.run [Registry.Ask "ogg"; Registry.Answer 0 Registry.ProbeThrew]
              Registry.empty)
           "ogg" false
           [Registry.Ask "flac"; Registry.Answer 0 (Registry.ProbeAnswered true);
            Registry.Answer 1 (Registry.ProbeAnswered true); Registry.Ask "ogg"]
           eq_refl).
Defined.

(* ===================================================================== *)
(** ** The list of formats with their support *)
(* ===================================================================== *)

Section ListingFacts.
Import Registry RegistryLaws.

Lemma listed_apply o r opt entry :
  listed r opt entry -> listed (apply o r) opt entry.
Proof.
  intros (H1 & H2 & H3 & H4 & b & Hb & Ha & Hrest).
  repeat (split; [done|]). exists b. split; [done|]. split; [|done].
  by apply answer_apply.
Qed.

Lemma listed_all_apply o r opts entries :
  Forall2 (listed r) opts entries -> Forall2 (listed (apply o r)) opts entries.
Proof. intros H. eapply Forall2_impl; [exact H|]. intros opt entry. apply listed_apply. Qed.

Lemma awaited_for_apply o r p entry :
  awaited_for r p entry -> awaited_for (apply o r) p entry.
Proof.
  intros [H|[Ha Hp]]; [by left|]. right. split; [done|]. by apply apply_memo_kept.
Qed.

Lemma awaited_for_answer r p entry b :
  spec_of entry.1 = Some entry.2 ->
  awaited_for r p entry -> value r p = Some b ->
  answer r entry.1 = Some b /\ (alwaysAvailable entry.2 = true -> b = true).
Proof.
  intros Hs [[Ha ->]|[Ha Hp]] Hv; unfold answer, isFormatSupported;
    rewrite (lookup_entry _ _ Hs); cbn [always]; rewrite Ha.
  - cbn in *. split; [done|]. intros _. congruence.
  - rewrite Hp. by split.
Qed.

Lemma listing_inv_iterate before after opts r :
  AUDIO_FORMAT_SPECS = before ++ after ->
  reg_inv r ->
  Forall2 (listed r) opts before ->
  listing_inv (Listing.iterate (map to_option after) opts r).
Proof.
  intros Hcat HR Hopts. destruct after as [|entry after]; cbn [map Listing.iterate].
  - split; [done|]. cbn. rewrite app_nil_r in Hcat. by rewrite Hcat.
  - change (Listing.id (to_option entry)) with entry.1.
    pose proof (reg_inv_isFormatSupported r entry.1 HR) as HR'.
    pose proof (listed_all_apply (Ask entry.1) r _ _ Hopts) as Hopts'.
    cbn [apply] in Hopts'.
    assert (spec_of entry.1 = Some entry.2) as Hs.
    { apply catalog_entry. rewrite Hcat. destruct entry. set_solver. }
    assert (awaited_for (isFormatSupported r entry.1).2 (isFormatSupported r entry.1).1 entry)
      as Haw.
    { destruct (alwaysAvailable entry.2) eqn:Ha.
      - left. split; [done|]. unfold isFormatSupported.
        rewrite (lookup_entry _ _ Hs). cbn [always]. by rewrite Ha.
      - right. split; [done|]. by apply (isFormatSupported_memoizes _ _ entry.2). }
    destruct (isFormatSupported r entry.1) as [p r'].
    split; [done|]. cbn. by exists before, entry, after.
Qed.

Lemma listing_inv_start r :
  reg_inv r -> listing_inv (Listing.getFormatOptionsWithSupport r).
Proof.
  intros HR. apply (listing_inv_iterate [] AUDIO_FORMAT_SPECS); [done..|constructor].
Qed.

Lemma listing_inv_resume l r :
  listing_inv (Listing.Awaiting l, r) -> listing_inv (Listing.resume l r).
Proof.
  intros [HR (before & entry & after & Hcat & Hrem & Hopts & Haw)].
  cbn [fst snd] in *. unfold Listing.resume. rewrite Hrem. cbn [map].
  destruct (value r (Listing.awaited l)) as [sup|] eqn:Hv;
    [|split; [done|]; cbn; by exists before, entry, after].
  change (Listing.id (to_option entry)) with entry.1.
  assert (spec_of entry.1 = Some entry.2) as Hs.
  { apply catalog_entry. rewrite Hcat. destruct entry. set_solver. }
  destruct (awaited_for_answer r _ entry sup Hs Haw Hv) as [Hans Halw].
  rewrite (lookup_entry _ _ Hs). cbn [unsupportedMessage_of].
  assert (AUDIO_FORMAT_SPECS = (before ++ [entry]) ++ after) as Hcat'
    by (by rewrite <- app_assoc).
  destruct sup.
  - apply (listing_inv_iterate _ _ _ _ Hcat' HR).
    apply Forall2_app; [done|]. constructor; [|constructor].
    repeat (split; [done|]). exists true. by repeat split.
  - assert (alwaysAvailable entry.2 = false) as Ha.
    { destruct (alwaysAvailable entry.2); [|done]. by specialize (Halw eq_refl). }
    destruct (catalog_probed _ _ Hs Ha) as (_ & _ & _ & Hmsg).
    destruct (unsupportedMessage entry.2) as [m|] eqn:Hm; [|done]. cbn [Service.nullish].
    apply (listing_inv_iterate _ _ _ _ Hcat' HR).
    apply Forall2_app; [done|]. constructor; [|constructor].
    repeat (split; [done|]). exists false. rewrite Hm. by repeat split.
Qed.

Lemma listing_inv_step e st : listing_inv st -> listing_inv (Listing.step e st).
Proof.
  destruct st as [p r]. destruct e as [|o]; cbn [Listing.step fst snd].
  - destruct p; [apply listing_inv_resume|done..].
  - intros [HR H]. split; [by apply reg_inv_apply|]. cbn [fst snd] in *.
    destruct p as [l|opts|]; [| |done].
    + destruct H as (before & entry & after & Hcat & Hrem & Hopts & Haw).
      exists before, entry, after. repeat split; try done.
      * by apply listed_all_apply.
      * by apply awaited_for_apply.
    + by apply listed_all_apply.
Qed.

Lemma listing_inv_run es : forall st, listing_inv st -> listing_inv (Listing.run es st).
Proof.
  induction es as [|e es IH]; intros st H; [done|].
  cbn. apply IH. by apply listing_inv_step.
Qed.

Lemma listed_ids r opts entries :
  Forall2 (listed r) opts entries -> Listing.id <$> opts = entries.*1.
Proof.
  induction 1 as [|opt entry opts entries (H & _) _ IH]; [done|].
  cbn. by rewrite H, IH.
Qed.

(** *** The call returns once the engine has answered *)

Lemma value_after_answer r n o x :
  probes r !! n = Some x -> is_Some (value (settle_probe n o r) (Probing n)).
Proof.
  intros H. unfold settle_probe. rewrite H. destruct x as [c [out|]].
  - cbn [value]. rewrite H. by destruct out.
  - cbn [value probes]. rewrite list_lookup_insert_eq by (by eapply lookup_lt_Some).
    by destruct o.
Qed.

Lemma resume_turn l r :
  listing_inv (Listing.Awaiting l, r) -> is_Some (value r (Listing.awaited l)) ->
  match (Listing.resume l r).1 with
  | Listing.Awaiting l' => length (Listing.remaining l') < length (Listing.remaining l)
  | _ => True
  end.
Proof.
  intros Hinv [sup Hv]. pose proof (listing_inv_resume l r Hinv) as Hafter.
  destruct Hinv as [HR (before & entry & after & Hcat & Hrem & Hopts & Haw)].
  revert Hafter. unfold Listing.resume. rewrite Hrem, Hv. cbn [map].
  assert (forall opts,
    match (Listing.iterate (map to_option after) opts r).1 with
    | Listing.Awaiting l' =>
        length (Listing.remaining l') < length (to_option entry :: map to_option after)
    | _ => True
    end) as Hit.
  { intros opts. destruct after as [|e' after]; [done|]. cbn [map Listing.iterate].
    destruct (isFormatSupported _ _). cbn. lia. }
  destruct sup; [intros _; apply Hit|].
  destruct (lookup _); [intros _; apply Hit..|]. by intros _.
Qed.

Lemma listing_returns answers : forall n st,
  listing_inv st ->
  match st.1 with
  | Listing.Awaiting l => length (Listing.remaining l) <= n
  | _ => True
  end ->
  exists es opts r',
    Forall (engine_only answers) es /\
    Listing.run es st = (Listing.Returned opts, r').
Proof.
  induction n as [|n IH]; intros [p r] Hinv Hn; cbn [fst snd] in *.
  - destruct p as [l|opts|].
    + destruct Hinv as [_ (before & entry & after & _ & Hrem & _)].
      cbn in Hrem. rewrite Hrem in Hn. cbn in Hn. lia.
    + by exists [], opts, r.
    + by destruct Hinv.
  - destruct p as [l|opts|]; [|by exists [], opts, r|by destruct Hinv].
    pose proof Hinv as [HR (before & entry & after & Hcat & Hrem & Hopts & Haw)].
    cbn [fst snd] in *.
    assert (exists es1 r1, Forall (engine_only answers) es1 /\
              Listing.run es1 (Listing.Awaiting l, r) = (Listing.Awaiting l, r1) /\
              listing_inv (Listing.Awaiting l, r1) /\
              is_Some (value r1 (Listing.awaited l))) as (es1 & r1 & Hes1 & Hrun1 & Hinv1 & Hv1).
    { destruct Haw as [[_ Hp]|[_ Hp]].
      - exists [], r. split; [constructor|]. split; [done|]. split; [done|].
        rewrite Hp. by eexists.
      - destruct HR as (_ & _ & _ & Hmemo & _).
        destruct (Hmemo _ _ Hp) as (m & Hpm & _ & _ & Hm).
        unfold probed in Hm. rewrite list_lookup_fmap in Hm.
        destruct (probes r !! m) as [x|] eqn:Hx; [|done].
        exists [Listing.Elsewhere (Answer m (answers m))], (settle_probe m (answers m) r).
        split; [constructor; [right; by exists m|constructor]|].
        split; [done|].
        split; [apply (listing_inv_step (Listing.Elsewhere (Answer m (answers m))) _ Hinv)|].
        rewrite Hpm. by apply (value_after_answer _ _ _ x). }
    pose proof (resume_turn l r1 Hinv1 Hv1) as Hturn.
    destruct (IH (Listing.resume l r1) (listing_inv_resume _ _ Hinv1))
      as (es2 & opts & r' & Hes2 & Hrun2).
    { destruct (Listing.resume l r1).1; [|done..]. lia. }
    exists (es1 ++ Listing.Resume :: es2), opts, r'. split.
    + apply Forall_app. split; [done|]. constructor; [by left|done].
    + unfold Listing.run in *. rewrite fold_left_app, Hrun1. cbn. exact Hrun2.
Qed.

End ListingFacts.

(** X11: [getFormatOptionsWithSupport], whatever else uses the registry
    while it is suspended, never throws, and what it returns lists the
    formats of the catalog in their order, each with its label, description
    and extension, with [supported] as [isFormatSupported] answers for it
    from then on ([true] for the formats always available), without a reason
    when supported and with the format's own message otherwise. *)
Theorem listing_follows_the_catalog
    (ops : list Registry.op) (es : list Listing.event) :
  let st := Listing.run es
              (Listing.getFormatOptionsWithSupport (Registry.run ops Registry.empty)) in
  st.1 <> Listing.Threw /\
  (forall opts, st.1 = Listing.Returned opts ->
     Listing.id <$> opts = ["mp3"; "wav"; "ogg"; "aac"; "flac"]%string /\
     Forall2 (RegistryLaws.listed st.2) opts Registry.AUDIO_FORMAT_SPECS).
Proof.
  intros st.
  pose proof (listing_inv_run es _
                (listing_inv_start _ (reg_inv_run ops _ reg_inv_empty))) as [_ H].
  fold st in H. split.
  - intros E. by rewrite E in H.
  - intros opts E. rewrite E in H. split; [|done].
    by rewrite (listed_ids _ _ _ H).
Qed.

(** X12: [getFormatOptionsWithSupport] returns once the engine has answered
    the probes it awaits: from any registry, there is a run made only of
    answers of the engine (whatever they are) and resumptions of the call
    that ends with the list returned. *)
Theorem listing_returns_on_answers
    (ops : list Registry.op) (answers : nat -> Registry.probe_outcome) :
  exists es opts r',
    Forall (RegistryLaws.engine_only answers) es /\
    Listing.run es (Listing.getFormatOptionsWithSupport (Registry.run ops Registry.empty))
    = (Listing.Returned opts, r').
Proof.
  apply (listing_returns answers (length Listing.AUDIO_OUTPUT_OPTIONS)).
  - apply listing_inv_start, reg_inv_run, reg_inv_empty.
  - pose proof (listing_inv_start _ (reg_inv_run ops _ reg_inv_empty)) as [_ H].
    destruct (Listing.getFormatOptionsWithSupport _).1 as [l| |] eqn:E; [|done..].
    destruct H as (before & entry & after & Hcat & Hrem & _).
    rewrite Hrem, length_map.
    change (length Listing.AUDIO_OUTPUT_OPTIONS) with (length Registry.AUDIO_FORMAT_SPECS).
    rewrite Hcat, length_app. cbn. lia.
Qed.

(** X13: a call of [convert] for a format of the catalog that
    [isFormatSupported] already answers [false] for is refused, when it
    resumes, with the format's own message (the text the list of formats
    gives as its reason), before the file is read: nothing is logged or
    called, no probe is made, and the marker stays clear. *)
Theorem unsupported_format_is_refused_with_its_reason
    (s : Service.State) (f : Service.File) (fmt : string)
    (cb : Service.ProgressCallbacks) (spec : Registry.AudioFormatSpec) :
  Service.activeCancel s = None ->
  Registry.spec_of fmt = Some spec ->
  RegistryLaws.answer (Service.registry s) fmt = Some false ->
  exists m,
    Registry.unsupportedMessage spec = Some m /\
    Service.stage_of (length (Service.calls s))
      (Service.resume_support (length (Service.calls s)) (Service.convert f fmt cb s))
    = Some (Service.Done (Service.Threw (Service.Error m))) /\
    Service.effects
      (Service.resume_support (length (Service.calls s)) (Service.convert f fmt cb s))
    = Service.effects s /\
    Service.registry
      (Service.resume_support (length (Service.calls s)) (Service.convert f fmt cb s))
    = Service.registry s /\
    Service.activeCancel
      (Service.resume_support (length (Service.calls s)) (Service.convert f fmt cb s))
    = None.
Proof.
  intros Hidle Hs Hans.
  pose proof (lookup_entry _ _ Hs) as Hl.
  destruct (answer_cases _ _ _ Hans)
    as [[Hs' _]|[(_ & _ & [=])|(p & _ & Ha & Hp & Hv)]];
    [congruence|]. rewrite Hl in Ha. cbn [Registry.always] in Ha.
  destruct (catalog_probed _ _ Hs Ha) as (_ & _ & _ & Hmsg).
  destruct (Registry.unsupportedMessage spec) as [m|] eqn:Hm; [|done].
  exists m. split; [done|].
  unfold Service.convert. rewrite Hidle, Hl.
  rewrite (isFormatSupported_cached _ _ spec p Hs Ha Hp).
  unfold Service.resume_support. cbn [Service.calls].
  rewrite list_lookup_middle by done.
  cbn [Service.at_stage Service.formatId Service.registry]. rewrite Hv, Hl.
  cbn [Registry.unsupportedMessage_of]. rewrite Hm.
  cbn [Service.nullish Service.set_call Service.effects Service.registry
       Service.activeCancel Service.calls Service.set_stage].
  split; [|done].
  unfold Service.stage_of. cbn [Service.calls Service.set_call].
  rewrite list_lookup_insert_eq by (rewrite length_app; cbn; lia). done.
Qed.

Lemma unsupported_format_is_refused_with_its_reason_witness :
  exists m,
    Registry.unsupportedMessage <$> Registry.spec_of "ogg" = Some (Some m) /\
    Service.stage_of 1
      (Service.run ServiceSpec.plain_text
         [ Service.CallConvert ServiceSpec.clip "ogg" ServiceSpec.both_callbacks;
           Service.ProbeSettled 0 (Registry.ProbeAnswered false);
           Service.SupportResumed 0;
           Service.CallConvert ServiceSpec.other_clip "ogg" ServiceSpec.both_callbacks;
           Service.SupportResumed 1 ] Service.init)
    = Some (Service.Done (Service.Threw (Service.Error m))).
Proof.
  destruct (unsupported_format_is_refused_with_its_reason
              (Service.run ServiceSpec.plain_text
                 [ Service.CallConvert ServiceSpec.clip "ogg" ServiceSpec.both_callbacks;
                   Service.ProbeSettled 0 (Registry.ProbeAnswered false);
                   Service.SupportResumed 0 ] Service.init)
              ServiceSpec.other_clip "ogg" ServiceSpec.both_callbacks
              _ eq_refl eq_refl eq_refl) as (m & Hm & Hst & _).
  exists m. split; [by rewrite <- Hm|exact Hst].
Defined.

(* ===================================================================== *)
(** ** What an output name looks like *)
(* ===================================================================== *)

Section NamingShape.
Import JsString Naming NamingSpec NamingLaws.

Lemma lower_unit_underscore c : is_char "_" (lower_unit c) = is_char "_" c.
Proof. destruct c as [[] [] [] [] [] [] [] []]; reflexivity. Qed.

Lemma lower_unit_safe c : is_safe c = true -> is_output_unit (lower_unit c) = true.
Proof. destruct c as [[] [] [] [] [] [] [] []]; intros H; try reflexivity; discriminate H. Qed.

Lemma squeeze_forallb (q p : ascii -> bool) b l :
  q "_"%char = true -> (forall c, p c = false -> q c = true) ->
  forallb q (squeeze p b l) = true.
Proof.
  intros Hu Hq. revert b. induction l as [|c l IH]; intros b; [done|]. cbn [squeeze].
  destruct (p c) eqn:Hp.
  - destruct b; [apply IH|]. cbn. by rewrite Hu, IH.
  - cbn. by rewrite (Hq c Hp), IH.
Qed.

Lemma squeeze_keeps (q p : ascii -> bool) b l :
  q "_"%char = true -> forallb q l = true -> forallb q (squeeze p b l) = true.
Proof.
  intros Hu. revert b. induction l as [|c l IH]; intros b; [done|]. cbn [squeeze forallb].
  intros [Hc Hl]%andb_prop. destruct (p c).
  - destruct b; [by apply IH|]. cbn. by rewrite Hu, IH.
  - cbn. by rewrite Hc, IH.
Qed.

Lemma squeeze_single b l :
  no_double (is_char "_") (squeeze (is_char "_") b l) = true /\
  (b = true -> starts_with (is_char "_") (squeeze (is_char "_") b l) = false).
Proof.
  revert b. induction l as [|c l IH]; intros b; [done|]. cbn [squeeze].
  destruct (is_char "_" c) eqn:Hc.
  - destruct b.
    + apply IH.
    + destruct (IH true) as [H1 H2]. split; [|done].
      cbn [no_double]. rewrite (H2 eq_refl), H1. by rewrite andb_false_r.
  - destruct (IH false) as [H1 _]. cbn [no_double starts_with]. rewrite Hc, H1. by split.
Qed.

Lemma starts_with_drop_leading p l : starts_with p (drop_leading p l) = false.
Proof.
  unfold drop_leading. induction l as [|c l IH]; [done|]. cbn [run_length].
  destruct (p c) eqn:Hc; [exact IH|]. cbn. exact Hc.
Qed.

Lemma no_double_tail p c l : no_double p (c :: l) = true -> no_double p l = true.
Proof. cbn [no_double]. by intros [_ H]%andb_prop. Qed.

Lemma no_double_drop p n : forall l, no_double p l = true -> no_double p (drop n l) = true.
Proof.
  induction n as [|n IH]; intros [|c l] H; try done.
  cbn [drop]. apply IH. by apply (no_double_tail p c).
Qed.

Lemma starts_with_take p n l :
  starts_with p l = false -> starts_with p (take n l) = false.
Proof. by destruct n, l. Qed.

Lemma no_double_take p n : forall l, no_double p l = true -> no_double p (take n l) = true.
Proof.
  induction n as [|n IH]; intros [|c l] H; try done.
  cbn [take no_double] in *. apply andb_prop in H as [H1 H2].
  rewrite (IH l H2), andb_true_r.
  destruct (p c); [|done]. cbn [andb negb] in *.
  destruct (starts_with p l) eqn:E; [done|]. by rewrite starts_with_take.
Qed.

Lemma forallb_take (q : ascii -> bool) n : forall l,
  forallb q l = true -> forallb q (take n l) = true.
Proof.
  induction n as [|n IH]; intros [|c l] H; try done.
  cbn [take forallb] in *. apply andb_prop in H as [H1 H2]. by rewrite H1, IH.
Qed.

Lemma forallb_drop (q : ascii -> bool) n : forall l,
  forallb q l = true -> forallb q (drop n l) = true.
Proof.
  induction n as [|n IH]; intros [|c l] H; try done.
  cbn [drop forallb] in *. apply andb_prop in H as [H1 H2]. by apply IH.
Qed.

Lemma drop_trailing_take p l :
  drop_trailing p l = take (length l - run_length p (rev l)) l.
Proof.
  unfold drop_trailing, drop_leading. by rewrite skipn_rev, rev_involutive.
Qed.

Lemma starts_with_map p (f : ascii -> ascii) l :
  (forall c, p (f c) = p c) -> starts_with p (map f l) = starts_with p l.
Proof. intros H. destruct l; [done|]. apply H. Qed.

Lemma no_double_map p (f : ascii -> ascii) l :
  (forall c, p (f c) = p c) -> no_double p (map f l) = no_double p l.
Proof.
  intros H. induction l as [|c l IH]; [done|].
  cbn [map no_double]. by rewrite H, IH, starts_with_map.
Qed.

Lemma forallb_map_lower l :
  forallb is_safe l = true -> forallb is_output_unit (map lower_unit l) = true.
Proof.
  induction l as [|c l IH]; [done|]. cbn [map forallb].
  intros [Hc Hl]%andb_prop. by rewrite lower_unit_safe, IH.
Qed.

Lemma sanitizeBaseName_units_shape l :
  length (sanitizeBaseName_units l) <= 64 /\
  forallb is_output_unit (sanitizeBaseName_units l) = true /\
  starts_with (is_char "_") (sanitizeBaseName_units l) = false /\
  no_double (is_char "_") (sanitizeBaseName_units l) = true.
Proof.
  rewrite sanitizeBaseName_units_stages.
  set (a := replace_runs is_unsafe (strip_extension l)).
  set (b := replace_runs (is_char "_") a).
  assert (forallb is_safe a = true) as Ha.
  { apply squeeze_forallb; [done|]. intros c Hc. unfold is_unsafe in Hc.
    by apply negb_false_iff in Hc. }
  assert (forallb is_safe b = true) as Hb by (by apply squeeze_keeps).
  destruct (squeeze_single false a) as [Hsingle _]. fold (replace_runs (is_char "_") a) in Hsingle.
  fold b in Hsingle.
  unfold trim_underscores. rewrite drop_trailing_take.
  set (t := drop_leading (is_char "_") b).
  assert (forallb is_safe t = true) as Ht by (by apply forallb_drop).
  assert (starts_with (is_char "_") t = false) as Hstart by apply starts_with_drop_leading.
  assert (no_double (is_char "_") t = true) as Hnd by (by apply no_double_drop).
  split; [|split; [|split]].
  - rewrite length_take. lia.
  - apply forallb_take, forallb_map_lower. by apply forallb_take.
  - apply starts_with_take. rewrite starts_with_map by apply lower_unit_underscore.
    by apply starts_with_take.
  - apply no_double_take. rewrite no_double_map by apply lower_unit_underscore.
    by apply no_double_take.
Qed.

Lemma chars_str l : chars (str l) = l.
Proof. apply list_ascii_of_string_of_list_ascii. Qed.

Lemma length_str l : String.length (str l) = length l.
Proof. induction l as [|c l IH]; [done|]. cbn. by rewrite <- IH. Qed.

Lemma str_empty l : str l = EmptyString -> l = [].
Proof. by destruct l. Qed.

(** *** The extension plays no part *)

Lemma chars_append a b : chars (a ++ b) = chars a ++ chars b.
Proof. unfold chars. induction a as [|c a IH]; [done|]. simpl. by rewrite IH. Qed.

Lemma is_extension_dot a b : is_extension (a ++ "."%char :: b) = false.
Proof.
  unfold is_extension. destruct (a ++ "."%char :: b) eqn:E; [done|]. rewrite <- E.
  apply not_true_is_false. intros H. rewrite forallb_app in H.
  apply andb_prop in H as [_ H]. cbn in H. done.
Qed.

Lemma strip_extension_app l e :
  is_extension e = true -> strip_extension (l ++ "."%char :: e) = l.
Proof.
  intros He. induction l as [|c l IH]; cbn [app strip_extension].
  - by rewrite He.
  - by rewrite is_extension_dot, andb_false_r, IH.
Qed.

Lemma sanitizeBaseName_with_extension base e :
  is_extension (chars e) = true ->
  sanitizeBaseName (with_extension base e)
  = str (take 64 (map lower_unit
      (trim_underscores
        (replace_runs (is_char "_")
          (replace_runs is_unsafe (chars base)))))).
Proof.
  intros He. unfold sanitizeBaseName, with_extension.
  rewrite sanitizeBaseName_units_stages, !chars_append.
  change (chars ".") with ["."%char]. cbn [app].
  by rewrite strip_extension_app.
Qed.

End NamingShape.

(** X14: whatever the source name and the extension, the output name is a
    base followed by the extension, where the base is not empty, has at
    most 64 units, all of them lower-case letters, digits, dashes or
    underscores, does not begin with an underscore and has no two
    underscores in a row. *)
Theorem buildOutputName_shape (name extension : string) :
  exists base,
    Naming.buildOutputName name extension = (base ++ extension)%string /\
    base <> EmptyString /\
    String.length base <= 64 /\
    forallb NamingLaws.is_output_unit (JsString.chars base) = true /\
    NamingLaws.starts_with (NamingSpec.is_char "_") (JsString.chars base) = false /\
    NamingLaws.no_double (NamingSpec.is_char "_") (JsString.chars base) = true.
Proof.
  unfold Naming.buildOutputName, Naming.sanitizeBaseName.
  destruct (sanitizeBaseName_units_shape (JsString.chars name)) as (H1 & H2 & H3 & H4).
  set (l := Naming.sanitizeBaseName_units (JsString.chars name)) in *.
  destruct (JsString.str l) as [|c s] eqn:E.
  - exists "audio"%string. cbn [Naming.or_else].
    split; [done|]. split; [done|]. split; [cbn; lia|]. by split.
  - exists (JsString.str l). rewrite E. cbn [Naming.or_else]. rewrite <- E.
    split; [done|]. split; [by rewrite E|].
    rewrite chars_str. split; [|done].
    by rewrite length_str.
Qed.

(** X15: the extension of the source name plays no part: two source names
    that differ only in their extension (a last dot followed by units none
    of which is a dot or a slash) give the same output name. *)
Theorem buildOutputName_ignores_extension (base e1 e2 extension : string) :
  NamingSpec.is_extension (JsString.chars e1) = true ->
  NamingSpec.is_extension (JsString.chars e2) = true ->
  Naming.buildOutputName (NamingLaws.with_extension base e1) extension
  = Naming.buildOutputName (NamingLaws.with_extension base e2) extension.
Proof.
  intros H1 H2. unfold Naming.buildOutputName.
  by rewrite !sanitizeBaseName_with_extension.
Qed.

Lemma buildOutputName_ignores_extension_witness :
  Naming.buildOutputName (NamingLaws.with_extension "Holiday 2024.final" "mp4") ".ogg"
  = "holiday_2024_final.ogg"%string /\
  Naming.buildOutputName (NamingLaws.with_extension "Holiday 2024.final" "mp4") ".ogg"
  = Naming.buildOutputName (NamingLaws.with_extension "Holiday 2024.final" "MOV") ".ogg".
Proof.
  split; [reflexivity|].
  exact (buildOutputName_ignores_extension "Holiday 2024.final" "mp4" "MOV" ".ogg"
           eq_refl eq_refl).
Defined.

(* ===================================================================== *)
(** ** The marker is always released *)
(* ===================================================================== *)

(** X23: [activeCancel] only ever names a call that is between
    [this.activeCancel = cancel] and its [finally] block; so whenever no
    call is there (however the earlier ones ended), the marker is clear and
    the next call of [convert] is not turned away as busy. *)
Theorem busy_always_clears
    (member_text : string -> string) (es : list Service.event)
    (f : Service.File) (fmt : string) (cb : Service.ProgressCallbacks) :
  (forall id c, Service.calls (Service.run member_text es Service.init) !! id = Some c ->
                ServiceSpec.armed (Service.at_stage c) = false) ->
  Service.activeCancel (Service.run member_text es Service.init) = None /\
  Service.stage_of (length (Service.calls (Service.run member_text es Service.init)))
    (Service.convert f fmt cb (Service.run member_text es Service.init))
  <> Some (Service.Done (Service.Threw ServiceSpec.Busy)).
Proof.
  intros Hnone.
  assert (Service.activeCancel (Service.run member_text es Service.init) = None) as Hidle.
  { destruct (Inv_run member_text es _ Inv_init) as [Ha _].
    destruct (Service.activeCancel _) as [j|] eqn:E; [|done].
    destruct (Ha j eq_refl) as (c & Hc & Harm). by rewrite (Hnone j c Hc) in Harm. }
  split; [done|].
  unfold Service.convert, Service.stage_of. rewrite Hidle.
  destruct (Registry.lookup fmt);
    [destruct (Registry.isFormatSupported _ _); cbn [Service.calls];
     by rewrite list_lookup_middle..|].
  cbn [Service.calls]. rewrite list_lookup_middle by done. cbn. intros [=].
Qed.

Lemma busy_always_clears_witness :
  Service.stage_of 1
    (Service.run ServiceSpec.plain_text ServiceLaws.one_after_the_other Service.init)
  = Some (Service.Done (Service.Threw ServiceSpec.Busy)) /\
  Service.activeCancel
    (Service.run ServiceSpec.plain_text ServiceLaws.one_after_the_other Service.init)
  = None /\
  Service.stage_of
    (length (Service.calls
       (Service.run ServiceSpec.plain_text ServiceLaws.one_after_the_other Service.init)))
    (Service.convert ServiceSpec.clip "wav" ServiceSpec.both_callbacks
       (Service.run ServiceSpec.plain_text ServiceLaws.one_after_the_other Service.init))
  <> Some (Service.Done (Service.Threw ServiceSpec.Busy)).
Proof.
  split; [vm_compute; reflexivity|].
  apply (busy_always_clears ServiceSpec.plain_text ServiceLaws.one_after_the_other
           ServiceSpec.clip "wav" ServiceSpec.both_callbacks).
  intros id c Hc.
  assert (Forall (fun c => ServiceSpec.armed (Service.at_stage c) = false)
            (Service.calls (Service.run ServiceSpec.plain_text
                              ServiceLaws.one_after_the_other Service.init))) as H.
  { vm_compute. repeat constructor. }
  rewrite Forall_lookup in H. by apply (H id).
Defined.

(** What [convert] does with an id that is no format's. A string that names
    nothing is refused at once. The name of a member every object inherits
    passes [if (!spec)]: the engine is asked about an undefined codec; when
    it answers [false] (or throws) the call is refused with a message built
    from an undefined label, and when it answers [true] the call reads the
    file and then fails at [spec.createFormat()], before the marker is
    set. *)
Example convert_with_no_format :
  Service.stage_of 0
    (Service.run ServiceSpec.plain_text
       [ Service.CallConvert ServiceSpec.clip "xyz" ServiceSpec.both_callbacks ]
       Service.init)
  = Some (Service.Done (Service.Threw (Service.Error "Unsupported output format: xyz"))) /\
  Service.stage_of 0
    (Service.run ServiceSpec.plain_text
       [ Service.CallConvert ServiceSpec.clip "toString" ServiceSpec.both_callbacks;
         Service.ProbeSettled 0 (Registry.ProbeAnswered false);
         Service.SupportResumed 0 ]
       Service.init)
  = Some (Service.Done (Service.Threw (Service.Error
      "undefined encoding is not supported in this browser yet. Try MP3, WAV, or OGG instead."))) /\
  let s := Service.run ServiceSpec.plain_text
             [ Service.CallConvert ServiceSpec.clip "toString" ServiceSpec.both_callbacks;
               Service.ProbeSettled 0 (Registry.ProbeAnswered true);
               Service.SupportResumed 0;
               Service.ArrayBufferSettled 0 (Service.Fulfilled [x00]%byte) ]
             Service.init in
  Registry.probes (Service.registry s) = [(None, Some (Registry.ProbeAnswered true))] /\
  Service.stage_of 0 s = Some (Service.Done (Service.Threw Service.not_a_function)) /\
  Service.activeCancel s = None /\
  Service.effects s
  = [ Service.OnLog 0 "Loading file into memory for Mediabunny analysis...";
      Service.FileArrayBuffer 0 ].
Proof. cbv zeta. repeat split; vm_compute; reflexivity. Qed.

(* ===================================================================== *)
(** ** The component and the service together *)
(* ===================================================================== *)

Section WorldFacts.
Import ServiceSpec ServiceLaws Component ComponentLaws.

Variable member_text : string -> string.
Variable round : float -> float.
Variable number_text : float -> string.
Variable foreign_abort : string -> bool.
Variable foreign_message : string -> option string.

(** *** What the callbacks leave alone *)

Lemma push_log_length current message : length (push_log current message) <= 40.
Proof. unfold push_log. rewrite length_drop, length_app. cbn. lia. Qed.

Lemma callback_display w e c : same_but_display c (callback round number_text w e c).
Proof.
  destruct e; cbn [callback]; try (by repeat split).
  - repeat split; try done. intros _. apply push_log_length.
  - unfold onProgress. destruct (PrimFloat.leb _ _); by repeat split.
Qed.

Lemma callbacks_display w l : forall c,
  same_but_display c (fold_left (fun c x => callback round number_text w x c) l c).
Proof.
  induction l as [|e l IH]; intros c; [by repeat split|]. cbn [fold_left].
  destruct (callback_display w e c) as (H1 & H2 & H3 & H4 & H5 & H6 & H7).
  destruct (IH (callback round number_text w e c)) as (I1 & I2 & I3 & I4 & I5 & I6 & I7).
  repeat split; try congruence. auto.
Qed.

Lemma drive_display e w : same_but_display (ui w) (ui ((Component.drive member_text round number_text) e w)).
Proof. apply callbacks_display. Qed.

(** *** One conversion at a time *)

Lemma single_flight_same s s' :
  Service.calls s' = Service.calls s -> Service.activeCancel s' = Service.activeCancel s ->
  single_flight s -> single_flight s'.
Proof. unfold single_flight. by intros -> ->. Qed.

Lemma flight_inv_same w w' : same_flight w w' -> flight_inv w -> flight_inv w'.
Proof.
  intros (Hc & Ha & Hs & Hi) (HI & SF & H3 & H4).
  split; [by apply (Inv_same (service w))|].
  split; [by apply (single_flight_same (service w))|].
  rewrite Hc, Hs, Hi. by split.
Qed.

Lemma same_flight_refl w : same_flight w w.
Proof. by repeat split. Qed.

Lemma same_flight_trans w1 w2 w3 :
  same_flight w1 w2 -> same_flight w2 w3 -> same_flight w1 w3.
Proof.
  intros (A1 & A2 & A3 & A4) (B1 & B2 & B3 & B4). repeat split; congruence.
Qed.

Lemma same_flight_ui f w :
  (forall c, isConverting (f c) = isConverting c) -> same_flight w (set_ui f w).
Proof. intros H. repeat split. apply H. Qed.

Lemma same_flight_revoke w : same_flight w (revokeObjectUrl w).
Proof. unfold revokeObjectUrl. destruct (objectUrl (ui w)); by repeat split. Qed.

Lemma same_flight_reset w : same_flight w (resetConversionState w).
Proof.
  unfold resetConversionState.
  eapply same_flight_trans; [apply same_flight_revoke|]. by apply same_flight_ui.
Qed.

Lemma same_flight_setDownloadResult r w : same_flight w (setDownloadResult r w).
Proof.
  unfold setDownloadResult.
  assert (same_flight w (set_ui (set_outputFileName (Some (Service.fileName r)))
                                (revokeObjectUrl w))) as H.
  { eapply same_flight_trans; [apply same_flight_revoke|]. by apply same_flight_ui. }
  destruct (Service.remoteUrl r) as [[|c u]|].
  - eapply same_flight_trans; [exact H|]. by repeat split.
  - eapply same_flight_trans; [exact H|]. by apply same_flight_ui.
  - eapply same_flight_trans; [exact H|]. by repeat split.
Qed.

Lemma acts_length s s' : acts s s' -> length (Service.calls s') = length (Service.calls s).
Proof.
  intros [[-> _]|(j & c & c' & _ & _ & -> & _)]; [done|]. by rewrite length_insert.
Qed.

Lemma acts_terminal s s' j c' :
  acts s s' -> Service.calls s' !! j = Some c' ->
  exists c, Service.calls s !! j = Some c /\
            (Service.terminal (Service.at_stage c) = true ->
             Service.terminal (Service.at_stage c') = true).
Proof.
  intros [[Hc _]|(k & ck & ck' & Hk & Hnt & Hc & _)] Hj; rewrite Hc in Hj.
  - by exists c'.
  - destruct (decide (j = k)) as [->|Hne].
    + exists ck. split; [done|]. congruence.
    + rewrite list_lookup_insert_ne in Hj by done. by exists c'.
Qed.

Lemma flight_inv_drive e w :
  (forall f fmt cb, e <> Service.CallConvert f fmt cb) ->
  flight_inv w -> flight_inv ((Component.drive member_text round number_text) e w).
Proof.
  intros Hne (HI & SF & H3 & H4).
  pose proof (acts_step member_text e (service w) HI Hne) as Hacts.
  destruct (drive_display e w) as (_ & _ & _ & _ & Hconv & _).
  split; [by apply Inv_step|]. split; [by apply (single_flight_acts (service w))|].
  rewrite Hconv. cbn [Component.drive service suspended]. split.
  - intros Hi. destruct (H3 Hi) as [Hs Hall]. split; [done|].
    intros j c' Hj. destruct (acts_terminal _ _ _ _ Hacts Hj) as (c & Hc & Ht).
    apply Ht. by apply (Hall j c).
  - intros Hi. destruct (H4 Hi) as (id & Hs & Hlt & Hall). exists id.
    split; [done|]. split; [by rewrite (acts_length _ _ Hacts)|].
    intros j c' Hj Hji. destruct (acts_terminal _ _ _ _ Hacts Hj) as (c & Hc & Ht).
    apply Ht. by apply (Hall j c).
Qed.

Lemma flight_inv_cancelConversion w : flight_inv w -> flight_inv ((Component.cancelConversion member_text round number_text) w).
Proof.
  intros H. unfold Component.cancelConversion. destruct (negb _); [done|].
  apply (flight_inv_same ((Component.drive member_text round number_text) Service.CallCancelConversion w));
    [by apply same_flight_ui|by apply flight_inv_drive].
Qed.

Lemma flight_inv_handleIncomingFile f w :
  flight_inv w -> flight_inv ((Component.handleIncomingFile member_text round number_text) f w).
Proof.
  intros H. unfold Component.handleIncomingFile.
  destruct (negb _); [by apply (flight_inv_same w); [apply same_flight_ui|]|].
  set (w1 := if isConverting (ui w) then (Component.cancelConversion member_text round number_text) w else w).
  assert (flight_inv w1) as H1
    by (subst w1; destruct (isConverting _); [by apply flight_inv_cancelConversion|done]).
  apply (flight_inv_same w1); [|done].
  eapply same_flight_trans; [apply same_flight_reset|].
  eapply same_flight_trans; by apply same_flight_ui.
Qed.

Lemma convert_calls f fmt cb s :
  exists c, Service.calls (Service.convert f fmt cb s) = Service.calls s ++ [c].
Proof.
  unfold Service.convert. destruct (Service.activeCancel s); [by eexists|].
  destruct (Registry.lookup fmt); try (by eexists);
    destruct (Registry.isFormatSupported _ _); by eexists.
Qed.

Lemma all_terminal_nobody s :
  (forall j c, Service.calls s !! j = Some c ->
               Service.terminal (Service.at_stage c) = true) ->
  nobody_entering s = true.
Proof.
  intros H. unfold nobody_entering. apply forallb_forall. intros c Hc.
  apply list_elem_of_In, list_elem_of_lookup_1 in Hc as [j Hj].
  specialize (H j c Hj). by destruct (Service.at_stage c).
Qed.

Lemma flight_inv_convertSelected w : flight_inv w -> flight_inv ((Component.convertSelected member_text round number_text) w).
Proof.
  intros H. unfold Component.convertSelected.
  destruct (isConverting (ui w)) eqn:Hi; [done|].
  destruct (negb _); [by apply (flight_inv_same w); [apply same_flight_ui|]|].
  destruct (selectedFile (ui w)) as [f|];
    [|by apply (flight_inv_same w); [apply same_flight_ui|]].
  destruct (currentFormat (ui w)) as [fmt|];
    [|by apply (flight_inv_same w); [apply same_flight_ui|]].
  destruct (is_false _); [by apply (flight_inv_same w); [apply same_flight_ui|]|].
  destruct H as (HI & SF & H3 & _). destruct (H3 Hi) as [Hs Hall].
  match goal with |- flight_inv (Component.drive _ _ _ ?e ?w2) =>
    destruct (drive_display e w2) as (_ & _ & _ & _ & Hconv & _);
    change (isConverting (ui w2)) with true in Hconv
  end.
  destruct (convert_calls (file f) (selectedFormatId (ui w))
              {| Service.onProgress := true; Service.onLog := true |} (service w))
    as (c & Hc).
  unfold flight_inv. rewrite Hconv.
  cbn [Component.drive service suspended set_ui Service.step].
  split; [apply Inv_convert; exact HI|].
  split; [apply single_flight_convert; [done..|by apply all_terminal_nobody]|].
  split; [done|]. intros _.
  exists (length (Service.calls (service w))). rewrite Hc, Hs. split; [done|].
  split; [rewrite length_app; cbn; lia|].
  intros j cj Hj Hne. apply lookup_app_Some in Hj as [Hj|[Hge Hj]]; [by apply (Hall j)|].
  apply list_lookup_singleton_Some in Hj as [Hj _]. lia.
Qed.

Lemma flight_inv_convertSelected_resumes id w :
  flight_inv w -> flight_inv ((Component.convertSelected_resumes foreign_abort foreign_message) id w).
Proof.
  intros H. unfold Component.convertSelected_resumes.
  destruct (negb _) eqn:Hsusp; [done|]. apply negb_false_iff in Hsusp.
  destruct (Service.stage_of id (service w)) as [[| | | | |o]|] eqn:Hst; try done.
  destruct H as (HI & SF & H3 & H4).
  assert (isConverting (ui w) = true) as Hi.
  { destruct (isConverting (ui w)) eqn:E; [done|]. destruct (H3 eq_refl) as [Hs _].
    by rewrite Hs in Hsusp. }
  destruct (H4 Hi) as (id' & Hs & Hlt & Hall).
  assert (id = id') as <-.
  { rewrite Hs in Hsusp. cbn in Hsusp. rewrite orb_false_r in Hsusp.
    by apply Nat.eqb_eq in Hsusp. }
  set (w0 := mkWorld (ui w) (service w) (refreshing w) (invocations w)
                     (List.filter (fun i => negb (i =? id)) (suspended w)) (urls w)).
  assert (suspended w0 = []) as Hs0.
  { cbn [w0 suspended]. rewrite Hs. cbn. by rewrite Nat.eqb_refl. }
  match goal with |- flight_inv (set_ui _ ?w1') => set (w1 := w1') end.
  assert (Service.calls (service w1) = Service.calls (service w) /\
          Service.activeCancel (service w1) = Service.activeCancel (service w) /\
          suspended w1 = []) as (Hc1 & Ha1 & Hs1).
  { subst w1. destruct o as [r|e].
    - destruct (same_flight_setDownloadResult r
                  (set_ui (fun c => set_progress 100%float
                     (set_status (label_of id w ++ " ready. Time to download!")%string c))
                     w0)) as (A & B & C & _).
      rewrite A, B, C. by repeat split.
    - destruct (is_abort _ _); by repeat split. }
  split; [by apply (Inv_same (service w))|].
  split; [by apply (single_flight_same (service w))|].
  cbn [set_ui ui service suspended set_isConverting isConverting].
  split; [|done]. intros _. split; [done|].
  intros j c Hj. rewrite Hc1 in Hj.
  destruct (decide (j = id)) as [->|Hne]; [|by apply (Hall j)].
  unfold Service.stage_of in Hst. rewrite Hj in Hst. cbn in Hst.
  injection Hst as Hst. by rewrite Hst.
Qed.

Lemma flight_inv_step e w : flight_inv w -> flight_inv ((Component.step member_text round number_text foreign_abort foreign_message) e w).
Proof.
  intros H. destruct e as [| |sel|f|f| | | | | | | |id|b]; cbn [Component.step].
  - unfold ngOnInit. destruct (Listing.getFormatOptionsWithSupport _).
    by apply (flight_inv_same w).
  - by apply (flight_inv_same w); [apply same_flight_revoke|].
  - unfold onFormatChange. destruct sel as [value|]; [|done].
    destruct (String.eqb _ _); [done|].
    set (w1 := resetConversionState (set_ui (set_selectedFormatId value) w)).
    assert (same_flight w w1) as H1.
    { eapply same_flight_trans; [|apply same_flight_reset]. by apply same_flight_ui. }
    apply (flight_inv_same w); [|done].
    destruct (selectedFile (ui w1)); [destruct (currentFormat (ui w1)); [|done]|].
    + match goal with |- context [currentFormat (ui ?x)] => set (w2 := x) end.
      assert (same_flight w w2) as H2
        by (eapply same_flight_trans; [exact H1|by apply same_flight_ui]).
      destruct (currentFormat (ui w2)); [|done]. destruct (is_false _); [|done].
      eapply same_flight_trans; [exact H2|by apply same_flight_ui].
    + destruct (currentFormat (ui w1)); [|done]. destruct (is_false _); [|done].
      eapply same_flight_trans; [exact H1|by apply same_flight_ui].
  - destruct f; [by apply flight_inv_handleIncomingFile|done].
  - unfold onDrop.
    assert (flight_inv (set_ui (set_isDragOver false) w)) as H1
      by (by apply (flight_inv_same w); [apply same_flight_ui|]).
    destruct f; [by apply flight_inv_handleIncomingFile|done].
  - by apply (flight_inv_same w); [apply same_flight_ui|].
  - by apply (flight_inv_same w); [apply same_flight_ui|].
  - unfold clearSelection. destruct (isConverting _); [done|].
    apply (flight_inv_same w); [|done].
    eapply same_flight_trans; [|apply same_flight_reset]. by apply same_flight_ui.
  - by apply flight_inv_convertSelected.
  - by apply flight_inv_cancelConversion.
  - unfold listing_resumes. destruct (refreshing w) as [[l| |]|]; try done.
    destruct (Listing.resume _ _). by apply (flight_inv_same w).
  - unfold refreshFormatOptions_resumes.
    destruct (refreshing w) as [[l|options|]|]; try done.
    apply (flight_inv_same w); [|done].
    destruct (existsb _ _); [by repeat split|].
    destruct (List.find _ _); [|by repeat split].
    destruct (selectedFile _); by repeat split.
  - by apply flight_inv_convertSelected_resumes.
  - apply flight_inv_drive; [|done]. intros f fmt cb. by destruct b.
Qed.

Lemma flight_inv_start : flight_inv start.
Proof.
  split; [apply Inv_init|]. split; [apply single_flight_init|].
  split; [|done]. intros _. split; [done|]. intros j c Hj. done.
Qed.

Lemma flight_inv_run es : forall w, flight_inv w -> flight_inv ((Component.run member_text round number_text foreign_abort foreign_message) es w).
Proof.
  induction es as [|e es IH]; intros w H; [done|].
  cbn. apply IH. by apply flight_inv_step.
Qed.

(** *** The support of the format is checked before [convert] is called *)

Lemma registry_step e s :
  exists ops, Service.registry (Service.step member_text e s)
              = Registry.run ops (Service.registry s).
Proof.
  assert (forall j c m s0, Service.registry (Service.log j c m s0) = Service.registry s0) as Hlog
    by (intros; unfold Service.log; by destruct (Service.onLog _)).
  assert (forall j c v s0, Service.registry (Service.progress j c v s0) = Service.registry s0)
    as Hprog by (intros; unfold Service.progress; by destruct (Service.onProgress _)).
  assert (exists ops, Service.registry s = Registry.run ops (Service.registry s)) as Hsame
    by (by exists []).
  destruct e; cbn [Service.step].
  - unfold Service.convert. destruct (Service.activeCancel s); [done|].
    destruct (Registry.lookup fmt); [| |done];
      exists [Registry.Ask fmt]; cbn; by destruct (Registry.isFormatSupported _ _).
  - unfold Service.cancelConversion, Service.cancel. repeat case_match; try done;
      cbn [Service.set_call Service.emit Service.registry]; by rewrite Hlog.
  - by exists [Registry.Answer n o].
  - unfold Service.resume_support. repeat case_match; try done;
      cbn [Service.set_call Service.emit Service.registry]; by rewrite ?Hlog.
  - unfold Service.resume_arrayBuffer. repeat case_match; try done;
      cbn [Service.set_call Service.emit Service.registry Service.set_activeCancel];
      by rewrite ?Hlog, ?Hprog.
  - unfold Service.resume_getFormat, Service.finish. repeat case_match; try done;
      cbn [Service.set_call Service.emit Service.registry Service.set_activeCancel];
      by rewrite ?Hlog.
  - unfold Service.resume_init, Service.finish, Service.cancel.
    repeat case_match; try done;
      cbn [Service.set_call Service.emit Service.registry Service.set_activeCancel];
      rewrite ?Hlog; cbn [Service.set_call Service.emit Service.registry]; by rewrite ?Hlog.
  - unfold Service.engine_progress. repeat case_match; try done. by rewrite Hprog.
  - unfold Service.execute_settled. by repeat case_match.
  - unfold Service.resume_race, Service.finish. repeat case_match; try done;
      cbn [Service.set_call Service.emit Service.registry Service.set_activeCancel];
      by rewrite ?Hlog, ?Hprog.
Qed.

Ltac calls_norm :=
  repeat (rewrite ?log_calls, ?progress_calls;
          cbn [Service.finish Service.set_call Service.emit Service.set_activeCancel
               Service.calls]).

(** A step other than a call of [convert] leaves the calls as they are, or
    moves one call past the check of its format. *)
Lemma step_past_support e s :
  Inv s -> (forall f fmt cb, e <> Service.CallConvert f fmt cb) ->
  Service.calls (Service.step member_text e s) = Service.calls s \/
  exists j c',
    Service.calls (Service.step member_text e s) = <[j := c']> (Service.calls s) /\
    forall p, Service.at_stage c' <> Service.AwaitSupport p.
Proof.
  intros HI Hne.
  destruct e as [f fmt cb| |n o|j|j r|j r|j r|j v|j r|j]; cbn [Service.step].
  - by destruct (Hne f fmt cb).
  - unfold Service.cancelConversion.
    destruct (Service.activeCancel s) as [j|] eqn:E; [|by left].
    destruct HI as [Ha _]. destruct (Ha j E) as (c & Hc & Harm).
    unfold Service.cancel. rewrite Hc. destruct (Service.cancelRequested c); [by left|].
    right. exists j.
    destruct (Service.conversion c); eexists; (split; [calls_norm; reflexivity|]);
      intros p Hp; cbn in Hp; by rewrite Hp in Harm.
  - by left.
  - unfold Service.resume_support.
    destruct (Service.calls s !! j) as [c|]; [|by left].
    destruct (Service.at_stage c); try (by left).
    destruct (Registry.value _ _) as [[]|]; [| |by left];
      right; exists j; eexists; (split; [calls_norm; reflexivity|done]).
  - unfold Service.resume_arrayBuffer.
    destruct (Service.calls s !! j) as [c|]; [|by left].
    destruct (Service.at_stage c); try (by left).
    destruct r; [destruct (Registry.lookup _)|];
      right; exists j; eexists; (split; [calls_norm; reflexivity|done]).
  - unfold Service.resume_getFormat.
    destruct (Service.calls s !! j) as [c|]; [|by left].
    destruct (Service.at_stage c); try (by left).
    destruct r; right; exists j; eexists; (split; [calls_norm; reflexivity|done]).
  - unfold Service.resume_init.
    destruct (Service.calls s !! j) as [c|] eqn:Hc; [|by left].
    destruct (Service.at_stage c) eqn:Hst; try (by left).
    destruct r as [conv|e];
      [|right; exists j; eexists; (split; [calls_norm; reflexivity|done])].
    destruct (negb (Service.isValid conv)).
    { destruct (Service.discardedTracks conv);
        right; exists j; eexists; (split; [calls_norm; reflexivity|done]). }
    set (c1 := Service.set_conversion (Some conv) c).
    set (s1 := Service.set_call j c1 s).
    assert (Service.calls s1 !! j = Some c1) as Hc1.
    { cbn [s1 Service.set_call Service.calls]. apply list_lookup_insert_eq.
      by eapply lookup_lt_Some. }
    assert ((if Service.cancelRequested c1 then Service.cancel j s1 else s1) = s1) as ->.
    { destruct (Service.cancelRequested c1) eqn:Hcr; [|done].
      unfold Service.cancel. by rewrite Hc1, Hcr. }
    rewrite Hc1. cbn [Service.nullish]. clear Hc1. subst s1 c1.
    right. exists j. eexists. split; [calls_norm; by rewrite list_insert_insert_eq|done].
  - unfold Service.engine_progress. repeat case_match; try (by left).
    left. by rewrite progress_calls.
  - unfold Service.execute_settled.
    destruct (Service.calls s !! j) as [c|]; [|by left].
    destruct (Service.at_stage c) eqn:Hst; try (by left).
    destruct (Service.race c); [by left|].
    right. exists j. eexists. split; [calls_norm; reflexivity|].
    intros p. cbn. by rewrite Hst.
  - unfold Service.resume_race.
    destruct (Service.calls s !! j) as [c|]; [|by left].
    destruct (Service.at_stage c); try (by left).
    destruct (Service.race c) as [[[buffer|e]|]|]; try (by left);
      try (right; exists j; eexists; (split; [calls_norm; reflexivity|done])).
    destruct (Registry.lookup _); [|by left..].
    destruct (Service.cancelRequested c);
      [right; exists j; eexists; (split; [calls_norm; reflexivity|done])|].
    destruct buffer; right; exists j; eexists; (split; [calls_norm; reflexivity|done]).
Qed.

Lemma listing_inv_later p r ops :
  RegistryLaws.listing_inv (p, r) -> RegistryLaws.listing_inv (p, Registry.run ops r).
Proof.
  revert r. induction ops as [|o ops IH]; intros r H; [done|].
  cbn. apply IH. exact (listing_inv_step (Listing.Elsewhere o) (p, r) H).
Qed.

Lemma listed_later r ops opts entries :
  Forall2 (RegistryLaws.listed r) opts entries ->
  Forall2 (RegistryLaws.listed (Registry.run ops r)) opts entries.
Proof.
  revert r. induction ops as [|o ops IH]; intros r H; [done|].
  cbn. apply IH. by apply listed_all_apply.
Qed.

Lemma support_inv_later w w' : support_later w w' -> support_inv w -> support_inv w'.
Proof.
  intros ([ops Hr] & Hp & Hl & Hf & Hc) (H1 & H2 & H3 & H4).
  unfold support_inv. rewrite Hr, Hp, Hl, Hf.
  split; [by apply reg_inv_run|].
  split; [destruct (refreshing w); [by apply listing_inv_later|done]|].
  split; [intros Hi; by apply listed_later, H3|].
  intros id c p spec Hid Hst Hs. apply value_run.
  by apply (H4 id c p spec (Hc id c p Hid Hst) Hst).
Qed.

Lemma support_later_ui f w :
  (forall c, optionsLoaded (f c) = optionsLoaded c) ->
  (forall c, formatOptions (f c) = formatOptions c) ->
  support_later w (set_ui f w).
Proof.
  intros H1 H2. split; [by exists []|]. split; [done|].
  split; [apply H1|]. split; [apply H2|done].
Qed.

Lemma support_later_trans w1 w2 w3 :
  support_later w1 w2 -> support_later w2 w3 -> support_later w1 w3.
Proof.
  intros ([o1 A1] & A2 & A3 & A4 & A5) ([o2 B1] & B2 & B3 & B4 & B5).
  split; [exists (o1 ++ o2); rewrite B1, A1; unfold Registry.run; by rewrite fold_left_app|].
  repeat split; try congruence. intros id c p Hid Hst. apply (A5 id c p); [|done].
  by apply (B5 id c p).
Qed.

Lemma support_later_revoke w : support_later w (revokeObjectUrl w).
Proof.
  unfold revokeObjectUrl. destruct (objectUrl (ui w));
    (split; [by exists []|]); by repeat split.
Qed.

Lemma support_later_reset w : support_later w (resetConversionState w).
Proof.
  unfold resetConversionState.
  eapply support_later_trans; [apply support_later_revoke|]. by apply support_later_ui.
Qed.

Lemma support_later_setDownloadResult r w : support_later w (setDownloadResult r w).
Proof.
  unfold setDownloadResult.
  assert (support_later w (set_ui (set_outputFileName (Some (Service.fileName r)))
                                  (revokeObjectUrl w))) as H.
  { eapply support_later_trans; [apply support_later_revoke|]. by apply support_later_ui. }
  destruct (Service.remoteUrl r) as [[|c u]|].
  - eapply support_later_trans; [exact H|]. split; [by exists []|]. by repeat split.
  - eapply support_later_trans; [exact H|]. by apply support_later_ui.
  - eapply support_later_trans; [exact H|]. split; [by exists []|]. by repeat split.
Qed.

Lemma support_later_drive e w :
  Inv (service w) -> (forall f fmt cb, e <> Service.CallConvert f fmt cb) ->
  support_later w ((Component.drive member_text round number_text) e w).
Proof.
  intros HI Hne. destruct (drive_display e w) as (Hf & _ & Hl & _).
  split; [apply registry_step|]. split; [done|]. split; [done|]. split; [done|].
  cbn [Component.drive service]. intros id c p Hid Hst.
  destruct (step_past_support e (service w) HI Hne) as [Hc|(j & c' & Hc & Hp)];
    rewrite Hc in Hid; [done|].
  destruct (decide (id = j)) as [->|Hn].
  - apply list_lookup_insert_Some in Hid as [(_ & <- & _)|[? _]]; [|done].
    by destruct (Hp p).
  - by rewrite list_lookup_insert_ne in Hid.
Qed.

Lemma support_later_cancelConversion w :
  Inv (service w) ->
  support_later w ((Component.cancelConversion member_text round number_text) w).
Proof.
  intros HI. unfold Component.cancelConversion.
  destruct (negb _); [split; [by exists []|]; by repeat split|].
  eapply support_later_trans; [|by apply support_later_ui].
  by apply support_later_drive.
Qed.

Lemma support_later_handleIncomingFile f w :
  Inv (service w) ->
  support_later w ((Component.handleIncomingFile member_text round number_text) f w).
Proof.
  intros HI. unfold Component.handleIncomingFile.
  destruct (negb _); [by apply support_later_ui|].
  eapply support_later_trans; [|by apply support_later_ui].
  eapply support_later_trans; [|by apply support_later_ui].
  eapply support_later_trans; [|apply support_later_reset].
  destruct (isConverting _); [by apply support_later_cancelConversion|].
  split; [by exists []|]. by repeat split.
Qed.

Lemma iterate_registry rest opts r :
  exists ops, (Listing.iterate rest opts r).2 = Registry.run ops r.
Proof.
  destruct rest as [|o rest]; [by exists []|]. cbn [Listing.iterate].
  exists [Registry.Ask (Listing.id o)]. cbn. by destruct (Registry.isFormatSupported _ _).
Qed.

Lemma resume_registry l r : exists ops, (Listing.resume l r).2 = Registry.run ops r.
Proof.
  unfold Listing.resume. destruct (Listing.remaining l) as [|o rest]; [by exists []|].
  destruct (Registry.value _ _) as [[]|]; [| |by exists []].
  - apply iterate_registry.
  - destruct (Registry.lookup _); [apply iterate_registry..|by exists []].
Qed.

Lemma find_listed r (opts : list Listing.AudioOutputOption) entries fmt o :
  Forall2 (RegistryLaws.listed r) opts entries ->
  List.find (fun o => String.eqb (Listing.id o) fmt) opts = Some o ->
  exists b, Listing.supported o = Some b /\ RegistryLaws.answer r fmt = Some b.
Proof.
  intros HF Hfind. apply find_some in Hfind as [Hin Hid].
  apply String.eqb_eq in Hid.
  apply list_elem_of_In, list_elem_of_lookup_1 in Hin as [i Hi].
  destruct (Forall2_lookup_l _ _ _ _ _ HF Hi) as (entry & _ & Hl).
  destruct Hl as (H1 & _ & _ & _ & b & Hb & Ha & _).
  exists b. split; [done|]. by rewrite <- Hid, H1.
Qed.

Lemma find_not_listed r (opts : list Listing.AudioOutputOption) fmt :
  Forall2 (RegistryLaws.listed r) opts Registry.AUDIO_FORMAT_SPECS ->
  List.find (fun o => String.eqb (Listing.id o) fmt) opts = None ->
  Registry.spec_of fmt = None.
Proof.
  intros HF Hfind. destruct (Registry.spec_of fmt) as [spec|] eqn:Hs; [|done].
  apply catalog_entry in Hs. apply list_elem_of_lookup_1 in Hs as [i Hi].
  destruct (Forall2_lookup_r _ _ _ _ _ HF Hi) as (o & Ho & Hl).
  destruct Hl as (H1 & _). cbn in H1.
  assert (In o opts) as Hin by (apply list_elem_of_In; by eapply list_elem_of_lookup_2).
  pose proof (find_none _ _ Hfind o Hin) as Hn. cbn in Hn.
  rewrite H1, String.eqb_refl in Hn. done.
Qed.

Lemma support_inv_convertSelected w :
  Inv (service w) -> support_inv w ->
  support_inv ((Component.convertSelected member_text round number_text) w).
Proof.
  intros HI H. unfold Component.convertSelected.
  destruct (isConverting (ui w)); [done|].
  destruct (optionsLoaded (ui w)) eqn:Hloaded; cbn [negb];
    [|by apply (support_inv_later w); [apply support_later_ui|]].
  destruct (selectedFile (ui w)) as [f|];
    [|by apply (support_inv_later w); [apply support_later_ui|]].
  destruct (currentFormat (ui w)) as [o|] eqn:Hcur;
    [|by apply (support_inv_later w); [apply support_later_ui|]].
  destruct (is_false (Listing.supported o)) eqn:Hsup;
    [by apply (support_inv_later w); [apply support_later_ui|]|].
  destruct H as (H1 & H2 & H3 & H4). specialize (H3 Hloaded).
  match goal with |- support_inv (Component.drive _ _ _ ?e ?w2) =>
    destruct (drive_display e w2) as (Hf & _ & Hl & _);
    change (formatOptions (ui w2)) with (formatOptions (ui w)) in Hf;
    change (optionsLoaded (ui w2)) with (optionsLoaded (ui w)) in Hl
  end.
  unfold support_inv. rewrite Hf, Hl.
  cbn [Component.drive service refreshing set_ui Service.step].
  set (fmt := selectedFormatId (ui w)) in *.
  set (cb := {| Service.onProgress := true; Service.onLog := true |}).
  assert (    Service.registry (Service.convert (file f) fmt cb (service w))
    = Registry.run [] (Service.registry (service w)) \/
    (Service.registry (Service.convert (file f) fmt cb (service w))
     = Registry.run [Registry.Ask fmt] (Service.registry (service w)))) as Hconv.
  { unfold Service.convert. destruct (Service.activeCancel _); [by left|].
    destruct (Registry.lookup fmt); [| |by left]; right; cbn;
      by destruct (Registry.isFormatSupported _ _). }
  assert (exists ops, Service.registry (Service.convert (file f) fmt cb (service w))
                      = Registry.run ops (Service.registry (service w))) as [ops Hr]
    by (destruct Hconv; by eexists).
  rewrite Hr.
  split; [by apply reg_inv_run|].
  split; [destruct (refreshing w); [by apply listing_inv_later|done]|].
  split; [intros _; by apply listed_later|].
  intros id c p spec Hid Hst Hs. rewrite <- Hr. revert Hid Hst Hs. unfold Service.convert.
  destruct (Service.activeCancel (service w)) eqn:Hact.
  { cbn [Service.calls Service.registry]. intros Hid Hst Hs.
    apply lookup_app_Some in Hid as [Hid|[_ Hid]]; [by apply (H4 id c p spec)|].
    apply list_lookup_singleton_Some in Hid as [_ <-]. done. }
  pose proof (value_isFormatSupported (Service.registry (service w)) fmt) as Hstable.
  assert (Registry.spec_of fmt = Some spec ->
          Registry.value (Registry.isFormatSupported (Service.registry (service w)) fmt).2
            (Registry.isFormatSupported (Service.registry (service w)) fmt).1 = Some true)
    as Hnew.
  { intros Hs. apply Hstable. unfold currentFormat in Hcur. fold fmt in Hcur.
    destruct (List.find _ _) as [o'|] eqn:Hfind.
    - injection Hcur as ->.
      destruct (find_listed _ _ _ _ _ H3 Hfind) as (b & Hb & Ha).
      rewrite Hb in Hsup. destruct b; [exact Ha|done].
    - by rewrite (find_not_listed _ _ _ H3 Hfind) in Hs. }
  destruct (Registry.lookup fmt) eqn:Hlk.
  3:{ cbn [Service.calls Service.registry]. intros Hid Hst Hs.
      apply lookup_app_Some in Hid as [Hid|[_ Hid]]; [by apply (H4 id c p spec)|].
      apply list_lookup_singleton_Some in Hid as [_ <-]. done. }
  all: destruct (Registry.isFormatSupported _ _) as [q reg]; cbn [fst snd] in *;
    cbn [Service.calls Service.registry]; intros Hid Hst Hs;
    apply lookup_app_Some in Hid as [Hid|[_ Hid]];
    [by apply Hstable, (H4 id c p spec)|];
    apply list_lookup_singleton_Some in Hid as [_ <-]; cbn in Hst;
    injection Hst as <-; by apply Hnew.
Qed.

Lemma support_inv_step e w :
  Inv (service w) -> support_inv w ->
  support_inv ((Component.step member_text round number_text foreign_abort foreign_message) e w).
Proof.
  intros HI H. destruct e as [| |sel|f|f| | | | | | | |id|b]; cbn [Component.step].
  - unfold ngOnInit.
    pose proof (iterate_registry Listing.AUDIO_OUTPUT_OPTIONS []
                  (Service.registry (service w))) as [ops Hops].
    pose proof (listing_inv_start (Service.registry (service w))) as Hstart.
    unfold Listing.getFormatOptionsWithSupport in *.
    destruct (Listing.iterate _ _ _) as [p r]. cbn [snd] in Hops.
    destruct H as (H1 & H2 & H3 & H4). specialize (Hstart H1).
    unfold support_inv. cbn [service refreshing ui set_registry Service.registry Service.calls].
    rewrite Hops in *. split; [by apply reg_inv_run|]. split; [exact Hstart|].
    split; [intros Hi; by apply listed_later, H3|].
    intros id c q spec Hid Hst Hs. apply value_run. by apply (H4 id c q spec).
  - by apply (support_inv_later w); [apply support_later_revoke|].
  - unfold onFormatChange. destruct sel as [value|]; [|done].
    destruct (String.eqb _ _); [done|].
    set (w1 := resetConversionState (set_ui (set_selectedFormatId value) w)).
    assert (support_later w w1) as H1.
    { eapply support_later_trans; [|apply support_later_reset]. by apply support_later_ui. }
    apply (support_inv_later w); [|done].
    destruct (selectedFile (ui w1)); [destruct (currentFormat (ui w1)); [|done]|].
    + match goal with |- context [currentFormat (ui ?x)] => set (w2 := x) end.
      assert (support_later w w2) as H2
        by (eapply support_later_trans; [exact H1|by apply support_later_ui]).
      destruct (currentFormat (ui w2)); [|done]. destruct (is_false _); [|done].
      eapply support_later_trans; [exact H2|by apply support_later_ui].
    + destruct (currentFormat (ui w1)); [|done]. destruct (is_false _); [|done].
      eapply support_later_trans; [exact H1|by apply support_later_ui].
  - destruct f; [|done].
    by apply (support_inv_later w); [apply support_later_handleIncomingFile|].
  - unfold onDrop.
    assert (support_later w (set_ui (set_isDragOver false) w)) as H1
      by (by apply support_later_ui).
    apply (support_inv_later w); [|done]. destruct f; [|done].
    eapply support_later_trans; [exact H1|]. by apply support_later_handleIncomingFile.
  - by apply (support_inv_later w); [apply support_later_ui|].
  - by apply (support_inv_later w); [apply support_later_ui|].
  - unfold clearSelection. destruct (isConverting _); [done|].
    apply (support_inv_later w); [|done].
    eapply support_later_trans; [|apply support_later_reset]. by apply support_later_ui.
  - by apply support_inv_convertSelected.
  - by apply (support_inv_later w); [apply support_later_cancelConversion|].
  - unfold listing_resumes. destruct (refreshing w) as [[l| |]|] eqn:Hp; try done.
    destruct H as (H1 & H2 & H3 & H4). rewrite Hp in H2.
    pose proof (resume_registry l (Service.registry (service w))) as [ops Hops].
    pose proof (listing_inv_resume l _ H2) as Hres.
    destruct (Listing.resume _ _) as [p r]. cbn [snd] in Hops.
    unfold support_inv. cbn [service refreshing ui set_registry Service.registry Service.calls].
    rewrite Hops in *. split; [by apply reg_inv_run|]. split; [exact Hres|].
    split; [intros Hi; by apply listed_later, H3|].
    intros id c q spec Hid Hst Hs. apply value_run. by apply (H4 id c q spec).
  - unfold refreshFormatOptions_resumes.
    destruct (refreshing w) as [[l|options|]|] eqn:Hp; try done.
    + destruct H as (H1 & H2 & H3 & H4). rewrite Hp in H2. destruct H2 as [_ H2].
      cbn [fst snd] in H2.
      assert (forall w', service w' = service w -> refreshing w' = None ->
                formatOptions (ui w') = options -> support_inv w') as Hset.
      { intros w' Hs' Hr' Hf'. unfold support_inv. rewrite Hs', Hr', Hf'.
        split; [done|]. split; [done|]. split; [by intros _|done]. }
      destruct (existsb _ _); [by apply Hset|].
      destruct (List.find _ _); [|by apply Hset].
      destruct (selectedFile _); by apply Hset.
    + destruct H as (H1 & H2 & H3 & H4). split; [done|]. split; [done|]. by split.
  - unfold Component.convertSelected_resumes. destruct (negb _); [done|].
    destruct (Service.stage_of _ _) as [[| | | | |o]|]; try done.
    apply (support_inv_later w); [|done].
    eapply support_later_trans; [|by apply support_later_ui].
    destruct o as [r|e].
    + eapply support_later_trans; [|apply support_later_setDownloadResult].
      split; [by exists []|]. by repeat split.
    + destruct (is_abort _ _); split; try (by exists []); by repeat split.
  - apply (support_inv_later w); [|done]. apply support_later_drive; [done|].
    intros f fmt cb. by destruct b.
Qed.

Lemma support_inv_start : support_inv start.
Proof. split; [apply reg_inv_empty|]. by repeat split. Qed.

Lemma support_inv_run es : forall w,
  flight_inv w -> support_inv w ->
  support_inv ((Component.run member_text round number_text foreign_abort foreign_message) es w).
Proof.
  induction es as [|e es IH]; intros w HF H; [done|].
  cbn. apply IH; [by apply flight_inv_step|].
  apply support_inv_step; [by destruct HF|done].
Qed.

(** *** The format selected once the list is loaded *)

Lemma listed_first_supported r opts :
  Forall2 (RegistryLaws.listed r) opts Registry.AUDIO_FORMAT_SPECS ->
  exists o, List.find (fun o => truthy (Listing.supported o)) opts = Some o /\
            Listing.id o = "mp3"%string.
Proof.
  intros H. unfold Registry.AUDIO_FORMAT_SPECS in H.
  apply Forall2_cons_inv_r in H as (o & opts' & Hl & _ & ->).
  destruct Hl as (Hid & _ & _ & _ & b & Hb & _ & Ht & _).
  cbn in Ht. rewrite (Ht eq_refl) in Hb. cbn [List.find]. rewrite Hb. cbn. by exists o.
Qed.

Lemma listed_unique r opts o o' :
  Forall2 (RegistryLaws.listed r) opts Registry.AUDIO_FORMAT_SPECS ->
  In o opts -> In o' opts -> Listing.id o = Listing.id o' -> o = o'.
Proof.
  intros HF Ho Ho' Hid.
  pose proof (listed_ids _ _ _ HF) as Hids.
  pose proof catalog_keys as Hnd. rewrite <- Hids in Hnd.
  apply list_elem_of_In, list_elem_of_lookup_1 in Ho as [i Hi].
  apply list_elem_of_In, list_elem_of_lookup_1 in Ho' as [j Hj].
  assert (i = j) as ->.
  { apply (NoDup_lookup _ i j (Listing.id o) Hnd); rewrite list_lookup_fmap.
    - by rewrite Hi.
    - by rewrite Hj, Hid. }
  congruence.
Qed.

Lemma currentFormat_found r c o :
  Forall2 (RegistryLaws.listed r) (formatOptions c) Registry.AUDIO_FORMAT_SPECS ->
  In o (formatOptions c) -> Listing.id o = selectedFormatId c ->
  currentFormat c = Some o.
Proof.
  intros HF Hin Hid. unfold currentFormat.
  destruct (List.find _ _) as [o'|] eqn:Hfind.
  - apply find_some in Hfind as [Hin' Hid']. apply String.eqb_eq in Hid'.
    f_equal. apply (listed_unique r (formatOptions c)); [done..|congruence].
  - pose proof (find_none _ _ Hfind o Hin) as Hn. cbn in Hn.
    by rewrite Hid, String.eqb_refl in Hn.
Qed.

Lemma refresh_selects_supported w options :
  support_inv w -> refreshing w = Some (Listing.Returned options) ->
  optionsLoaded (ui (refreshFormatOptions_resumes w)) = true /\
  formatOptions (ui (refreshFormatOptions_resumes w)) = options /\
  errorMessage (ui (refreshFormatOptions_resumes w)) = errorMessage (ui w) /\
  exists o, currentFormat (ui (refreshFormatOptions_resumes w)) = Some o /\
            Listing.supported o = Some true /\
            Listing.id o = selectedFormatId (ui (refreshFormatOptions_resumes w)) /\
            if existsb (fun o => String.eqb (Listing.id o) (selectedFormatId (ui w))
                                 && truthy (Listing.supported o)) options
            then selectedFormatId (ui (refreshFormatOptions_resumes w))
                 = selectedFormatId (ui w)
            else List.find (fun o => truthy (Listing.supported o)) options = Some o /\
                 selectedFormatId (ui (refreshFormatOptions_resumes w)) = "mp3"%string.
Proof.
  intros (_ & H2 & _) Hp. rewrite Hp in H2. destruct H2 as [_ HF]. cbn [fst snd] in HF.
  unfold refreshFormatOptions_resumes. rewrite Hp.
  cbn [ui set_ui set_optionsLoaded set_formatOptions selectedFormatId].
  assert (forall o, truthy (Listing.supported o) = true -> Listing.supported o = Some true)
    as Htruthy by (intros o; by destruct (Listing.supported o) as [[]|]).
  destruct (existsb _ _) eqn:Hex.
  - split; [done|]. split; [done|]. split; [done|].
    apply existsb_exists in Hex as (o & Hin & [Hid Hs]%andb_prop).
    apply String.eqb_eq in Hid. exists o.
    split; [|split; [by apply Htruthy|by split]].
    by apply (currentFormat_found (Service.registry (service w))).
  - destruct (listed_first_supported _ _ HF) as (fallback & Hfind & Hmp3). rewrite Hfind.
    pose proof Hfind as Hfound. apply find_some in Hfind as [Hin Hs].
    assert (forall c, formatOptions c = options ->
              selectedFormatId c = Listing.id fallback ->
              currentFormat c = Some fallback) as Hcur.
    { intros c Hc Hsel. apply (currentFormat_found (Service.registry (service w)));
        by rewrite ?Hc. }
    destruct (selectedFile _); cbn;
      (split; [done|]); (split; [done|]); (split; [done|]);
      exists fallback; (split; [by apply Hcur|]); (split; [by apply Htruthy|]);
      by repeat split.
Qed.

(** *** The log and the blob URLs *)

Lemma live_app l u :
  live (l ++ [u]) =
  match u with
  | CreateObjectURL _ n => live l ++ [n]
  | RevokeObjectURL n => List.filter (fun m => negb (m =? n)) (live l)
  end.
Proof. unfold live. by rewrite fold_left_app. Qed.

Lemma created_app l u :
  created (l ++ [u]) =
  match u with
  | CreateObjectURL _ _ => S (created l)
  | RevokeObjectURL _ => created l
  end.
Proof.
  unfold created. rewrite List.filter_app, length_app. destruct u; cbn; lia.
Qed.

Lemma tidy_ui f w :
  (forall c, objectUrl (f c) = objectUrl c) ->
  (forall c, length (logs c) <= 40 -> length (logs (f c)) <= 40) ->
  tidy w -> tidy (set_ui f w).
Proof.
  intros Hu Hl [H1 [H2 H3]]. split; [by apply Hl|].
  split; [|done]. cbn [set_ui urls ui]. unfold held. by rewrite Hu.
Qed.

Lemma tidy_revoke w :
  tidy w -> tidy (revokeObjectUrl w) /\ objectUrl (ui (revokeObjectUrl w)) = None.
Proof.
  intros [H1 [H2 H3]]. unfold revokeObjectUrl.
  destruct (objectUrl (ui w)) as [u|] eqn:E; [|by repeat split].
  split; [|done]. split; [done|]. unfold url_inv. cbn [urls ui set_objectUrl objectUrl].
  rewrite live_app, created_app, H2. unfold held at 1 3. rewrite E. cbn.
  rewrite Nat.eqb_refl. cbn. by split.
Qed.

Lemma tidy_reset w : tidy w -> tidy (resetConversionState w).
Proof.
  intros H. unfold resetConversionState.
  apply tidy_ui; [done|by intros; cbn; lia|]. by apply tidy_revoke.
Qed.

Lemma tidy_setDownloadResult r w : tidy w -> tidy (setDownloadResult r w).
Proof.
  intros H. unfold setDownloadResult.
  destruct (tidy_revoke w H) as [H1 Hnone].
  set (w1 := set_ui (set_outputFileName (Some (Service.fileName r))) (revokeObjectUrl w)).
  assert (tidy w1) as Hw1 by (by apply tidy_ui).
  assert (objectUrl (ui w1) = None) as Hn1 by done.
  assert (tidy (mkWorld (set_downloadUrl (Some (TrustedBlobUrl (created (urls w1))))
                           (set_objectUrl (Some (created (urls w1))) (ui w1)))
                        (service w1) (refreshing w1) (invocations w1) (suspended w1)
                        (urls w1 ++ [CreateObjectURL (Service.blob r) (created (urls w1))])))
    as Hnew.
  { destruct Hw1 as [L [U1 U2]]. split; [done|]. unfold url_inv.
    cbn [urls ui set_downloadUrl set_objectUrl objectUrl].
    rewrite live_app, created_app, U1. unfold held. rewrite Hn1. cbn.
    split; [done|]. constructor; [lia|constructor]. }
  destruct (Service.remoteUrl r) as [[|c u]|]; [done| |done].
  by apply tidy_ui.
Qed.

Lemma tidy_drive e w : tidy w -> tidy ((Component.drive member_text round number_text) e w).
Proof.
  intros [H1 [H2 H3]].
  destruct (drive_display e w) as (_ & _ & _ & _ & _ & Hu & Hl).
  split; [by apply Hl|]. split; [|done].
  cbn [Component.drive urls]. unfold held. rewrite Hu. exact H2.
Qed.

Lemma tidy_cancelConversion w : tidy w -> tidy ((Component.cancelConversion member_text round number_text) w).
Proof.
  intros H. unfold Component.cancelConversion. destruct (negb _); [done|].
  apply tidy_ui; [done..|]. by apply tidy_drive.
Qed.

Lemma tidy_handleIncomingFile f w :
  tidy w -> tidy ((Component.handleIncomingFile member_text round number_text) f w).
Proof.
  intros H. unfold Component.handleIncomingFile.
  destruct (negb _); [by apply tidy_ui|].
  apply tidy_ui; [done..|]. apply tidy_ui; [done..|]. apply tidy_reset.
  destruct (isConverting _); [by apply tidy_cancelConversion|done].
Qed.

Lemma tidy_step e w : tidy w -> tidy ((Component.step member_text round number_text foreign_abort foreign_message) e w).
Proof.
  intros H. destruct e as [| |sel|f|f| | | | | | | |id|b]; cbn [Component.step].
  - unfold ngOnInit. by destruct (Listing.getFormatOptionsWithSupport _).
  - by apply tidy_revoke.
  - unfold onFormatChange. destruct sel as [value|]; [|done].
    destruct (String.eqb _ _); [done|].
    set (w1 := resetConversionState (set_ui (set_selectedFormatId value) w)).
    assert (tidy w1) as H1 by (by apply tidy_reset, tidy_ui).
    destruct (selectedFile (ui w1)); [destruct (currentFormat (ui w1)); [|done]|].
    + match goal with |- context [currentFormat (ui ?x)] => set (w2 := x) end.
      assert (tidy w2) as H2 by (by apply tidy_ui).
      destruct (currentFormat (ui w2)); [|done]. destruct (is_false _); [|done].
      by apply tidy_ui.
    + destruct (currentFormat (ui w1)); [|done]. destruct (is_false _); [|done].
      by apply tidy_ui.
  - destruct f; [by apply tidy_handleIncomingFile|done].
  - unfold onDrop. destruct f; [apply tidy_handleIncomingFile|]; by apply tidy_ui.
  - by apply tidy_ui.
  - by apply tidy_ui.
  - unfold clearSelection. destruct (isConverting _); [done|].
    by apply tidy_reset, tidy_ui.
  - unfold Component.convertSelected. destruct (isConverting _); [done|].
    destruct (negb _); [by apply tidy_ui|].
    destruct (selectedFile _); [|by apply tidy_ui].
    destruct (currentFormat _); [|by apply tidy_ui].
    destruct (is_false _); [by apply tidy_ui|].
    apply tidy_drive.
    match goal with |- tidy (mkWorld (ui ?x) _ _ _ _ _) =>
      assert (tidy x) as [L U] by (apply tidy_ui; [done|by intros; cbn; lia|done])
    end.
    by split.
  - by apply tidy_cancelConversion.
  - unfold listing_resumes. destruct (refreshing w) as [[l| |]|]; try done.
    by destruct (Listing.resume _ _).
  - unfold refreshFormatOptions_resumes.
    destruct (refreshing w) as [[l|options|]|]; try done.
    match goal with |- context [set_ui ?f ?x] =>
      assert (tidy (set_ui f x)) as H1 by (by apply tidy_ui)
    end.
    destruct (existsb _ _); [done|].
    destruct (List.find _ _); [|by apply tidy_ui].
    match goal with |- context [selectedFile (ui ?x)] =>
      assert (tidy x) as H2 by (by apply tidy_ui)
    end.
    destruct (selectedFile _); [by apply tidy_ui|done].
  - unfold Component.convertSelected_resumes. destruct (negb _); [done|].
    destruct (Service.stage_of _ _) as [[| | | | |o]|]; try done.
    apply tidy_ui; [done..|].
    destruct o as [r|e].
    + apply tidy_setDownloadResult. by apply tidy_ui.
    + destruct (is_abort _ _); by apply tidy_ui.
  - by apply tidy_drive.
Qed.

Lemma tidy_start : tidy start.
Proof. split; [cbn; lia|]. by split. Qed.

Lemma tidy_run es : forall w, tidy w -> tidy ((Component.run member_text round number_text foreign_abort foreign_message) es w).
Proof.
  induction es as [|e es IH]; intros w H; [done|].
  cbn. apply IH. by apply tidy_step.
Qed.

Lemma last_40_again (a b : list string) :
  drop (length (drop (length a - 40) a ++ b) - 40) (drop (length a - 40) a ++ b)
  = drop (length (a ++ b) - 40) (a ++ b).
Proof.
  rewrite <- (drop_app_le a b) by lia.
  rewrite drop_drop, length_drop. f_equal. rewrite !length_app. lia.
Qed.

Lemma push_log_last msgs : forall a,
  fold_left push_log msgs (drop (length a - 40) a)
  = drop (length (a ++ msgs) - 40) (a ++ msgs).
Proof.
  induction msgs as [|m msgs IH]; intros a; [by rewrite app_nil_r|].
  cbn [fold_left]. unfold push_log at 2. rewrite last_40_again, IH.
  by rewrite <- app_assoc.
Qed.

End WorldFacts.

(** X16: through the component at most one conversion is in flight at any
    time. [isConverting] is set exactly while a call of [convertSelected] is
    suspended at [await convert(...)], and at most one is; while it is
    clear the service is idle, so the entry check of [convert] never turns a
    call of the component away; and once the conversion in flight has set
    the marker, [cancelConversion] reaches it. *)
Theorem component_runs_one_conversion
    (member_text : string -> string) (round : float -> float)
    (number_text : float -> string) (foreign_abort : string -> bool)
    (foreign_message : string -> option string) (es : list Component.event) :
  let w := Component.run member_text round number_text foreign_abort foreign_message
             es Component.start in
  length (Service.in_flight (Component.service w)) <= 1 /\
  length (Component.suspended w) <= 1 /\
  (Component.isConverting (Component.ui w) = true <-> Component.suspended w <> []) /\
  (Component.isConverting (Component.ui w) = false ->
   Service.in_flight (Component.service w) = [] /\
   Service.activeCancel (Component.service w) = None) /\
  (forall id c,
     Service.calls (Component.service w) !! id = Some c ->
     ServiceSpec.armed (Service.at_stage c) = true ->
     Service.activeCancel (Component.service w) = Some id /\
     Component.suspended w = [id]).
Proof.
  intros w.
  destruct (flight_inv_run member_text round number_text foreign_abort foreign_message
              es _ flight_inv_start) as (HI & SF & H3 & H4).
  fold w in HI, SF, H3, H4.
  destruct (single_flight_shape _ SF) as [Hlen Harmed].
  assert (Component.isConverting (Component.ui w) = false ->
          Service.in_flight (Component.service w) = []) as Hidle.
  { intros Hi. destruct (H3 Hi) as [_ Hall].
    destruct (Service.in_flight (Component.service w)) as [|a l] eqn:E; [done|].
    assert (In a (Service.in_flight (Component.service w))) as Ha by (rewrite E; by left).
    apply in_flight_spec in Ha as (c & Hc & Ht). by rewrite (Hall a c Hc) in Ht. }
  split; [done|]. split; [|split; [|split]].
  - destruct (Component.isConverting (Component.ui w)) eqn:Hi.
    + destruct (H4 eq_refl) as (id & -> & _). cbn. lia.
    + destruct (H3 eq_refl) as [-> _]. cbn. lia.
  - split.
    + intros Hi. destruct (H4 Hi) as (id & -> & _). done.
    + intros Hs. destruct (Component.isConverting (Component.ui w)) eqn:Hi; [done|].
      by destruct (H3 eq_refl).
  - intros Hi. split; [by apply Hidle|].
    apply idle_no_marker; [done|by apply Hidle].
  - intros id c Hc Harm. destruct (Harmed id c Hc Harm) as [Hm Hin]. split; [done|].
    destruct (Component.isConverting (Component.ui w)) eqn:Hi.
    + destruct (H4 eq_refl) as (id' & Hs & _ & Hall). rewrite Hs. f_equal.
      destruct (decide (id = id')) as [->|Hne]; [done|].
      specialize (Hall id c Hc Hne). by destruct (Service.at_stage c).
    + rewrite (Hidle eq_refl) in Hin. done.
Qed.

(** X17: the component's log never holds more than 40 entries, and after
    any number of messages it holds the last 40 of them, in order. *)
Theorem logs_hold_the_last_40 :
  (forall member_text round number_text foreign_abort foreign_message es,
     length (Component.logs (Component.ui
       (Component.run member_text round number_text foreign_abort foreign_message
          es Component.start))) <= 40) /\
  (forall messages,
     fold_left Component.push_log messages []
     = drop (length messages - 40) messages).
Proof.
  split.
  - intros member_text round number_text foreign_abort foreign_message es.
    by destruct (tidy_run member_text round number_text foreign_abort foreign_message
                   es _ tidy_start).
  - intros messages. apply (push_log_last messages []).
Qed.

(** X18: the component holds at most one blob URL at a time, the one in
    [objectUrl]: every URL made by [URL.createObjectURL] has been revoked
    by the time the next one is made, and by the time the state is reset. *)
Theorem one_blob_url_at_a_time
    (member_text : string -> string) (round : float -> float)
    (number_text : float -> string) (foreign_abort : string -> bool)
    (foreign_message : string -> option string) (es : list Component.event) :
  let w := Component.run member_text round number_text foreign_abort foreign_message
             es Component.start in
  ComponentLaws.live (Component.urls w)
  = match Component.objectUrl (Component.ui w) with
    | Some u => [u]
    | None => []
    end /\
  length (ComponentLaws.live (Component.urls w)) <= 1.
Proof.
  intros w.
  destruct (tidy_run member_text round number_text foreign_abort foreign_message
              es _ tidy_start) as [_ [H _]].
  fold w in H. split; [exact H|]. rewrite H. unfold ComponentLaws.held.
  destruct (Component.objectUrl _); cbn; lia.
Qed.

(** X19: for a format of the catalog, the component checks the support
    before it calls [convert]: whenever a call of [convert] made by the
    component for a format of the catalog awaits [isFormatSupported], the
    promise it awaits already has the value [true], so the call goes on to
    read the file when it resumes, and is not refused for lack of support.
    (The value of the select element is not checked against the catalog;
    see [convert_for_an_inherited_name] for one that names no format.) *)
Theorem component_checks_support_first
    (member_text : string -> string) (round : float -> float)
    (number_text : float -> string) (foreign_abort : string -> bool)
    (foreign_message : string -> option string) (es : list Component.event)
    (id : nat) (c : Service.Call) (p : Registry.promise)
    (spec : Registry.AudioFormatSpec) :
  Service.calls (Component.service
    (Component.run member_text round number_text foreign_abort foreign_message
       es Component.start)) !! id = Some c ->
  Service.at_stage c = Service.AwaitSupport p ->
  Registry.spec_of (Service.formatId c) = Some spec ->
  Registry.value (Service.registry (Component.service
    (Component.run member_text round number_text foreign_abort foreign_message
       es Component.start))) p = Some true /\
  Service.stage_of id
    (Service.resume_support id (Component.service
       (Component.run member_text round number_text foreign_abort foreign_message
          es Component.start)))
  = Some Service.AwaitArrayBuffer.
Proof.
  intros Hc Hst Hs.
  destruct (support_inv_run member_text round number_text foreign_abort foreign_message
              es _ flight_inv_start support_inv_start) as (_ & _ & _ & H4).
  pose proof (H4 id c p spec Hc Hst Hs) as Hv. split; [done|].
  unfold Service.resume_support. rewrite Hc, Hst, Hv.
  unfold Service.stage_of. cbn [Service.set_call Service.calls Service.emit].
  rewrite log_calls, list_lookup_insert_eq by (by eapply lookup_lt_Some). done.
Qed.

Lemma component_checks_support_first_witness :
  exists c p,
    Service.calls (Component.service
      (Component.run ServiceSpec.plain_text (fun x => x) (fun _ => EmptyString)
         (fun _ => false) (fun _ => None) ComponentLaws.opening Component.start)) !! 0
    = Some c /\
    Service.at_stage c = Service.AwaitSupport p /\
    Service.formatId c = "mp3"%string /\
    Registry.value (Service.registry (Component.service
      (Component.run ServiceSpec.plain_text (fun x => x) (fun _ => EmptyString)
         (fun _ => false) (fun _ => None) ComponentLaws.opening Component.start))) p
    = Some true.
Proof.
  assert (exists c p spec,
    Service.calls (Component.service
      (Component.run ServiceSpec.plain_text (fun x => x) (fun _ => EmptyString)
         (fun _ => false) (fun _ => None) ComponentLaws.opening Component.start)) !! 0
    = Some c /\
    Service.at_stage c = Service.AwaitSupport p /\
    Service.formatId c = "mp3"%string /\
    Registry.spec_of (Service.formatId c) = Some spec) as (c & p & spec & Hc & Hst & Hf & Hs).
  { vm_compute. eexists. eexists. eexists. repeat split; reflexivity. }
  exists c, p. split; [exact Hc|]. split; [exact Hst|]. split; [exact Hf|].
  exact (proj1 (component_checks_support_first ServiceSpec.plain_text (fun x => x)
                  (fun _ => EmptyString) (fun _ => false) (fun _ => None)
                  ComponentLaws.opening 0 c p spec Hc Hst Hs)).
Defined.

(** The select element set to the name of a member every object inherits:
    no option of the list has that id, the first one stands in for the
    check the component makes, and [convert] is called with the name; it
    does not refuse it, asks the engine about an undefined codec, and
    awaits the answer. *)
Example convert_for_an_inherited_name :
  let w := Component.run ServiceSpec.plain_text (fun x => x) (fun _ => EmptyString)
             (fun _ => false) (fun _ => None) ComponentLaws.opening_by_name
             Component.start in
  Service.formatId <$> Service.calls (Component.service w) !! 0 = Some "toString"%string /\
  Service.stage_of 0 (Component.service w)
    = Some (Service.AwaitSupport (Registry.Probing 3)) /\
  Registry.probes (Service.registry (Component.service w)) !! 3 = Some (None, None) /\
  Registry.value (Service.registry (Component.service w)) (Registry.Probing 3) = None.
Proof. cbv zeta. repeat split; vm_compute; reflexivity. Qed.

(** X20: once the component has loaded its list of formats, the list is
    the catalog's (mp3, wav, ogg, aac, flac, with their labels and
    extensions), and the support it shows for each format is what
    [isFormatSupported] answers for it now and from then on, with the
    format's own message as the reason when it is not supported. *)
Theorem component_lists_the_catalog
    (member_text : string -> string) (round : float -> float)
    (number_text : float -> string) (foreign_abort : string -> bool)
    (foreign_message : string -> option string) (es : list Component.event) :
  Component.optionsLoaded (Component.ui
    (Component.run member_text round number_text foreign_abort foreign_message
       es Component.start)) = true ->
  Listing.id <$> Component.formatOptions (Component.ui
    (Component.run member_text round number_text foreign_abort foreign_message
       es Component.start))
  = ["mp3"; "wav"; "ogg"; "aac"; "flac"]%string /\
  Forall2 (RegistryLaws.listed (Service.registry (Component.service
             (Component.run member_text round number_text foreign_abort foreign_message
                es Component.start))))
    (Component.formatOptions (Component.ui
       (Component.run member_text round number_text foreign_abort foreign_message
          es Component.start)))
    Registry.AUDIO_FORMAT_SPECS.
Proof.
  intros Hl.
  destruct (support_inv_run member_text round number_text foreign_abort foreign_message
              es _ flight_inv_start support_inv_start) as (_ & _ & H3 & _).
  specialize (H3 Hl). split; [|done]. by rewrite (listed_ids _ _ _ H3).
Qed.

Lemma component_lists_the_catalog_witness :
  Component.optionsLoaded (Component.ui
    (Component.run ServiceSpec.plain_text (fun x => x) (fun _ => EmptyString)
       (fun _ => false) (fun _ => None) ComponentLaws.opening Component.start)) = true /\
  Listing.id <$> Component.formatOptions (Component.ui
    (Component.run ServiceSpec.plain_text (fun x => x) (fun _ => EmptyString)
       (fun _ => false) (fun _ => None) ComponentLaws.opening Component.start))
  = ["mp3"; "wav"; "ogg"; "aac"; "flac"]%string.
Proof.
  assert (Component.optionsLoaded (Component.ui
    (Component.run ServiceSpec.plain_text (fun x => x) (fun _ => EmptyString)
       (fun _ => false) (fun _ => None) ComponentLaws.opening Component.start)) = true) as H
    by (vm_compute; reflexivity).
  split; [exact H|].
  exact (proj1 (component_lists_the_catalog ServiceSpec.plain_text (fun x => x)
                  (fun _ => EmptyString) (fun _ => false) (fun _ => None)
                  ComponentLaws.opening H)).
Defined.

(** X21: when [refreshFormatOptions] resumes with the list of formats, the
    format selected afterwards is one of the list that the list marks as
    supported: the one selected before when the list marks that one as
    supported, and otherwise the first supported one of the list, which is
    MP3; the branch that reports that no encoder was detected is never
    taken. *)
Theorem refresh_selects_a_supported_format
    (member_text : string -> string) (round : float -> float)
    (number_text : float -> string) (foreign_abort : string -> bool)
    (foreign_message : string -> option string) (es : list Component.event)
    (options : list Listing.AudioOutputOption) :
  Component.refreshing
    (Component.run member_text round number_text foreign_abort foreign_message
       es Component.start) = Some (Listing.Returned options) ->
  let w := Component.run member_text round number_text foreign_abort foreign_message
             es Component.start in
  let w' := Component.refreshFormatOptions_resumes w in
  let hasSupportedSelection :=
    existsb (fun o => String.eqb (Listing.id o)
                        (Component.selectedFormatId (Component.ui w))
                      && Component.truthy (Listing.supported o)) options in
  Component.optionsLoaded (Component.ui w') = true /\
  Component.formatOptions (Component.ui w') = options /\
  Component.errorMessage (Component.ui w') = Component.errorMessage (Component.ui w) /\
  exists o, Component.currentFormat (Component.ui w') = Some o /\
            Listing.supported o = Some true /\
            Listing.id o = Component.selectedFormatId (Component.ui w') /\
            if hasSupportedSelection
            then Component.selectedFormatId (Component.ui w')
                 = Component.selectedFormatId (Component.ui w)
            else List.find (fun o => Component.truthy (Listing.supported o)) options
                 = Some o /\
                 Component.selectedFormatId (Component.ui w') = "mp3"%string.
Proof.
  intros Hp. cbv zeta. apply refresh_selects_supported; [|done].
  apply support_inv_run; [apply flight_inv_start|apply support_inv_start].
Qed.

Lemma refresh_selects_a_supported_format_witness :
  exists options o,
    Component.refreshing
      (Component.run ServiceSpec.plain_text (fun x => x) (fun _ => EmptyString)
         (fun _ => false) (fun _ => None)
         (ComponentLaws.loading ++ [Component.OnFormatChange (Some "flac"%string)])
         Component.start) = Some (Listing.Returned options) /\
    Component.currentFormat (Component.ui (Component.refreshFormatOptions_resumes
      (Component.run ServiceSpec.plain_text (fun x => x) (fun _ => EmptyString)
         (fun _ => false) (fun _ => None)
         (ComponentLaws.loading ++ [Component.OnFormatChange (Some "flac"%string)])
         Component.start))) = Some o /\
    Listing.supported o = Some true /\
    Listing.id o = "mp3"%string.
Proof.
  assert (exists options,
    Component.refreshing
      (Component.run ServiceSpec.plain_text (fun x => x) (fun _ => EmptyString)
         (fun _ => false) (fun _ => None)
         (ComponentLaws.loading ++ [Component.OnFormatChange (Some "flac"%string)])
         Component.start) = Some (Listing.Returned options) /\
    existsb (fun o => String.eqb (Listing.id o)
                        (Component.selectedFormatId (Component.ui
      (Component.run ServiceSpec.plain_text (fun x => x) (fun _ => EmptyString)
         (fun _ => false) (fun _ => None)
         (ComponentLaws.loading ++ [Component.OnFormatChange (Some "flac"%string)])
         Component.start)))
                      && Component.truthy (Listing.supported o)) options = false)
    as (options & Hp & Hnot).
  { vm_compute. eexists. split; reflexivity. }
  destruct (refresh_selects_a_supported_format ServiceSpec.plain_text (fun x => x)
              (fun _ => EmptyString) (fun _ => false) (fun _ => None)
              (ComponentLaws.loading ++ [Component.OnFormatChange (Some "flac"%string)])
              options Hp) as (_ & _ & _ & o & Ho & Hs & Hid & Hsel).
  cbv zeta in Hsel. rewrite Hnot in Hsel. destruct Hsel as [_ Hmp3].
  exists options, o. split; [exact Hp|]. split; [exact Ho|]. split; [exact Hs|].
  by rewrite Hid.
Defined.



(** X25: a request to cancel made before the conversion has set the marker
    (while [convert] still awaits [isFormatSupported] or
    [file.arrayBuffer()]) is lost: the component's [cancelConversion] leaves
    the service as it was, and the conversion goes on. *)
Theorem early_cancel_is_lost
    (member_text : string -> string) (round : float -> float)
    (number_text : float -> string) (foreign_abort : string -> bool)
    (foreign_message : string -> option string) (es : list Component.event)
    (id : nat) (c : Service.Call) :
  Component.suspended
    (Component.run member_text round number_text foreign_abort foreign_message
       es Component.start) = [id] ->
  Service.calls (Component.service
    (Component.run member_text round number_text foreign_abort foreign_message
       es Component.start)) !! id = Some c ->
  ServiceSpec.armed (Service.at_stage c) = false ->
  Component.service
    (Component.cancelConversion member_text round number_text
       (Component.run member_text round number_text foreign_abort foreign_message
          es Component.start))
  = Component.service
      (Component.run member_text round number_text foreign_abort foreign_message
         es Component.start) /\
  Component.status (Component.ui
    (Component.cancelConversion member_text round number_text
       (Component.run member_text round number_text foreign_abort foreign_message
          es Component.start)))
  = "Cancelling conversion..."%string.
Proof.
  intros Hs Hc Harm.
  set (w := Component.run member_text round number_text foreign_abort foreign_message
              es Component.start) in *.
  destruct (flight_inv_run member_text round number_text foreign_abort foreign_message
              es _ flight_inv_start) as ([Ha _] & _ & H3 & H4). fold w in Ha, H3, H4.
  assert (Component.isConverting (Component.ui w) = true) as Hi.
  { destruct (Component.isConverting (Component.ui w)); [done|].
    destruct (H3 eq_refl) as [Hn _]. by rewrite Hn in Hs. }
  assert (Service.activeCancel (Component.service w) = None) as Hidle.
  { destruct (Service.activeCancel (Component.service w)) as [j|] eqn:E; [|done].
    destruct (Ha j eq_refl) as (cj & Hcj & Hj).
    destruct (H4 Hi) as (id' & Hs' & _ & Hall). rewrite Hs in Hs'. injection Hs' as <-.
    destruct (decide (j = id)) as [->|Hne]; [congruence|].
    specialize (Hall j cj Hcj Hne). by destruct (Service.at_stage cj). }
  unfold Component.cancelConversion. rewrite Hi. cbn [negb].
  unfold Component.drive. cbn [Service.step]. unfold Service.cancelConversion.
  rewrite Hidle. rewrite drop_all. cbn. by destruct (Component.service w).
Qed.

Lemma early_cancel_is_lost_witness :
  exists c,
    Component.suspended
      (Component.run ServiceSpec.plain_text (fun x => x) (fun _ => EmptyString)
         (fun _ => false) (fun _ => None) ComponentLaws.opening Component.start) = [0] /\
    Service.calls (Component.service
      (Component.run ServiceSpec.plain_text (fun x => x) (fun _ => EmptyString)
         (fun _ => false) (fun _ => None) ComponentLaws.opening Component.start)) !! 0
    = Some c /\
    ServiceSpec.armed (Service.at_stage c) = false /\
    Component.service
      (Component.cancelConversion ServiceSpec.plain_text (fun x => x) (fun _ => EmptyString)
         (Component.run ServiceSpec.plain_text (fun x => x) (fun _ => EmptyString)
            (fun _ => false) (fun _ => None) ComponentLaws.opening Component.start))
    = Component.service
        (Component.run ServiceSpec.plain_text (fun x => x) (fun _ => EmptyString)
           (fun _ => false) (fun _ => None) ComponentLaws.opening Component.start).
Proof.
  assert (Component.suspended
      (Component.run ServiceSpec.plain_text (fun x => x) (fun _ => EmptyString)
         (fun _ => false) (fun _ => None) ComponentLaws.opening Component.start) = [0])
    as Hs by (vm_compute; reflexivity).
  assert (exists c,
    Service.calls (Component.service
      (Component.run ServiceSpec.plain_text (fun x => x) (fun _ => EmptyString)
         (fun _ => false) (fun _ => None) ComponentLaws.opening Component.start)) !! 0
    = Some c /\
    ServiceSpec.armed (Service.at_stage c) = false) as (c & Hc & Harm).
  { vm_compute. eexists. split; reflexivity. }
  exists c. split; [exact Hs|]. split; [exact Hc|]. split; [exact Harm|].
  exact (proj1 (early_cancel_is_lost ServiceSpec.plain_text (fun x => x)
                  (fun _ => EmptyString) (fun _ => false) (fun _ => None)
                  ComponentLaws.opening 0 c Hs Hc Harm)).
Defined.

(** X26: once the list of formats is loaded there always is a current
    format, and the notice shown for it is nothing when it is supported and
    the format's own message when it is not: the fallback text of
    [unsupportedNotice] is never shown. *)
Theorem unsupportedNotice_is_the_formats_own
    (member_text : string -> string) (round : float -> float)
    (number_text : float -> string) (foreign_abort : string -> bool)
    (foreign_message : string -> option string) (es : list Component.event) :
  Component.optionsLoaded (Component.ui
    (Component.run member_text round number_text foreign_abort foreign_message
       es Component.start)) = true ->
  exists o b,
    Component.currentFormat (Component.ui
      (Component.run member_text round number_text foreign_abort foreign_message
         es Component.start)) = Some o /\
    Listing.supported o = Some b /\
    Component.unsupportedNotice (Component.ui
      (Component.run member_text round number_text foreign_abort foreign_message
         es Component.start))
    = (if b then None else Listing.reason o) /\
    (b = false -> exists spec,
       Registry.spec_of (Listing.id o) = Some spec /\
       Listing.reason o = Registry.unsupportedMessage spec /\
       is_Some (Registry.unsupportedMessage spec)).
Proof.
  intros Hl.
  destruct (support_inv_run member_text round number_text foreign_abort foreign_message
              es _ flight_inv_start support_inv_start) as (_ & _ & H3 & _).
  specialize (H3 Hl).
  set (c := Component.ui _) in *.
  assert (exists o, Component.currentFormat c = Some o /\ In o (Component.formatOptions c))
    as (o & Hcur & Hin).
  { unfold Component.currentFormat. destruct (List.find _ _) as [o|] eqn:Hfind.
    - exists o. split; [done|]. by apply find_some in Hfind as [? _].
    - unfold Registry.AUDIO_FORMAT_SPECS in H3.
      apply Forall2_cons_inv_r in H3 as (o & opts & _ & _ & Heq).
      rewrite Heq. exists o. split; [done|by left]. }
  apply list_elem_of_In, list_elem_of_lookup_1 in Hin as [i Hi].
  destruct (Forall2_lookup_l _ _ _ _ _ H3 Hi) as ([f spec] & Hentry & Hlisted).
  destruct Hlisted as (Hid & _ & _ & _ & b & Hb & _ & _ & Hreason & Hsome).
  cbn [fst snd] in *.
  exists o, b. split; [done|]. split; [done|]. split.
  - unfold Component.unsupportedNotice. rewrite Hcur, Hb.
    destruct b; [done|]. cbn [Component.truthy].
    destruct (Hsome eq_refl) as [m Hm]. by rewrite Hm.
  - intros ->. exists spec. split; [|split; [done|]].
    + rewrite Hid. apply catalog_entry. by eapply list_elem_of_lookup_2.
    + rewrite <- Hreason. by apply Hsome.
Qed.

Lemma unsupportedNotice_is_the_formats_own_witness :
  Component.optionsLoaded (Component.ui
    (Component.run ServiceSpec.plain_text (fun x => x) (fun _ => EmptyString)
       (fun _ => false) (fun _ => None)
       (ComponentLaws.opening ++ [Component.OnFormatChange (Some "flac"%string)])
       Component.start)) = true /\
  Component.unsupportedNotice (Component.ui
    (Component.run ServiceSpec.plain_text (fun x => x) (fun _ => EmptyString)
       (fun _ => false) (fun _ => None)
       (ComponentLaws.opening ++ [Component.OnFormatChange (Some "flac"%string)])
       Component.start))
  = Some "FLAC encoding is still experimental in WebCodecs. Use WAV for lossless audio in this browser."%string /\
  exists o b,
    Component.currentFormat (Component.ui
      (Component.run ServiceSpec.plain_text (fun x => x) (fun _ => EmptyString)
         (fun _ => false) (fun _ => None)
         (ComponentLaws.opening ++ [Component.OnFormatChange (Some "flac"%string)])
         Component.start)) = Some o /\
    Listing.supported o = Some b.
Proof.
  assert (Component.optionsLoaded (Component.ui
    (Component.run ServiceSpec.plain_text (fun x => x) (fun _ => EmptyString)
       (fun _ => false) (fun _ => None)
       (ComponentLaws.opening ++ [Component.OnFormatChange (Some "flac"%string)])
       Component.start)) = true) as H by (vm_compute; reflexivity).
  split; [exact H|]. split; [vm_compute; reflexivity|].
  destruct (unsupportedNotice_is_the_formats_own ServiceSpec.plain_text (fun x => x)
              (fun _ => EmptyString) (fun _ => false) (fun _ => None)
              (ComponentLaws.opening ++ [Component.OnFormatChange (Some "flac"%string)]) H)
    as (o & b & Hcur & Hb & _).
  exists o, b. split; [exact Hcur|exact Hb].
Defined.

(* ===================================================================== *)
(** ** Which files the component takes *)
(* ===================================================================== *)

Section MediaFiles.
Import JsString JsRegExp Component ComponentLaws.

Lemma all_units_all (P : ascii -> bool) :
  forallb P all_units = true -> forall x, P x = true.
Proof.
  intros H x. rewrite forallb_forall in H. apply H.
  unfold all_units. rewrite <- (ascii_nat_embedding x). apply in_map, in_seq.
  pose proof (nat_ascii_bounded x). lia.
Qed.

Lemma plain_unit_class c x :
  plain_unit c = true -> in_class (unit_class c) x = Ascii.eqb (lower_unit x) c.
Proof.
  intros H. apply eqb_prop. exact (all_units_all _ H x).
Qed.

Lemma dot_class x :
  in_class (CharClass false [Naming.single "."%char]) x = Ascii.eqb (lower_unit x) ".".
Proof.
  apply eqb_prop.
  apply (all_units_all (fun x => Bool.eqb
           (in_class (CharClass false [Naming.single "."%char]) x)
           (Ascii.eqb (lower_unit x) "."))).
  by vm_compute.
Qed.

(** A sequence of classes followed by [$] matches exactly the subjects that
    have one unit of each class, in order. *)
Lemma match_classes ks : forall pos l,
  match_seq (map One ks ++ [Eol]) pos l
  = if bool_decide (Forall2 (fun k c => in_class k c = true) ks l)
    then Some (length ks) else None.
Proof.
  induction ks as [|k ks IH]; intros pos l; cbn [map app match_seq].
  - destruct l; [by rewrite bool_decide_eq_true_2 by constructor|].
    rewrite bool_decide_eq_false_2; [done|]. by intros ?%Forall2_nil_cons_inv.
  - destruct l as [|c l].
    { rewrite bool_decide_eq_false_2; [done|]. by intros ?%Forall2_cons_nil_inv. }
    destruct (in_class k c) eqn:Hk.
    + rewrite IH. case_bool_decide as H.
      * rewrite bool_decide_eq_true_2 by (by constructor). done.
      * rewrite bool_decide_eq_false_2; [done|]. by intros [_ ?]%Forall2_cons_1.
    + rewrite bool_decide_eq_false_2; [done|].
      intros [? _]%Forall2_cons_1. congruence.
Qed.

Lemma classes_lower cs : forall l,
  Forall (fun c => forall x, in_class (unit_class c) x = Ascii.eqb (lower_unit x) c) cs ->
  Forall2 (fun k c => in_class k c = true) (map unit_class cs) l <->
  map lower_unit l = cs.
Proof.
  induction cs as [|c cs IH]; intros l H; cbn [map].
  - split; [by intros ->%Forall2_nil_inv_l|]. destruct l; [constructor|done].
  - apply Forall_cons in H as [Hc Hcs]. destruct l as [|x l].
    + split; [by intros ?%Forall2_cons_nil_inv|done].
    + rewrite Forall2_cons, (IH l Hcs), Hc. cbn [map]. split.
      * intros [->%Ascii.eqb_eq ->]. done.
      * intros [= <- <-]. by rewrite Ascii.eqb_refl.
Qed.

Lemma extensions_plain :
  Forall (fun e => Forall (fun c => forall x,
            in_class (unit_class c) x = Ascii.eqb (lower_unit x) c) (chars e))
         extensions.
Proof.
  assert (forallb (fun e => forallb plain_unit (chars e)) extensions = true) as H
    by (by vm_compute).
  rewrite forallb_forall in H. apply Forall_forall. intros e He.
  apply list_elem_of_In in He. specialize (H e He). rewrite forallb_forall in H.
  apply Forall_forall. intros c Hc x. apply plain_unit_class, H. by apply list_elem_of_In.
Qed.

Lemma match_alternative e pos l :
  Forall (fun c => forall x, in_class (unit_class c) x = Ascii.eqb (lower_unit x) c)
         (chars e) ->
  match_seq (One (CharClass false [Naming.single "."%char])
             :: map either_case (chars e) ++ [Eol]) pos l
  = if matches_extension l e then Some (S (length (chars e))) else None.
Proof.
  intros He.
  assert (One (CharClass false [Naming.single "."%char])
          :: map either_case (chars e) ++ [Eol]
          = map One (CharClass false [Naming.single "."%char] :: map unit_class (chars e))
            ++ [Eol]) as ->.
  { cbn [map app]. by rewrite map_map. }
  rewrite match_classes. cbn [length]. rewrite length_map. unfold matches_extension.
  assert (Forall2 (fun k c => in_class k c = true)
            (CharClass false [Naming.single "."%char] :: map unit_class (chars e)) l
          <-> map lower_unit l = "."%char :: chars e) as Hiff.
  { destruct l as [|x l].
    - split; [by intros ?%Forall2_cons_nil_inv|done].
    - rewrite Forall2_cons, (classes_lower _ l He), dot_class. cbn [map]. split.
      + intros [->%Ascii.eqb_eq ->]. done.
      + intros [= -> <-]. done. }
  case_bool_decide as H1; case_bool_decide as H2; try done; by destruct Hiff; intuition.
Qed.

Lemma match_at_media_from es pos l :
  Forall (fun e => Forall (fun c => forall x,
            in_class (unit_class c) x = Ascii.eqb (lower_unit x) c) (chars e)) es ->
  is_Some (match_at (map (fun e => One (CharClass false [Naming.single "."%char])
                                   :: map either_case (chars e) ++ [Eol]) es) pos l)
  <-> existsb (matches_extension l) es = true.
Proof.
  induction es as [|e es IH]; intros H; cbn [map match_at existsb].
  - split; [by intros [? ?]|done].
  - apply Forall_cons in H as [He Hes]. rewrite (match_alternative e pos l He).
    destruct (matches_extension l e); cbn [orb]; [by split; [|eexists]|].
    by apply IH.
Qed.

Lemma test_from_media pos l :
  test_from re_media pos l = true <->
  exists k, k <= length l /\ existsb (matches_extension (drop k l)) extensions = true.
Proof.
  revert pos. induction l as [|c l IH]; intros pos; cbn [test_from].
  - pose proof (match_at_media_from extensions pos [] extensions_plain) as Hm.
    fold re_media in Hm. destruct (match_at re_media pos []) as [n|].
    + split; [|done]. intros _. exists 0. split; [done|]. apply Hm. by eexists.
    + split; [done|]. intros (k & Hk & H). cbn in Hk. assert (k = 0) as -> by lia.
      apply Hm in H as [? ?]. done.
  - pose proof (match_at_media_from extensions pos (c :: l) extensions_plain) as Hm.
    fold re_media in Hm. destruct (match_at re_media pos (c :: l)) as [n|].
    + split; [|done]. intros _. exists 0. split; [lia|]. apply Hm. by eexists.
    + rewrite IH. split.
      * intros (k & Hk & H). exists (S k). split; [cbn; lia|done].
      * intros ([|k] & Hk & H).
        -- apply Hm in H as [? ?]. done.
        -- exists k. split; [cbn in Hk; lia|done].
Qed.

Lemma ends_with_drop l s :
  ends_with l s = true <-> exists k, k <= length l /\ drop k l = s.
Proof.
  unfold ends_with. rewrite bool_decide_eq_true. split.
  - intros H. exists (length l - length s). split; [lia|done].
  - intros (k & Hk & <-). rewrite length_drop. f_equal. lia.
Qed.

Lemma test_media_name name : test re_media name = media_name name.
Proof.
  apply eq_true_iff_eq. unfold test, media_name. rewrite test_from_media.
  rewrite existsb_exists. split.
  - intros (k & Hk & (e & He & Hm)%existsb_exists).
    exists e. split; [done|]. apply ends_with_drop. exists k.
    unfold toLowerCase. rewrite length_map. split; [done|].
    unfold matches_extension in Hm. apply bool_decide_eq_true in Hm.
    by rewrite <- Hm, skipn_map.
  - intros (e & He & (k & Hk & Hd)%ends_with_drop).
    unfold toLowerCase in *. rewrite length_map in Hk. exists k. split; [done|].
    apply existsb_exists. exists e. split; [done|].
    unfold matches_extension. apply bool_decide_eq_true. by rewrite <- Hd, skipn_map.
Qed.

End MediaFiles.

(** X22: [isSupportedFile] takes exactly the files whose type, in lower
    case, begins with "video/" or "audio/", and those whose name ends, in
    whatever case, with a dot and one of mp4, m4v, mkv, mov, webm, avi, flv,
    wmv, mp3, wav, m4a, aac, flac, ogg. *)
Theorem isSupportedFile_rule (f : Component.PickedFile) :
  Component.isSupportedFile f
  = ComponentLaws.media_type (Component.type f)
    || ComponentLaws.media_name (Service.name (Component.file f)).
Proof.
  unfold Component.isSupportedFile, ComponentLaws.media_type.
  by rewrite test_media_name.
Qed.
